(** * decl-worker-api: the pipeline execution engine

    A shallow embedding of the orchestrator's engine
    (templates.ts, execution.ts, registry.ts, sequential.ts, dispatcher.ts)
    and the properties stated about it.

    Conventions of the embedding.
    - JavaScript values are the data values a task payload or a backend
      result can hold: [value].  Numbers are the integers ([Z]); objects are
      association lists of own properties in insertion order; inherited
      (prototype) properties are not modelled.
    - Strings are sequences of 8-bit code units.
    - A thrown value is an [Error] object, identified with its message.
    - Asynchronous code is sequentialised: a computation is a function
      from the state it runs in to its outcome and the state it leaves. *)

From Stdlib Require Import String Ascii List ZArith Lia Bool Arith DecimalString.
From Stdlib Require DecimalNat DecimalFacts.
Import ListNotations.
Open Scope string_scope.
Set Warnings "-register-all".

(* ================================================================= *)
(** ** JavaScript values *)

Inductive value : Type :=
| VUndef : value
| VNull : value
| VBool (b : bool) : value
| VNum (n : Z) : value
| VStr (s : string) : value
| VArr (items : list value) : value
| VObj (fields : list (string * value)) : value.

(** [typeof v] *)
Definition typeof (v : value) : string :=
  match v with
  | VUndef => "undefined"
  | VNull => "object"
  | VBool _ => "boolean"
  | VNum _ => "number"
  | VStr _ => "string"
  | VArr _ => "object"
  | VObj _ => "object"
  end.


(** Truthiness, as [!v] and [v && ...] test it. *)
Definition truthy (v : value) : bool :=
  match v with
  | VUndef => false
  | VNull => false
  | VBool b => b
  | VNum n => negb (Z.eqb n 0)
  | VStr s => negb (String.eqb s "")
  | VArr _ => true
  | VObj _ => true
  end.

(** Own-property lookup in an object: the first entry with the key. *)
Fixpoint obj_get (fields : list (string * value)) (key : string) : value :=
  match fields with
  | [] => VUndef
  | (k, v) :: rest => if String.eqb k key then v else obj_get rest key
  end.

(** [obj[key] = v]: replaces the entry in place, or appends a new one. *)
Fixpoint obj_set (fields : list (string * value)) (key : string) (v : value)
  : list (string * value) :=
  match fields with
  | [] => [(key, v)]
  | (k, w) :: rest =>
      if String.eqb k key then (k, v) :: rest
      else (k, w) :: obj_set rest key v
  end.

Definition is_digit (c : ascii) : bool :=
  let n := nat_of_ascii c in (48 <=? n)%nat && (n <=? 57)%nat.

Fixpoint digits_value (acc : nat) (cs : list ascii) : option nat :=
  match cs with
  | [] => Some acc
  | c :: rest =>
      if is_digit c
      then digits_value (10 * acc + (nat_of_ascii c - 48)) rest
      else None
  end.

(** A property key is an array index when it is the canonical decimal
    numeral of a natural number: "0", or digits without a leading zero. *)
Definition parse_index (key : string) : option nat :=
  match list_ascii_of_string key with
  | [] => None
  | [c] => digits_value 0 [c]
  | c :: rest => if Ascii.eqb c "0" then None else digits_value 0 (c :: rest)
  end.

(** [current[part]].  Reading a property of [null] or [undefined] throws a
    TypeError ([None]).  Arrays answer their indices and ["length"].  Own
    properties of boxed primitives are not modelled. *)
Definition prop_read (current : value) (part : string) : option value :=
  match current with
  | VUndef | VNull => None
  | VObj fields => Some (obj_get fields part)
  | VArr items =>
      if String.eqb part "length" then Some (VNum (Z.of_nat (length items)))
      else match parse_index part with
           | Some i => Some (nth i items VUndef)
           | None => Some VUndef
           end
  | _ => Some VUndef
  end.

(* ================================================================= *)
(** ** String helpers used by the template resolver *)

(** [s.startsWith(p)] *)
Definition startsWith (p s : string) : bool := String.prefix p s.

(** [s.endsWith(p)] *)
Definition endsWith (p s : string) : bool :=
  (String.length p <=? String.length s)%nat &&
  String.eqb (substring (String.length s - String.length p) (String.length p) s) p.

(** [s.slice(2, -2)] *)
Definition slice_2_m2 (s : string) : string :=
  substring 2 (String.length s - 4) s.

(** White space removed by [String.prototype.trim] among 8-bit code units:
    TAB, LF, VT, FF, CR, SPACE and NBSP. *)
Definition is_space (c : ascii) : bool :=
  let n := nat_of_ascii c in
  ((9 <=? n)%nat && (n <=? 13)%nat) || (n =? 32)%nat || (n =? 160)%nat.

Fixpoint drop_spaces (cs : list ascii) : list ascii :=
  match cs with
  | c :: rest => if is_space c then drop_spaces rest else cs
  | [] => []
  end.

(** [s.trim()] *)
Definition trim (s : string) : string :=
  string_of_list_ascii
    (rev (drop_spaces (rev (drop_spaces (list_ascii_of_string s))))).

(** [path.split(".")]: always at least one part. *)
Fixpoint split_dot (s : string) : list string :=
  match s with
  | EmptyString => [EmptyString]
  | String c rest =>
      if Ascii.eqb c "."
      then EmptyString :: split_dot rest
      else match split_dot rest with
           | p :: ps => String c p :: ps
           | [] => [String c EmptyString]
           end
  end.

(* ================================================================= *)
(** ** templates.ts *)

(** The loop of [getNestedValue], from the current value over the parts
    still to visit.  [None] would be an exception of the property read. *)
Fixpoint walk (current : value) (parts : list string) : option value :=
  match parts with
  | [] => Some current
  | part :: rest =>
      match current with
      | VUndef | VNull => Some VUndef
      | _ =>
          if String.eqb (typeof current) "object"
          then match prop_read current part with
               | Some next => walk next rest
               | None => None
               end
          else Some VUndef
      end
  end.

Definition getNestedValue (obj : value) (path : string) : option value :=
  walk obj (split_dot path).

Definition is_template (template : string) : bool :=
  startsWith "{{" template && endsWith "}}" template.

Definition resolveTemplate (template : string) (context : value) : option value :=
  if is_template template
  then getNestedValue context (trim (slice_2_m2 template))
  else Some (VStr template).

(** The loop body of [resolveTemplates] for one entry of [input]. *)
Definition resolveEntry (context : value) (value0 : value) : option value :=
  match value0 with
  | VStr s =>
      if is_template s
      then getNestedValue context (trim (slice_2_m2 s))
      else Some value0
  | _ => Some value0
  end.

Fixpoint resolveTemplates_loop (entries : list (string * value)) (context : value)
  (resolved : list (string * value)) : option (list (string * value)) :=
  match entries with
  | [] => Some resolved
  | (key, value0) :: rest =>
      match resolveEntry context value0 with
      | Some v => resolveTemplates_loop rest context (obj_set resolved key v)
      | None => None
      end
  end.

Definition resolveTemplates (input : list (string * value)) (context : value)
  : option (list (string * value)) :=
  resolveTemplates_loop input context [].


(* ================================================================= *)
(** ** Outcomes and sequentialised computations *)

(** The settlement of a promise: fulfilled with a value, or rejected with
    an [Error] carrying a message. *)
Inductive result (A : Type) : Type :=
| Ok (a : A) : result A
| Err (message : string) : result A.
Arguments Ok {A} a.
Arguments Err {A} message.

(** A computation over a state [S]. *)
Definition M (S A : Type) : Type := S -> A * S.

Definition ret {S A : Type} (a : A) : M S A := fun s => (a, s).

Definition bind {S A B : Type} (m : M S A) (k : A -> M S B) : M S B :=
  fun s => let (a, s') := m s in k a s'.

Declare Scope comp_scope.
Delimit Scope comp_scope with comp.
Notation "x <- m ;; k" := (bind m (fun x => k))
  (at level 61, m at next level, right associativity) : comp_scope.
Notation "m ;;; k" := (bind m (fun _ => k))
  (at level 61, right associativity) : comp_scope.

(** A state change without an answer. *)
Definition modify {S : Type} (f : S -> S) : M S unit := fun s => (tt, f s).

(** Reading the state. *)
Definition gets {S A : Type} (f : S -> A) : M S A := fun s => (f s, s).

(** The double-quote character of the error messages. *)
Definition dquote : string := String (ascii_of_nat 34) EmptyString.

Definition string_of_nat (n : nat) : string :=
  NilZero.string_of_uint (Nat.to_uint n).

Definition string_of_Z (z : Z) : string :=
  NilZero.string_of_int (Z.to_int z).

(* ================================================================= *)
(** ** types/task.ts, types/resource.ts *)

Inductive Backoff : Type := Fixed | Exponential.

Record RetryConfig : Type := {
  attempts : option Z;
  backoff : option Backoff;
  delay : option Z;
  maxDelay : option Z
}.

Record ResourceRequirements : Type := {
  gpu : option value;      (* boolean | string *)
  vram : option Z;
  ram : option Z;
  cpu : option Z;
  timeout : option Z       (* seconds *)
}.

Record GpuInfo : Type := {
  gpu_name : string;
  gpu_vram : Z;
  available : bool
}.

Record ResourcePool : Type := {
  gpus : list GpuInfo;
  pool_ram : Z * Z;
  pool_vram : Z * Z
}.

Record Step : Type := {
  s_id : option string;
  s_task : string;
  s_input : option (list (string * value));
  dependsOn : option (list string);
  forEach : option string;
  forEachConcurrency : option nat;
  runWhen : option string;
  s_timeout : option Z;    (* seconds *)
  optional : option bool;
  s_resources : option ResourceRequirements;
  s_retry : option RetryConfig
}.

Record Task : Type := {
  t_type : string;
  t_backend : option string;
  t_payload : list (string * value);
  t_steps : option (list Step);
  t_resources : option ResourceRequirements;
  t_retry : option RetryConfig
}.

(** [a || b] on optional fields whose present values are all truthy
    (objects). *)
Definition or_else {A : Type} (a b : option A) : option A :=
  match a with Some _ => a | None => b end.

(** [a || b] on optional numbers: zero is falsy. *)
Definition or_elseZ (a b : option Z) : option Z :=
  match a with
  | Some n => if Z.eqb n 0 then b else a
  | None => b
  end.

(** A present, non-empty string. *)
Definition nonempty (s : option string) : option string :=
  match s with
  | Some x => if String.eqb x "" then None else Some x
  | None => None
  end.

(* ================================================================= *)
(** ** execution.ts *)

Section Execution.
Context {S : Type}.
(** [sleep(ms)], as the state it leaves. *)
Variable sleep : Z -> S -> S.

(** The [for] loop of [executeWithRetry]; [remaining] counts the
    iterations left, [attempt] is the loop variable. *)
Fixpoint retry_loop (remaining : nat) (attempt n delay0 : Z)
  (bo : option Backoff) (executor : M S (result value))
  (onRetry : option (Z -> Z -> S -> S)) (lastError : option string)
  : M S (result value) :=
  match remaining with
  | O => ret (match lastError with
              | Some e => Err e
              | None => Err "undefined"
              end)
  | Datatypes.S r =>
      (match onRetry with
       | Some f => modify (f attempt n)
       | None => ret tt
       end ;;;
       res <- executor ;;
       match res with
       | Ok v => ret (Ok v)
       | Err e =>
           (if Z.ltb attempt n
            then modify (sleep (match bo with
                                | Some Exponential => delay0 * 2 ^ (attempt - 1)
                                | _ => delay0
                                end))
            else ret tt) ;;;
           retry_loop r (attempt + 1) n delay0 bo executor onRetry (Some e)
       end)%comp
  end.

Definition executeWithRetry (task : Task) (executor : M S (result value))
  (onRetry : option (Z -> Z -> S -> S)) : M S (result value) :=
  match t_retry task with
  | None => executor
  | Some retry =>
      match attempts retry with
      | None => executor
      | Some n =>
          if Z.eqb n 0 || Z.leb n 1 then executor
          else
            let delay0 := match delay retry with
                          | Some d => if Z.eqb d 0 then 1000%Z else d
                          | None => 1000%Z
                          end in
            retry_loop (Z.to_nat n) 1 n delay0 (backoff retry)
              executor onRetry None
      end
  end.

(** [withTimeout(promise, timeoutMs, label)].  The awaited operation runs
    to its settlement (it is not cancelled); [expired timeoutMs s s']
    tells whether the timer fired before it settled. *)
Variable expired : Z -> S -> S -> bool.

Definition withTimeout (promise : M S (result value)) (timeoutMs : Z)
  (label : string) : M S (result value) :=
  fun s =>
    let (r, s') := promise s in
    if expired timeoutMs s s'
    then (Err (dquote ++ label ++ dquote ++ " timed out after "
                 ++ string_of_Z timeoutMs ++ "ms"), s')
    else (r, s').
End Execution.

(* ================================================================= *)
(** ** A [Map<string, A>]: entries in insertion order, keys unique *)

Section StringMap.
Context {A : Type}.

Fixpoint map_get (m : list (string * A)) (key : string) : option A :=
  match m with
  | [] => None
  | (k, a) :: rest => if String.eqb k key then Some a else map_get rest key
  end.

(** [m.set(key, a)]: an existing key keeps its place. *)
Fixpoint map_set (m : list (string * A)) (key : string) (a : A)
  : list (string * A) :=
  match m with
  | [] => [(key, a)]
  | (k, b) :: rest =>
      if String.eqb k key then (k, a) :: rest
      else (k, b) :: map_set rest key a
  end.

Fixpoint map_delete (m : list (string * A)) (key : string)
  : list (string * A) :=
  match m with
  | [] => []
  | (k, b) :: rest =>
      if String.eqb k key then rest else (k, b) :: map_delete rest key
  end.

Definition map_has (m : list (string * A)) (key : string) : bool :=
  match map_get m key with Some _ => true | None => false end.
End StringMap.

(* ================================================================= *)
(** ** types/backend.ts and registry.ts *)

Section Registry.
(** The state of the world outside the engine: the backends' services,
    the clock. *)
Variable W : Type.

Record Backend : Type := {
  name : string;
  execute : Task -> M W (result value);
  isHealthy : M W (result bool);
  getResources : option (M W (result ResourcePool))
}.

(** The module-level [backends] map. *)
Definition Registry : Type := list (string * Backend).

Definition registerBackend (backend : Backend) (backends : Registry) : Registry :=
  map_set backends (name backend) backend.

Definition unregisterBackend (nm : string) (backends : Registry) : bool * Registry :=
  (map_has backends nm, map_delete backends nm).

Definition getBackend (nm : string) (backends : Registry) : option Backend :=
  map_get backends nm.

Definition getAllBackends (backends : Registry) : list Backend :=
  map snd backends.

Definition clearBackends (backends : Registry) : Registry := [].

(** The first loop of the automatic selection: a health check that
    answers [false] or throws leaves the backend out. *)
Fixpoint collectHealthy (bs : list Backend) : M W (list Backend) :=
  match bs with
  | [] => ret []
  | backend :: rest =>
      (h <- isHealthy backend ;;
       hs <- collectHealthy rest ;;
       ret (match h with
            | Ok true => backend :: hs
            | _ => hs
            end))%comp
  end.

(** The loop over the healthy backends when the task needs a GPU. *)
Fixpoint firstWithGpu (hs : list Backend) : M W (result (option Backend)) :=
  match hs with
  | [] => ret (Ok None)
  | backend :: rest =>
      match getResources backend with
      | Some getRes =>
          (r <- getRes ;;
           match r with
           | Err e => ret (Err e)
           | Ok resources =>
               if existsb available (gpus resources)
               then ret (Ok (Some backend))
               else firstWithGpu rest
           end)%comp
      | None => firstWithGpu rest
      end
  end.

Definition wantsGpu (task : Task) : bool :=
  match t_resources task with
  | Some r => match gpu r with Some g => truthy g | None => false end
  | None => false
  end.

(** The automatic branch of [selectBackend]. *)
Definition selectAuto (backends : Registry) (task : Task)
  : M W (result Backend) :=
  (healthyBackends <- collectHealthy (map snd backends) ;;
   match healthyBackends with
   | [] => ret (Err "No healthy backend available")
   | first :: _ =>
       if wantsGpu task then
         (g <- firstWithGpu healthyBackends ;;
          match g with
          | Err e => ret (Err e)
          | Ok (Some backend) => ret (Ok backend)
          | Ok None => ret (Ok first)
          end)
       else ret (Ok first)
   end)%comp.

Definition selectBackend (backends : Registry) (task : Task)
  : M W (result Backend) :=
  match nonempty (t_backend task) with
  | Some nm =>
      if String.eqb nm "auto" then
        selectAuto backends task
      else
        match map_get backends nm with
        | None =>
            ret (Err ("Backend " ++ dquote ++ nm ++ dquote ++ " not registered"))
        | Some backend =>
            (h <- isHealthy backend ;;
             match h with
             | Err e => ret (Err e)
             | Ok false =>
                 ret (Err ("Backend " ++ dquote ++ nm ++ dquote ++ " is not healthy"))
             | Ok true => ret (Ok backend)
             end)%comp
        end
  | None => selectAuto backends task
  end.
End Registry.

(* ================================================================= *)
(** ** dispatcher.ts: the observable records *)

Inductive Status : Type := Pending | Running | Completed | Failed | Skipped.

Record StepStatus : Type := {
  st_id : string;
  st_task : string;
  status : Status;
  startedAt : option Z;
  completedAt : option Z;
  duration : option Z;
  error : option string;
  st_result : option value;
  retryAttempt : option Z
}.

Definition newStatus (id task : string) (started : option Z) : StepStatus :=
  {| st_id := id; st_task := task; status := Pending; startedAt := started;
     completedAt := None; duration := None; error := None;
     st_result := None; retryAttempt := None |}.

Definition set_status (x : Status) (s : StepStatus) : StepStatus :=
  {| st_id := st_id s; st_task := st_task s; status := x;
     startedAt := startedAt s; completedAt := completedAt s;
     duration := duration s; error := error s; st_result := st_result s;
     retryAttempt := retryAttempt s |}.

Definition set_startedAt (t : Z) (s : StepStatus) : StepStatus :=
  {| st_id := st_id s; st_task := st_task s; status := status s;
     startedAt := Some t; completedAt := completedAt s;
     duration := duration s; error := error s; st_result := st_result s;
     retryAttempt := retryAttempt s |}.

Definition set_completedAt (t : Z) (s : StepStatus) : StepStatus :=
  {| st_id := st_id s; st_task := st_task s; status := status s;
     startedAt := startedAt s; completedAt := Some t;
     duration := duration s; error := error s; st_result := st_result s;
     retryAttempt := retryAttempt s |}.

Definition set_duration (d : option Z) (s : StepStatus) : StepStatus :=
  {| st_id := st_id s; st_task := st_task s; status := status s;
     startedAt := startedAt s; completedAt := completedAt s;
     duration := d; error := error s; st_result := st_result s;
     retryAttempt := retryAttempt s |}.

Definition set_error (e : string) (s : StepStatus) : StepStatus :=
  {| st_id := st_id s; st_task := st_task s; status := status s;
     startedAt := startedAt s; completedAt := completedAt s;
     duration := duration s; error := Some e; st_result := st_result s;
     retryAttempt := retryAttempt s |}.

Definition set_result (v : value) (s : StepStatus) : StepStatus :=
  {| st_id := st_id s; st_task := st_task s; status := status s;
     startedAt := startedAt s; completedAt := completedAt s;
     duration := duration s; error := error s; st_result := Some v;
     retryAttempt := retryAttempt s |}.

Definition set_retryAttempt (a : Z) (s : StepStatus) : StepStatus :=
  {| st_id := st_id s; st_task := st_task s; status := status s;
     startedAt := startedAt s; completedAt := completedAt s;
     duration := duration s; error := error s; st_result := st_result s;
     retryAttempt := Some a |}.

(** [status.completedAt = new Date();
     status.duration = status.completedAt.getTime() - status.startedAt!.getTime()]
    A missing [startedAt] would throw; the field is then left unset. *)
Definition stamp_completion (t : Z) (s : StepStatus) : StepStatus :=
  set_duration (match startedAt s with
                | Some t0 => Some (t - t0)%Z
                | None => None
                end)
    (set_completedAt t s).

Inductive PipelineEventType : Type :=
  StepStart | StepComplete | StepError | PipelineComplete.

Record PipelineEvent : Type := {
  ev_type : PipelineEventType;
  stepId : option string;
  stepTask : option string;
  timestamp : Z;
  data : value
}.

Record PipelineResult : Type := {
  steps : list value;
  stepResults : list (string * value);
  stepStatus : list StepStatus;
  finalResult : value;
  totalDuration : Z;
  parallelGroups : list (list string)
}.

(** [Math.round((k / n) * 100)] for natural [k] and positive [n], in exact
    arithmetic: halves round up. *)
Definition round_pct (k n : nat) : Z :=
  ((200 * Z.of_nat k + Z.of_nat n) / (2 * Z.of_nat n))%Z.

(** The skip markers. *)
Definition skip_on_demand : value :=
  VObj [("skipped", VBool true); ("reason", VStr "on-demand")].

Definition skip_condition (cond : string) : value :=
  VObj [("skipped", VBool true); ("reason", VStr "condition-false");
        ("condition", VStr cond)].

Definition skip_error (msg : string) : value :=
  VObj [("error", VStr msg); ("skipped", VBool true)].

(** Templates never throw ([walk_total] below), so the
    exceptional outcome of a resolution has no continuation in the engine;
    [must] names the value. *)
Definition must (o : option value) : value :=
  match o with Some v => v | None => VUndef end.

Definition must_obj (o : option (list (string * value))) : list (string * value) :=
  match o with Some v => v | None => [] end.

(** [step.runWhen && step.runWhen !== "always"] *)
Definition conditional (step : Step) : option string :=
  match nonempty (runWhen step) with
  | Some c => if String.eqb c "always" then None else Some c
  | None => None
  end.

(** [step.timeout || task.resources?.timeout], when truthy. *)
Definition timeoutSeconds (task : Task) (step : Step) : option Z :=
  match or_elseZ (s_timeout step)
          (match t_resources task with Some r => timeout r | None => None end) with
  | Some t => if Z.eqb t 0 then None else Some t
  | None => None
  end.

(** The sub-task built for a step (or for one item of a step). *)
Definition stepTaskOf (task : Task) (step : Step)
  (resolvedInput : list (string * value)) : Task :=
  {| t_type := s_task step;
     t_backend := t_backend task;
     t_payload := resolvedInput;
     t_steps := None;
     t_resources := or_else (s_resources step) (t_resources task);
     t_retry := or_else (s_retry step) (t_retry task) |}.

Definition is_true (o : option bool) : bool :=
  match o with Some b => b | None => false end.

(* ================================================================= *)
(** ** The engine over a world *)

Section Engine.
Variable W : Type.
(** The registry the engine selects from. *)
Variable backends : Registry W.
(** [Date.now()] / [new Date().getTime()] *)
Variable now : W -> Z.
(** [sleep(ms)] *)
Variable sleepW : Z -> W -> W.
(** Whether a timer of the given milliseconds, armed in the first world,
    has fired when the second is reached. *)
Variable expiredW : Z -> W -> W -> bool.

Section Shared.
(** The bookkeeping of a runner. *)
Context {St : Type}.

Definition liftW {A : Type} (m : M W A) : M (St * W) A :=
  fun s => let (a, w') := m (snd s) in (a, (fst s, w')).

Definition upd (f : St -> St) : M (St * W) unit :=
  fun s => (tt, (f (fst s), snd s)).

Definition look {A : Type} (f : St -> A) : M (St * W) A :=
  fun s => (f (fst s), s).

Definition getNow : M (St * W) Z := fun s => (now (snd s), s).

Definition sleepS (ms : Z) (s : St * W) : St * W :=
  (fst s, sleepW ms (snd s)).

Definition expiredS (ms : Z) (s s' : St * W) : bool :=
  expiredW ms (snd s) (snd s').

(** [status.retryAttempt = attempt] *)
Variable noteAttempt : Z -> St -> St.

(** [executeBackend] / [executeItem]: select a backend, then run the
    sub-task on it under the retry policy. *)
Definition executeBackend (stepTask : Task) : M (St * W) (result value) :=
  (b <- liftW (selectBackend W backends stepTask) ;;
   match b with
   | Err e => ret (Err e)
   | Ok backend =>
       executeWithRetry sleepS stepTask (liftW (execute W backend stepTask))
         (Some (fun attempt _ s => (noteAttempt attempt (fst s), snd s)))
   end)%comp.

(** [timeoutSeconds ? withTimeout(executeBackend(), timeoutSeconds * 1000, label)
                    : executeBackend()] *)
Definition runStepTask (task : Task) (step : Step) (stepTask : Task)
  (label : string) : M (St * W) (result value) :=
  match timeoutSeconds task step with
  | Some t => withTimeout expiredS (executeBackend stepTask) (t * 1000) label
  | None => executeBackend stepTask
  end.
End Shared.

(* --------------------------------------------------------------- *)
(** *** sequential.ts *)

Record SeqState : Type := {
  q_stepResults : list value;
  q_stepStatuses : list StepStatus;
  q_events : list PipelineEvent;
  q_progress : list Z
}.

Definition q_init : SeqState :=
  {| q_stepResults := []; q_stepStatuses := []; q_events := []; q_progress := [] |}.

Definition q_push_result (v : value) (q : SeqState) : SeqState :=
  {| q_stepResults := q_stepResults q ++ [v];
     q_stepStatuses := q_stepStatuses q;
     q_events := q_events q; q_progress := q_progress q |}.

Definition q_push_status (s : StepStatus) (q : SeqState) : SeqState :=
  {| q_stepResults := q_stepResults q;
     q_stepStatuses := q_stepStatuses q ++ [s];
     q_events := q_events q; q_progress := q_progress q |}.

Definition q_update_status (id : string) (f : StepStatus -> StepStatus)
  (q : SeqState) : SeqState :=
  {| q_stepResults := q_stepResults q;
     q_stepStatuses :=
       map (fun s => if String.eqb (st_id s) id then f s else s) (q_stepStatuses q);
     q_events := q_events q; q_progress := q_progress q |}.

Definition q_push_event (e : PipelineEvent) (q : SeqState) : SeqState :=
  {| q_stepResults := q_stepResults q;
     q_stepStatuses := q_stepStatuses q;
     q_events := q_events q ++ [e]; q_progress := q_progress q |}.

Definition q_push_progress (p : Z) (q : SeqState) : SeqState :=
  {| q_stepResults := q_stepResults q;
     q_stepStatuses := q_stepStatuses q;
     q_events := q_events q; q_progress := q_progress q ++ [p] |}.

(** [{ payload: task.payload, steps: stepResults }] *)
Definition q_context (task : Task) (q : SeqState) : value :=
  VObj [("payload", VObj (t_payload task)); ("steps", VArr (q_stepResults q))].

Definition q_emit (type : PipelineEventType) (id : option string)
  (stepTask0 : option string) (d : value) : M (SeqState * W) unit :=
  (t <- getNow ;;
   upd (q_push_event {| ev_type := type; stepId := id; stepTask := stepTask0;
                        timestamp := t; data := d |}))%comp.

(** The two skipping branches of the [runWhen] check. *)
Definition q_skip (stepId : string) (step : Step) (marker evdata : value)
  : M (SeqState * W) (result unit) :=
  (t <- getNow ;;
   upd (q_update_status stepId
          (fun s => set_duration (Some 0%Z) (set_completedAt t (set_status Skipped s)))) ;;;
   upd (q_push_result marker) ;;;
   q_emit StepComplete (Some stepId) (Some (s_task step)) evdata ;;;
   ret (Ok tt))%comp.

(** The end of the [try] block and the [catch] block, from the outcome
    [r] of the awaited execution. *)
Definition q_settle (stepId : string) (step : Step) (r : result value)
  : M (SeqState * W) (result unit) :=
  (match r with
   | Ok res =>
       upd (q_push_result res) ;;;
       t <- getNow ;;
       upd (q_update_status stepId
              (fun s => set_result res (stamp_completion t (set_status Completed s)))) ;;;
       q_emit StepComplete (Some stepId) (Some (s_task step)) res ;;;
       ret (Ok tt)
   | Err errorMsg =>
       if is_true (optional step) then
         upd (q_push_result (skip_error errorMsg)) ;;;
         t <- getNow ;;
         upd (q_update_status stepId
                (fun s => set_error errorMsg (stamp_completion t (set_status Skipped s)))) ;;;
         q_emit StepError (Some stepId) (Some (s_task step))
           (VObj [("error", VStr errorMsg); ("optional", VBool true)]) ;;;
         ret (Ok tt)
       else
         t <- getNow ;;
         upd (q_update_status stepId
                (fun s => set_error errorMsg (stamp_completion t (set_status Failed s)))) ;;;
         q_emit StepError (Some stepId) (Some (s_task step))
           (VObj [("error", VStr errorMsg)]) ;;;
         ret (Err errorMsg)
   end)%comp.

(** The sub-task of a step of the sequential runner. *)
Definition q_stepTask (task : Task) (step : Step) (q : SeqState) : Task :=
  stepTaskOf task step
    (must_obj (resolveTemplates (match s_input step with Some i => i | None => [] end)
                 (q_context task q))).

(** From [status.status = "running"] to the end of the [try]/[catch]. *)
Definition q_exec (task : Task) (stepId : string) (step : Step)
  : M (SeqState * W) (result unit) :=
  (upd (q_update_status stepId (set_status Running)) ;;;
   q_emit StepStart (Some stepId) (Some (s_task step)) VUndef ;;;
   stepTask0 <- look (q_stepTask task step) ;;
   r <- runStepTask (fun a => q_update_status stepId (set_retryAttempt a))
          task step stepTask0 stepId ;;
   q_settle stepId step r)%comp.

(** One iteration of the [for] loop: [Err] when it throws. *)
Definition q_iteration (task : Task) (n : nat) (step : Step) (i : nat)
  : M (SeqState * W) (result unit) :=
  let stepId := "step_" ++ string_of_nat i in
  (upd (q_push_progress (round_pct i n)) ;;;
   t0 <- getNow ;;
   upd (q_push_status (newStatus stepId (s_task step) (Some t0))) ;;;
   match conditional step with
   | Some c =>
       if String.eqb c "on-demand" then
         q_skip stepId step skip_on_demand (VObj [("skipped", VBool true)])
       else
         context <- look (q_context task) ;;
         if truthy (must (resolveTemplate c context))
         then q_exec task stepId step
         else q_skip stepId step (skip_condition c)
                (VObj [("skipped", VBool true); ("condition", VStr c)])
   | None => q_exec task stepId step
   end)%comp.

Fixpoint q_loop (task : Task) (n : nat) (rest : list Step) (i : nat)
  : M (SeqState * W) (result unit) :=
  match rest with
  | [] => ret (Ok tt)
  | step :: rest' =>
      (r <- q_iteration task n step i ;;
       match r with
       | Ok _ => q_loop task n rest' (Datatypes.S i)
       | Err e => ret (Err e)
       end)%comp
  end.

(** [stepResults.forEach((result, i) => record["step_" + i] = result)] *)
Fixpoint indexed_record (rs : list value) (i : nat)
  (acc : list (string * value)) : list (string * value) :=
  match rs with
  | [] => acc
  | r :: rest =>
      indexed_record rest (Datatypes.S i) (obj_set acc ("step_" ++ string_of_nat i) r)
  end.

Definition processPipelineSequential (task : Task)
  : M (SeqState * W) (result PipelineResult) :=
  let steps0 := match t_steps task with Some l => l | None => [] end in
  (pipelineStart <- getNow ;;
   r <- q_loop task (length steps0) steps0 0 ;;
   match r with
   | Err e => ret (Err e)
   | Ok _ =>
       t <- getNow ;;
       let total := (t - pipelineStart)%Z in
       q_emit PipelineComplete None None
         (VObj [("totalDuration", VNum total);
                ("stepCount", VNum (Z.of_nat (length steps0)))]) ;;;
       q <- look (fun q => q) ;;
       ret (Ok {| steps := q_stepResults q;
                  stepResults := indexed_record (q_stepResults q) 0 [];
                  stepStatus := q_stepStatuses q;
                  finalResult := last (q_stepResults q) VUndef;
                  totalDuration := total;
                  parallelGroups := [] |})
   end)%comp.

(* --------------------------------------------------------------- *)
(** *** dispatcher.ts: the DAG runner *)

(** A [Set<string>] in insertion order. *)
Definition set_has (l : list string) (x : string) : bool :=
  existsb (String.eqb x) l.

Definition set_add (l : list string) (x : string) : list string :=
  if set_has l x then l else l ++ [x].

Definition set_delete (l : list string) (x : string) : list string :=
  filter (fun y => negb (String.eqb x y)) l.

(** [step.id || `step_${index}`] *)
Definition stepIdOf (step : Step) (index : nat) : string :=
  match nonempty (s_id step) with
  | Some id => id
  | None => "step_" ++ string_of_nat index
  end.

(** [steps.forEach((step, index) => stepMap.set(id, step))] *)
Fixpoint buildStepMap (steps0 : list Step) (index : nat)
  (stepMap : list (string * Step)) : list (string * Step) :=
  match steps0 with
  | [] => stepMap
  | step :: rest =>
      buildStepMap rest (Datatypes.S index) (map_set stepMap (stepIdOf step index) step)
  end.

(** [stepIndexToId], as the list of ids by declared index. *)
Fixpoint buildIndexToId (steps0 : list Step) (index : nat) : list string :=
  match steps0 with
  | [] => []
  | step :: rest => stepIdOf step index :: buildIndexToId rest (Datatypes.S index)
  end.

Record DagState : Type := {
  results : list (string * value);
  completed : list string;
  failed : list string;
  running : list string;
  stepStatuses : list (string * StepStatus);
  groups : list (list string);
  d_events : list PipelineEvent;
  d_progress : list Z
}.

Definition d_init (stepMap : list (string * Step)) : DagState :=
  {| results := []; completed := []; failed := []; running := [];
     stepStatuses :=
       map (fun e => (fst e, newStatus (fst e) (s_task (snd e)) None)) stepMap;
     groups := []; d_events := []; d_progress := [] |}.

Definition d_set_result (id : string) (v : value) (d : DagState) : DagState :=
  {| results := obj_set (results d) id v; completed := completed d;
     failed := failed d; running := running d;
     stepStatuses := stepStatuses d; groups := groups d;
     d_events := d_events d; d_progress := d_progress d |}.

Definition d_completed_add (id : string) (d : DagState) : DagState :=
  {| results := results d; completed := set_add (completed d) id;
     failed := failed d; running := running d;
     stepStatuses := stepStatuses d; groups := groups d;
     d_events := d_events d; d_progress := d_progress d |}.

Definition d_failed_add (id : string) (d : DagState) : DagState :=
  {| results := results d; completed := completed d;
     failed := set_add (failed d) id; running := running d;
     stepStatuses := stepStatuses d; groups := groups d;
     d_events := d_events d; d_progress := d_progress d |}.

Definition d_running_add (id : string) (d : DagState) : DagState :=
  {| results := results d; completed := completed d;
     failed := failed d; running := set_add (running d) id;
     stepStatuses := stepStatuses d; groups := groups d;
     d_events := d_events d; d_progress := d_progress d |}.

Definition d_running_delete (id : string) (d : DagState) : DagState :=
  {| results := results d; completed := completed d;
     failed := failed d; running := set_delete (running d) id;
     stepStatuses := stepStatuses d; groups := groups d;
     d_events := d_events d; d_progress := d_progress d |}.

(** A mutation of the status object held under [id] in [stepStatuses]. *)
Definition d_update_status (id : string) (f : StepStatus -> StepStatus)
  (d : DagState) : DagState :=
  {| results := results d; completed := completed d;
     failed := failed d; running := running d;
     stepStatuses :=
       map (fun e => if String.eqb (fst e) id then (fst e, f (snd e)) else e)
         (stepStatuses d);
     groups := groups d;
     d_events := d_events d; d_progress := d_progress d |}.

Definition d_push_group (g : list string) (d : DagState) : DagState :=
  {| results := results d; completed := completed d;
     failed := failed d; running := running d;
     stepStatuses := stepStatuses d; groups := groups d ++ [g];
     d_events := d_events d; d_progress := d_progress d |}.

Definition d_push_event (e : PipelineEvent) (d : DagState) : DagState :=
  {| results := results d; completed := completed d;
     failed := failed d; running := running d;
     stepStatuses := stepStatuses d; groups := groups d;
     d_events := d_events d ++ [e]; d_progress := d_progress d |}.

Definition d_push_progress (p : Z) (d : DagState) : DagState :=
  {| results := results d; completed := completed d;
     failed := failed d; running := running d;
     stepStatuses := stepStatuses d; groups := groups d;
     d_events := d_events d; d_progress := d_progress d ++ [p] |}.

(** [{ payload: task.payload, steps: results }] *)
Definition d_context (task : Task) (d : DagState) : value :=
  VObj [("payload", VObj (t_payload task)); ("steps", VObj (results d))].

(** [{ ...context, item, index }] *)
Definition d_itemContext (task : Task) (d : DagState) (item : value) (index : nat)
  : value :=
  VObj [("payload", VObj (t_payload task)); ("steps", VObj (results d));
        ("item", item); ("index", VNum (Z.of_nat index))].

Section Dag.
Variable task : Task.
Variable stepMap : list (string * Step).

Definition d_emit (type : PipelineEventType) (id : option string) (d : value)
  : M (DagState * W) unit :=
  (t <- getNow ;;
   upd (d_push_event
          {| ev_type := type; stepId := id;
             stepTask := match nonempty id with
                         | Some i => option_map s_task (map_get stepMap i)
                         | None => None
                         end;
             timestamp := t; data := d |}))%comp.

Definition canRun (d : DagState) (step : Step) (stepId0 : string) : bool :=
  if set_has (running d) stepId0 || set_has (completed d) stepId0
     || set_has (failed d) stepId0
  then false
  else forallb (fun depId => set_has (completed d) depId)
         (match dependsOn step with Some deps => deps | None => [] end).

Definition getRunnableSteps (d : DagState) : list (string * Step) :=
  filter (fun e => canRun d (snd e) (fst e)) stepMap.

(** What a dispatched step has left to do when the synchronous prefix
    of [executeStep] ends: nothing, one sub-task, or the items of a
    [forEach] with the sub-tasks of the first batch. *)
Inductive begun : Type :=
| Finished (out : result value)
| Single (stepTask : Task)
| Each (items : list value) (concurrency : nat) (first : list (nat * Task)).

(** The two skipping branches of the [runWhen] check. *)
Definition d_skip (stepId0 : string) (marker evdata : value)
  : M (DagState * W) begun :=
  (upd (d_update_status stepId0 (set_status Skipped)) ;;;
   upd (d_running_delete stepId0) ;;;
   upd (d_completed_add stepId0) ;;;
   upd (d_set_result stepId0 marker) ;;;
   d_emit StepComplete (Some stepId0) evdata ;;;
   ret (Finished (Ok marker)))%comp.

(** The success path of [executeStep]. *)
Definition settle_ok (stepId0 : string) (v evdata : value)
  : M (DagState * W) (result value) :=
  (upd (d_running_delete stepId0) ;;;
   upd (d_completed_add stepId0) ;;;
   upd (d_set_result stepId0 v) ;;;
   t <- getNow ;;
   upd (d_update_status stepId0
          (fun s => set_result v (stamp_completion t (set_status Completed s)))) ;;;
   d_emit StepComplete (Some stepId0) evdata ;;;
   ret (Ok v))%comp.

(** The [catch] block of [executeStep]. *)
Definition settle_err (stepId0 : string) (step : Step) (errorMsg : string)
  : M (DagState * W) (result value) :=
  (upd (d_running_delete stepId0) ;;;
   if is_true (optional step) then
     upd (d_completed_add stepId0) ;;;
     upd (d_set_result stepId0 (skip_error errorMsg)) ;;;
     t <- getNow ;;
     upd (d_update_status stepId0
            (fun s => set_error errorMsg (stamp_completion t (set_status Skipped s)))) ;;;
     d_emit StepError (Some stepId0)
       (VObj [("error", VStr errorMsg); ("optional", VBool true)]) ;;;
     ret (Ok (skip_error errorMsg))
   else
     upd (d_failed_add stepId0) ;;;
     t <- getNow ;;
     upd (d_update_status stepId0
            (fun s => set_error errorMsg (stamp_completion t (set_status Failed s)))) ;;;
     d_emit StepError (Some stepId0) (VObj [("error", VStr errorMsg)]) ;;;
     ret (Err errorMsg))%comp.

Definition inputOf (step : Step) : list (string * value) :=
  match s_input step with Some i => i | None => [] end.

(** The sub-tasks of a batch: [index = i + batchIndex], inputs resolved
    against the item context. *)
Fixpoint itemTasks (step : Step) (d : DagState) (index : nat)
  (batch : list value) : list (nat * Task) :=
  match batch with
  | [] => []
  | item :: rest =>
      (index,
       stepTaskOf task step
         (must_obj (resolveTemplates (inputOf step) (d_itemContext task d item index))))
      :: itemTasks step d (Datatypes.S index) rest
  end.

Definition itemLabel (stepId0 : string) (index : nat) : string :=
  stepId0 ++ "[" ++ string_of_nat index ++ "]".

(** The items of one batch, each run to its settlement. *)
Fixpoint run_items (stepId0 : string) (step : Step) (tasks : list (nat * Task))
  : M (DagState * W) (list (result value)) :=
  match tasks with
  | [] => ret []
  | (index, stepTask0) :: rest =>
      (r <- runStepTask (fun a => d_update_status stepId0 (set_retryAttempt a))
             task step stepTask0 (itemLabel stepId0 index) ;;
       rs <- run_items stepId0 step rest ;;
       ret (r :: rs))%comp
  end.

(** [Promise.all]: the values in order, or the first rejection. *)
Fixpoint all_fulfilled (rs : list (result value)) : result (list value) :=
  match rs with
  | [] => Ok []
  | Err e :: _ => Err e
  | Ok v :: rest =>
      match all_fulfilled rest with
      | Ok vs => Ok (v :: vs)
      | Err e => Err e
      end
  end.

(** [step.forEachConcurrency || items.length] *)
Definition concurrencyOf (step : Step) (items : list value) : nat :=
  match forEachConcurrency step with
  | Some c => if Nat.eqb c 0 then length items else c
  | None => length items
  end.

(** The batch loop from its second iteration on: [i] is the loop
    variable, [fuel] bounds the iterations. *)
Fixpoint forEach_rest (fuel : nat) (stepId0 : string) (step : Step)
  (items : list value) (concurrency i : nat) (itemResults : list value)
  : M (DagState * W) (result (list value)) :=
  if Nat.ltb i (length items) then
    match fuel with
    | O => ret (Ok itemResults)
    | Datatypes.S f =>
        (d <- look (fun d => d) ;;
         rs <- run_items stepId0 step
                 (itemTasks step d i (firstn concurrency (skipn i items))) ;;
         match all_fulfilled rs with
         | Err e => ret (Err e)
         | Ok vs =>
             forEach_rest f stepId0 step items concurrency (i + concurrency)
               (itemResults ++ vs)
         end)%comp
    end
  else ret (Ok itemResults).

(** [status.status = "running"; status.startedAt = new Date();
     emit("step:start", stepId)] *)
Definition markRunning (stepId0 : string) : M (DagState * W) unit :=
  (t <- getNow ;;
   upd (d_update_status stepId0 (fun s => set_startedAt t (set_status Running s))) ;;;
   d_emit StepStart (Some stepId0) VUndef)%comp.

(** The [try] block up to the first suspension. *)
Definition beginWork (stepId0 : string) (step : Step) : M (DagState * W) begun :=
  (d <- look (fun d => d) ;;
   match nonempty (forEach step) with
   | Some fe =>
       match must (resolveTemplate fe (d_context task d)) with
       | VArr [] =>
           r <- settle_ok stepId0 (VArr []) (VObj [("itemCount", VNum 0)]) ;;
           ret (Finished r)
       | VArr items =>
           let concurrency := concurrencyOf step items in
           ret (Each items concurrency
                  (itemTasks step d 0 (firstn concurrency items)))
       | other =>
           r <- settle_err stepId0 step
                  ("forEach template " ++ dquote ++ fe ++ dquote
                     ++ " did not resolve to array, got: " ++ typeof other) ;;
           ret (Finished r)
       end
   | None =>
       ret (Single (stepTaskOf task step
                      (must_obj (resolveTemplates (inputOf step) (d_context task d)))))
   end)%comp.

(** From [status.status = "running"] to the first suspension. *)
Definition beginRun (stepId0 : string) (step : Step) : M (DagState * W) begun :=
  (markRunning stepId0 ;;; beginWork stepId0 step)%comp.

(** The synchronous prefix of [executeStep]. *)
Definition beginStep (stepId0 : string) (step : Step) : M (DagState * W) begun :=
  (upd (d_running_add stepId0) ;;;
   match conditional step with
   | Some c =>
       if String.eqb c "on-demand" then
         d_skip stepId0 skip_on_demand (VObj [("skipped", VBool true)])
       else
         d <- look (fun d => d) ;;
         if truthy (must (resolveTemplate c (d_context task d)))
         then beginRun stepId0 step
         else d_skip stepId0 (skip_condition c)
                (VObj [("skipped", VBool true); ("condition", VStr c)])
   | None => beginRun stepId0 step
   end)%comp.

(** The rest of the [try] block after the first suspension: the
    awaited execution, with the step's result when it succeeds. *)
Definition attemptStep (stepId0 : string) (step : Step) (b : begun)
  : M (DagState * W) (result value) :=
  match b with
  | Finished out => ret out
  | Single stepTask0 =>
      runStepTask (fun a => d_update_status stepId0 (set_retryAttempt a))
        task step stepTask0 stepId0
  | Each items concurrency first =>
      (rs <- run_items stepId0 step first ;;
       match all_fulfilled rs with
       | Err e => ret (Err e)
       | Ok vs =>
           r <- forEach_rest (length items) stepId0 step items concurrency
                  concurrency vs ;;
           ret (match r with
                | Ok itemResults => Ok (VArr itemResults)
                | Err e => Err e
                end)
       end)%comp
  end.

(** The data of the [step:complete] event: the result, or the item count
    of a [forEach]. *)
Definition completionData (b : begun) (v : value) : value :=
  match b, v with
  | Each _ _ _, VArr itemResults =>
      VObj [("itemCount", VNum (Z.of_nat (length itemResults)))]
  | _, _ => v
  end.

(** The rest of [executeStep], after the first suspension. *)
Definition finishStep (stepId0 : string) (step : Step) (b : begun)
  : M (DagState * W) (result value) :=
  match b with
  | Finished out => ret out
  | _ =>
      (r <- attemptStep stepId0 step b ;;
       match r with
       | Ok v => settle_ok stepId0 v (completionData b v)
       | Err e => settle_err stepId0 step e
       end)%comp
  end.

(** [runnable.map(({id, step}) => executeStep(id, step))]: every
    dispatched step runs its synchronous prefix, in map order. *)
Fixpoint beginAll (runnable : list (string * Step))
  : M (DagState * W) (list (string * Step * begun)) :=
  match runnable with
  | [] => ret []
  | (id, step) :: rest =>
      (b <- beginStep id step ;;
       bs <- beginAll rest ;;
       ret ((id, step, b) :: bs))%comp
  end.

(** [await Promise.all(executions)]: every dispatched step runs to its
    outcome. *)
Fixpoint finishAll (bs : list (string * Step * begun))
  : M (DagState * W) (list (result value)) :=
  match bs with
  | [] => ret []
  | (id, step, b) :: rest =>
      (o <- finishStep id step b ;;
       os <- finishAll rest ;;
       ret (o :: os))%comp
  end.

(** The first outcome that carries an error. *)
Fixpoint firstError (outcomes : list (result value)) : option string :=
  match outcomes with
  | [] => None
  | Err e :: _ => Some e
  | Ok _ :: rest => firstError rest
  end.

(** One scheduling tick over a non-empty runnable set: record the
    group, dispatch every step, await them all, and look for the first
    failure. *)
Definition dag_tick (runnable : list (string * Step))
  : M (DagState * W) (option string) :=
  ((if Nat.ltb 1 (length runnable)
    then upd (d_push_group (map fst runnable))
    else ret tt) ;;;
   bs <- beginAll runnable ;;
   outcomes <- finishAll bs ;;
   ret (firstError outcomes))%comp.

Variable steps0 : list Step.
Variable stepIndexToId : list string.

(** The task types of the steps that are neither completed nor failed. *)
Definition remainingTasks (d : DagState) : list string :=
  map (fun e => s_task (fst e))
    (filter (fun e => negb (set_has (completed d) (snd e))
                      && negb (set_has (failed d) (snd e)))
       (combine steps0 stepIndexToId)).

Definition deadlockMessage (d : DagState) : string :=
  "Pipeline deadlock: cannot run remaining steps ["
    ++ String.concat ", " (remainingTasks d) ++ "]. "
    ++ "Check for circular dependencies or missing dependency IDs.".

(** The main execution loop; [None] when [fuel] iterations did not
    reach its end. *)
Fixpoint dag_loop (fuel : nat) : M (DagState * W) (option (result unit)) :=
  match fuel with
  | O => ret None
  | Datatypes.S f =>
      (d <- look (fun d => d) ;;
       if Nat.ltb (length (completed d) + length (failed d)) (length steps0) then
         match getRunnableSteps d with
         | [] =>
             match running d with
             | [] => ret (Some (Err (deadlockMessage d)))
             | _ => liftW (modify (sleepW 10)) ;;; dag_loop f
             end
         | runnable =>
             err <- dag_tick runnable ;;
             match err with
             | Some e => ret (Some (Err e))
             | None =>
                 d' <- look (fun d => d) ;;
                 upd (d_push_progress
                        (round_pct (length (completed d')) (length steps0))) ;;;
                 dag_loop f
             end
         end
       else ret (Some (Ok tt)))%comp
  end.
End Dag.

(** [processPipelineDAG], with the bound on loop iterations explicit. *)
Definition dag_run (fuel : nat) (task : Task)
  : M (DagState * W) (option (result PipelineResult)) :=
  let steps0 := match t_steps task with Some l => l | None => [] end in
  let stepMap := buildStepMap steps0 0 [] in
  let stepIndexToId := buildIndexToId steps0 0 in
  (pipelineStart <- getNow ;;
   upd (fun _ => d_init stepMap) ;;;
   r <- dag_loop task stepMap steps0 stepIndexToId fuel ;;
   match r with
   | None => ret None
   | Some (Err e) => ret (Some (Err e))
   | Some (Ok _) =>
       d <- look (fun d => d) ;;
       let orderedResults := map (obj_get (results d)) stepIndexToId in
       t <- getNow ;;
       let total := (t - pipelineStart)%Z in
       d_emit stepMap PipelineComplete None
         (VObj [("totalDuration", VNum total);
                ("stepCount", VNum (Z.of_nat (length steps0)))]) ;;;
       ret (Some (Ok {| steps := orderedResults;
                        stepResults := results d;
                        stepStatus := map snd (stepStatuses d);
                        finalResult := last orderedResults VUndef;
                        totalDuration := total;
                        parallelGroups := groups d |}))
   end)%comp.

(** Each productive iteration settles at least one more step, so one
    iteration more than there are steps reaches the end of the loop
    ([dag_run_enough_fuel]). *)
Definition processPipelineDAG (task : Task)
  : M (DagState * W) (option (result PipelineResult)) :=
  dag_run (Datatypes.S (length (match t_steps task with Some l => l | None => [] end)))
    task.

(** What [processTask] answers. *)
Inductive TaskOutcome : Type :=
| Pipeline (r : PipelineResult)
| Plain (v : value).

(** What the caller's callbacks have received. *)
Record Observed : Type := {
  progressSeen : list Z;
  eventsSeen : list PipelineEvent;
  statusesLeft : list StepStatus
}.

(** [s.dependsOn?.length || s.id] *)
Definition declaresGraph (s : Step) : bool :=
  match dependsOn s with
  | Some (_ :: _) => true
  | _ => match nonempty (s_id s) with Some _ => true | None => false end
  end.

(** [processTask(task, onProgress, onEvent)] without a chunk
    configuration.  [None]: the run did not end. *)
Definition processTask (task : Task) (w : W)
  : option (result TaskOutcome) * Observed * W :=
  match t_steps task with
  | Some (s :: rest) =>
      if existsb declaresGraph (s :: rest) then
        let '(r, (d, w')) := processPipelineDAG task (d_init [], w) in
        (match r with
         | None => None
         | Some (Ok p) => Some (Ok (Pipeline p))
         | Some (Err e) => Some (Err e)
         end,
         {| progressSeen := d_progress d; eventsSeen := d_events d;
            statusesLeft := map snd (stepStatuses d) |}, w')
      else
        let '(r, (q, w')) := processPipelineSequential task (q_init, w) in
        (Some (match r with
               | Ok p => Ok (Pipeline p)
               | Err e => Err e
               end),
         {| progressSeen := q_progress q; eventsSeen := q_events q;
            statusesLeft := q_stepStatuses q |}, w')
  | _ =>
      let '(r, (_, w')) :=
        (b <- liftW (selectBackend W backends task) ;;
         match b with
         | Err e => ret (Err e)
         | Ok backend =>
             executeWithRetry sleepS task (liftW (execute W backend task)) None
         end)%comp (tt, w) in
      (Some (match r with
             | Ok v => Ok (Plain v)
             | Err e => Err e
             end),
       {| progressSeen := []; eventsSeen := []; statusesLeft := [] |}, w')
  end.
End Engine.

(* ================================================================= *)
(** ** A mock world, after the test suites' mock backends *)

Module Mock.
(** The clock and the log of the sub-tasks the backend has executed. *)
Record World : Type := {
  clock : Z;
  executed : list (string * list (string * value))
}.

Definition w0 : World := {| clock := 0; executed := [] |}.

Definition tick (n : Z) (w : World) : World :=
  {| clock := clock w + n; executed := executed w |}.

Definition count_type (ty : string) (w : World) : nat :=
  length (filter (fun e => String.eqb (fst e) ty) (executed w)).

(** Task types: ["boom"] always fails; ["flaky"] fails on its first two
    executions; ["double"] doubles the number under ["n"]; any other task
    answers as the dispatcher tests' mock does.  Every execution takes
    five milliseconds. *)
Definition mockExecute (task : Task) : M World (result value) :=
  fun w =>
    let w' := {| clock := clock w + 5;
                 executed := executed w ++ [(t_type task, t_payload task)] |} in
    if String.eqb (t_type task) "boom" then (Err "boom failed", w')
    else if String.eqb (t_type task) "flaky" then
      (if Nat.ltb (count_type "flaky" w) 2 then Err "flaky failed"
       else Ok (VStr "finally"), w')
    else if String.eqb (t_type task) "double" then
      (match obj_get (t_payload task) "n" with
       | VNum n => Ok (VObj [("processed", VNum n); ("doubled", VNum (2 * n))])
       | _ => Err "not a number"
       end, w')
    else (Ok (VObj [("result", VStr ("Executed " ++ t_type task));
                    ("payload", VObj (t_payload task))]), w').

Definition backend (nm : string) (healthy : result bool)
  (res : option (result ResourcePool)) : Backend World :=
  {| name := nm;
     execute := mockExecute;
     isHealthy := fun w => (healthy, w);
     getResources := option_map (fun r => fun w => (r, w)) res |}.

Definition modal : Backend World := backend "modal" (Ok true) None.

Definition registry : Registry World :=
  registerBackend World modal (clearBackends World []).

(** A timer has fired when its delay has passed on the clock. *)
Definition expired (ms : Z) (w w' : World) : bool :=
  Z.leb ms (clock w' - clock w).

Definition mkStep (id : option string) (ty : string) (deps : option (list string))
  : Step :=
  {| s_id := id; s_task := ty; s_input := None; dependsOn := deps;
     forEach := None; forEachConcurrency := None; runWhen := None;
     s_timeout := None; optional := None; s_resources := None;
     s_retry := None |}.

Definition pipeline (ss : list Step) : Task :=
  {| t_type := "pipeline"; t_backend := Some "modal"; t_payload := [];
     t_steps := Some ss; t_resources := None; t_retry := None |}.

Definition run (task : Task) : option (result TaskOutcome) * Observed * World :=
  processTask World registry clock tick expired task w0.
End Mock.

(* ================================================================= *)
(** ** Definitions that follow the specification's words *)

(** Path evaluation as the specification describes it: the context is a
    nested mapping; an object maps its keys, an array maps the numerals of
    its indices (and ["length"]) ; anything else maps nothing. *)
Definition child (current : value) (segment : string) : option value :=
  match current with
  | VObj fields => map_get fields segment
  | VArr items =>
      if String.eqb segment "length" then Some (VNum (Z.of_nat (length items)))
      else match parse_index segment with
           | Some i => nth_error items i
           | None => None
           end
  | _ => None
  end.

(** The value at a path: the absent value at the first segment that is
    missing or that is asked of a non-object. *)
Fixpoint traverse (current : value) (segments : list string) : value :=
  match segments with
  | [] => current
  | segment :: rest =>
      match child current segment with
      | Some next => traverse next rest
      | None => VUndef
      end
  end.


(** The retry loop observed from outside: the executor is the sequence of
    the outcomes of its successive calls; the trace records the observer's
    calls, the executor's calls and the sleeps, in order. *)
Module RetryTrace.
Inductive Event : Type :=
| Observed (attempt maxAttempts : Z)
| Attempted
| Slept (ms : Z).

Record Run : Type := {
  script : list (result value);
  trace : list Event
}.

Definition log (e : Event) (r : Run) : Run :=
  {| script := script r; trace := trace r ++ [e] |}.

Definition executor : M Run (result value) :=
  fun r =>
    match script r with
    | o :: rest => (o, {| script := rest; trace := trace r ++ [Attempted] |})
    | [] => (Err "no outcome", log Attempted r)
    end.

Definition sleep (ms : Z) : Run -> Run := log (Slept ms).

Definition observer (attempt maxAttempts : Z) : Run -> Run :=
  log (Observed attempt maxAttempts).

Definition taskWith (retry : option RetryConfig) : Task :=
  {| t_type := "t"; t_backend := None; t_payload := []; t_steps := None;
     t_resources := None; t_retry := retry |}.

Definition run (retry : option RetryConfig) (outcomes : list (result value))
  : result value * Run :=
  executeWithRetry sleep (taskWith retry) executor (Some observer)
    {| script := outcomes; trace := [] |}.

(** The base delay: [retry.delay || 1000]. *)
Definition baseDelay (retry : RetryConfig) : Z :=
  match delay retry with
  | Some d => if Z.eqb d 0 then 1000%Z else d
  | None => 1000%Z
  end.

(** The base delay for "fixed"; [delay * 2^(attempt-1)] for
    "exponential". *)
Definition backoffDelay (retry : RetryConfig) (attempt : Z) : Z :=
  match backoff retry with
  | Some Exponential => (baseDelay retry * 2 ^ (attempt - 1))%Z
  | _ => baseDelay retry
  end.

(** [k] failed attempts from attempt [first] on: each is announced to
    the observer, made, and followed by its backoff sleep. *)
Fixpoint failedRounds (retry : RetryConfig) (n first : Z) (k : nat) : list Event :=
  match k with
  | O => []
  | Datatypes.S k' =>
      Observed first n :: Attempted :: Slept (backoffDelay retry first)
        :: failedRounds retry n (first + 1) k'
  end.
(** Every executor call in the trace, numbered from [k], is announced to
    the observer with its number immediately before it is made. *)
Fixpoint announced (k : Z) (tr : list Event) : bool :=
  match tr with
  | [] => true
  | Observed a _ :: Attempted :: rest => Z.eqb a k && announced (k + 1) rest
  | Slept _ :: rest => announced k rest
  | _ => false
  end.
End RetryTrace.

(** Two retry policies: three attempts with exponential backoff from ten
    milliseconds, and a single attempt. *)
Definition retry3 : RetryConfig :=
  {| attempts := Some 3%Z; backoff := Some Exponential; delay := Some 10%Z;
     maxDelay := None |}.

Definition retry1 : RetryConfig :=
  {| attempts := Some 1%Z; backoff := Some Fixed; delay := Some 10%Z;
     maxDelay := None |}.

(** The selection policy in the specification's words. *)
Section SelectionPolicy.
Variable W : Type.

(** The health check answered [true] (it neither answered [false] nor
    threw). *)
Definition answersHealthy (w : W) (b : Backend W) : bool :=
  match fst (isHealthy W b w) with Ok true => true | _ => false end.

(** [getResources()] reports at least one available GPU. *)
Definition reportsGpu (w : W) (b : Backend W) : bool :=
  match getResources W b with
  | Some query =>
      match fst (query w) with
      | Ok resources => existsb available (gpus resources)
      | Err _ => false
      end
  | None => false
  end.

(** The resource query, if the backend has one, does not throw. *)
Definition queryAnswers (w : W) (b : Backend W) : bool :=
  match getResources W b with
  | Some query => match fst (query w) with Ok _ => true | Err _ => false end
  | None => true
  end.

(** The backend's checks only observe the world. *)
Definition observing (b : Backend W) : Prop :=
  (forall w, snd (isHealthy W b w) = w)
  /\ (forall query, getResources W b = Some query -> forall w, snd (query w) = w).

(** The healthy backends, in registration order. *)
Definition healthyBackends (backends : Registry W) (w : W) : list (Backend W) :=
  filter (answersHealthy w) (map snd backends).
End SelectionPolicy.

(** A registry of three backends: an unhealthy one, one whose health check
    throws, a healthy one without free GPU and a healthy one with a free
    GPU. *)
Definition pool (free : bool) : ResourcePool :=
  {| gpus := [{| gpu_name := "T4"; gpu_vram := 16; available := free |}];
     pool_ram := (64, 32)%Z; pool_vram := (16, 8)%Z |}.

Definition registry4 : Registry Mock.World :=
  registerBackend _ (Mock.backend "gpu" (Ok true) (Some (Ok (pool true))))
    (registerBackend _ (Mock.backend "busy" (Ok true) (Some (Ok (pool false))))
       (registerBackend _ (Mock.backend "down" (Err "unreachable") None)
          (registerBackend _ (Mock.backend "sick" (Ok false) None) []))).

Definition gpuTask : Task :=
  {| t_type := "train"; t_backend := Some "auto"; t_payload := [];
     t_steps := None;
     t_resources := Some {| gpu := Some (VBool true); vram := None; ram := None;
                            cpu := None; timeout := None |};
     t_retry := None |}.

(** A status record without its retry counter, and the scheduler's state
    without the retry counters: what a running sub-task cannot change. *)
Definition erase_attempt (s : StepStatus) : StepStatus :=
  {| st_id := st_id s; st_task := st_task s; status := status s;
     startedAt := startedAt s; completedAt := completedAt s;
     duration := duration s; error := error s; st_result := st_result s;
     retryAttempt := None |}.

Definition core (d : DagState) : DagState :=
  {| results := results d; completed := completed d; failed := failed d;
     running := running d;
     stepStatuses := map (fun e => (fst e, erase_attempt (snd e))) (stepStatuses d);
     groups := groups d; d_events := d_events d; d_progress := d_progress d |}.

Definition q_core (q : SeqState) : SeqState :=
  {| q_stepResults := q_stepResults q;
     q_stepStatuses := map erase_attempt (q_stepStatuses q);
     q_events := q_events q; q_progress := q_progress q |}.


Section Batches.
Variable W : Type.
Variable backends : Registry W.
Variable sleepW : Z -> W -> W.
Variable expiredW : Z -> W -> W -> bool.
Variable task : Task.

End Batches.



Definition onDemand : Step :=
  {| s_id := Some "lazy"; s_task := "x"; s_input := None; dependsOn := None;
     forEach := None; forEachConcurrency := None; runWhen := Some "on-demand";
     s_timeout := None; optional := None; s_resources := None;
     s_retry := None |}.

Definition doubling : Step :=
  {| s_id := Some "process"; s_task := "double";
     s_input := Some [("n", VStr "{{item}}")]; dependsOn := None;
     forEach := Some "{{payload.items}}"; forEachConcurrency := Some 2%nat;
     runWhen := None; s_timeout := None; optional := None;
     s_resources := None; s_retry := None |}.

Definition itemsTask (ss : list Step) : Task :=
  {| t_type := "pipeline"; t_backend := Some "modal";
     t_payload := [("items", VArr [VNum 1; VNum 2; VNum 3; VNum 4; VNum 5]);
                   ("enabled", VBool false)];
     t_steps := Some ss; t_resources := None; t_retry := None |}.

Section SkippedStep.
Variable W : Type.
Variable backends : Registry W.
Variable now : W -> Z.
Variable sleepW : Z -> W -> W.
Variable expiredW : Z -> W -> W -> bool.
Variable task : Task.
Variable stepMap : list (string * Step).


End SkippedStep.

(** A dispatched step that still has an execution to await. *)
Definition launched (b : begun) : bool :=
  match b with Finished _ => false | _ => true end.

Definition launched_ids (bs : list (string * Step * begun)) : list string :=
  map (fun x => fst (fst x)) (filter (fun x => launched (snd x)) bs).

(** The sets of the scheduler as they stand between two ticks of a run
    that goes on: nothing running, nothing failed, the completed ids
    distinct and among the ids of the step map. *)
Definition between_ticks (stepMap : list (string * Step)) (d : DagState) : Prop :=
  running d = [] /\ failed d = [] /\ NoDup (completed d)
  /\ incl (completed d) (map fst stepMap).

Section BegunSets.
Variable W : Type.

(** What the synchronous prefix of a step does to the sets, from the
    running set [r0] it starts with. *)
Definition begun_sets (stepId0 : string) (d : DagState) (r0 r1 : list string)
  (out : begun * (DagState * W)) : Prop :=
  let d' := fst (snd out) in
  d_progress d' = d_progress d
  /\ ((launched (fst out) = true
       /\ completed d' = completed d /\ failed d' = failed d
       /\ running d' = r0)
      \/ (exists v, fst out = Finished (Ok v)
                    /\ completed d' = set_add (completed d) stepId0
                    /\ failed d' = failed d
                    /\ running d' = r1)
      \/ (exists e, fst out = Finished (Err e)
                    /\ completed d' = completed d
                    /\ failed d' = set_add (failed d) stepId0
                    /\ running d' = r1)).

End BegunSets.

(** A strictly increasing sequence of counts, all above [c0]. *)
Fixpoint climbs (c0 : nat) (ks : list nat) : Prop :=
  match ks with
  | [] => True
  | k :: rest => (c0 < k)%nat /\ climbs k rest
  end.

(** The declared steps of a pipeline, its step map and its ids by index. *)
Definition stepsOf (task : Task) : list Step :=
  match t_steps task with Some l => l | None => [] end.

Definition stepMapOf (task : Task) : list (string * Step) :=
  buildStepMap (stepsOf task) 0 [].

Definition idsOf (task : Task) : list string :=
  buildIndexToId (stepsOf task) 0.


(** Mock pipelines: one step with an id; two steps sharing an id, the
    second of which fails; a pipeline of one "on-demand" step, with and
    without an id. *)
Definition oneStep : Task := Mock.pipeline [Mock.mkStep (Some "a") "x" None].


Definition lazyDag : Task := Mock.pipeline [onDemand].

Definition lazySequential : Task :=
  Mock.pipeline
    [{| s_id := None; s_task := "x"; s_input := None; dependsOn := None;
        forEach := None; forEachConcurrency := None; runWhen := Some "on-demand";
        s_timeout := None; optional := None; s_resources := None;
        s_retry := None |}].

(** A status record of a step that is over without a failure: completed
    or skipped, with its three time fields set. *)
Definition settled (s : StepStatus) : Prop :=
  (status s = Completed \/ status s = Skipped)
  /\ startedAt s <> None /\ completedAt s <> None /\ duration s <> None.

(** The records of the sequential runner while the step [id] is under
    way: every record has its start time, and every record of another
    step is settled. *)
Definition under_way (id : string) (l : list StepStatus) : Prop :=
  Forall (fun s => startedAt s <> None /\ (st_id s <> id -> settled s)) l.

(** The ids the sequential runner gives its steps. *)
Definition sequentialIds (n : nat) : list string :=
  map (fun i => "step_" ++ string_of_nat i) (seq 0 n).

(** What a part of an iteration does to the records and the results,
    from records [under_way]. *)
Definition closes {W : Type} (stepId0 : string) (step : Step)
  (s : SeqState * W) (out : result unit * (SeqState * W)) : Prop :=
  map st_id (q_stepStatuses (fst (snd out))) = map st_id (q_stepStatuses (fst s))
  /\ map st_task (q_stepStatuses (fst (snd out)))
     = map st_task (q_stepStatuses (fst s))
  /\ (fst out = Ok tt ->
      length (q_stepResults (fst (snd out)))
      = Datatypes.S (length (q_stepResults (fst s))))
  /\ (under_way stepId0 (q_stepStatuses (fst s)) -> fst out = Ok tt ->
      Forall settled (q_stepStatuses (fst (snd out)))).

(** A status of a step that is over without a failure. *)
Definition finished (s : StepStatus) : Prop :=
  status s = Completed \/ status s = Skipped.

(** The ids and task types the records of the DAG runner carry. *)
Definition labels (d : DagState) : list (string * string * string) :=
  map (fun e => (fst e, st_id (snd e), st_task (snd e))) (stepStatuses d).

(** Every record of a completed id is finished. *)
Definition completed_finished (d : DagState) : Prop :=
  forall k s, In (k, s) (stepStatuses d) -> In k (completed d) -> finished s.

(** The records of the ids other than [id] keep their status. *)
Definition others_kept (id : string) (d d' : DagState) : Prop :=
  forall k s', In (k, s') (stepStatuses d') -> k <> id ->
    exists s, In (k, s) (stepStatuses d) /\ status s' = status s.

(** A change of the scheduler's state on behalf of the step [id] that
    completes nothing ... *)
Definition quiet (id : string) (d d' : DagState) : Prop :=
  groups d' = groups d /\ labels d' = labels d /\ others_kept id d d'
  /\ completed d' = completed d.

(** ... and one that may complete [id], with finished records then. *)
Definition step_change (id : string) (d d' : DagState) : Prop :=
  groups d' = groups d /\ labels d' = labels d /\ others_kept id d d'
  /\ (completed d' = completed d
      \/ (completed d' = set_add (completed d) id
          /\ forall s', In (id, s') (stepStatuses d') -> finished s')).

(** The ids of the dispatched steps that were over when their
    synchronous prefix ended. *)
Definition settled_ids (bs : list (string * Step * begun)) : list string :=
  map (fun x => fst (fst x)) (filter (fun x => negb (launched (snd x))) bs).

(** What the synchronous prefix of a step leaves: a change on behalf of
    the step, which completes nothing when an execution is still to be
    awaited. *)
Definition begins {W : Type} (stepId0 : string) (d : DagState)
  (out : begun * (DagState * W)) : Prop :=
  step_change stepId0 d (fst (snd out))
  /\ (launched (fst out) = true -> completed (fst (snd out)) = completed d).

(** [step.dependsOn || []] *)
Definition dependencies (step : Step) : list string :=
  match dependsOn step with Some l => l | None => [] end.

(** In the order of completion, a completed step comes after each of its
    dependencies. *)
Definition completion_order (stepMap : list (string * Step)) (d : DagState) : Prop :=
  forall id step dep,
    In (id, step) stepMap -> In id (completed d) -> In dep (dependencies step) ->
    exists l1 l2, completed d = (l1 ++ id :: l2)%list /\ In dep l1.

(** The recorded groups have two steps or more each, share no step, and
    hold completed steps only. *)
Definition groups_sound (d : DagState) : Prop :=
  Forall (fun g => (2 <= length g)%nat) (groups d)
  /\ NoDup (concat (groups d))
  /\ incl (concat (groups d)) (completed d).

(** A record nothing has touched yet. *)
Definition fresh (s : StepStatus) : Prop :=
  status s = Pending /\ startedAt s = None /\ completedAt s = None
  /\ duration s = None /\ error s = None.

(** A record of a step that is running. *)
Definition started (s : StepStatus) : Prop :=
  status s = Running /\ startedAt s <> None /\ error s = None.

(** A record with its three time fields, the duration being the time
    from start to completion. *)
Definition timed (s : StepStatus) : Prop :=
  exists a c, startedAt s = Some a /\ completedAt s = Some c
              /\ duration s = Some (c - a)%Z.

(** A record without any of the three time fields. *)
Definition untimed (s : StepStatus) : Prop :=
  startedAt s = None /\ completedAt s = None /\ duration s = None.

(** The record of a step of the DAG runner that is over without a
    failure: completed, with its times; skipped after a failure, with the
    failure's message and its times; or skipped by its [runWhen], with no
    message and no times. *)
Definition closed (s : StepStatus) : Prop :=
  (status s = Completed /\ error s = None /\ timed s)
  \/ (status s = Skipped /\ error s <> None /\ timed s)
  \/ (status s = Skipped /\ error s = None /\ untimed s).

(** The records of two states, pairwise: the same keys, the records of
    [id] related by [T], the others the same but for retry counters. *)
Definition record_step (id : string) (T : StepStatus -> StepStatus -> Prop)
  (d d' : DagState) : Prop :=
  Forall2 (fun e e' =>
             fst e' = fst e
             /\ (fst e = id -> T (snd e) (snd e'))
             /\ (fst e <> id -> erase_attempt (snd e') = erase_attempt (snd e)))
    (stepStatuses d) (stepStatuses d').

(** The records of a state in which the steps of [F] are in flight. *)
Definition timing (F : string -> Prop) (d : DagState) : Prop :=
  forall k s, In (k, s) (stepStatuses d) ->
    (In k (completed d) -> closed s)
    /\ (F k -> ~ In k (completed d) -> ~ In k (failed d) -> started s)
    /\ (~ F k -> ~ In k (completed d) -> ~ In k (failed d) -> fresh s).

(** What the synchronous prefix of a step makes of a fresh record, by
    what is left to do. *)
Definition begun_record (b : begun) (s s' : StepStatus) : Prop :=
  fresh s -> match b with
             | Finished (Ok _) => closed s'
             | Finished (Err _) => True
             | _ => started s'
             end.

(** What the rest of a step makes of the record of a running step, by
    its outcome. *)
Definition ended_record (o : result value) (s s' : StepStatus) : Prop :=
  started s -> match o with Ok _ => closed s' | Err _ => True end.

(** The stored results are those of the completed steps, in the order of
    completion. *)
Definition keyed (d : DagState) : Prop := map fst (results d) = completed d.

(** What holds of the scheduler's state between the ticks of a run. *)
Definition run_invariant (stepMap : list (string * Step)) (d : DagState) : Prop :=
  timing (fun _ => False) d
  /\ keyed d
  /\ labels d = labels (d_init stepMap)
  /\ completed_finished d
  /\ completion_order stepMap d
  /\ groups_sound d.

(** A diamond: [b] and [c] wait for [a], [d] waits for both. *)
Definition diamond : Task :=
  Mock.pipeline
    [Mock.mkStep (Some "a") "load" None;
     Mock.mkStep (Some "b") "left" (Some ["a"]);
     Mock.mkStep (Some "c") "right" (Some ["a"]);
     Mock.mkStep (Some "d") "join" (Some ["b"; "c"])].

(** The milliseconds slept in a trace. *)
Fixpoint totalSlept (tr : list RetryTrace.Event) : Z :=
  match tr with
  | [] => 0
  | RetryTrace.Slept ms :: rest => ms + totalSlept rest
  | _ :: rest => totalSlept rest
  end.

(** The milliseconds [executeWithRetry] sleeps over [k] failed attempts
    that are each followed by another one. *)
Definition backoffTotal (retry : RetryConfig) (k : nat) : Z :=
  match backoff retry with
  | Some Exponential => RetryTrace.baseDelay retry * (2 ^ Z.of_nat k - 1)
  | _ => RetryTrace.baseDelay retry * Z.of_nat k
  end.

(** A key without a dot and without white space: a path segment that
    [split] and [trim] leave whole. *)
Definition plain_key (key : string) : bool :=
  forallb (fun c => negb (Ascii.eqb c ".") && negb (is_space c))
    (list_ascii_of_string key).

(** The ids ["step_" + i] for [n] indices from [i0] on. *)
Definition stepIdsFrom (i0 n : nat) : list string :=
  map (fun i => "step_" ++ string_of_nat i) (seq i0 n).

(** A record of a step that failed with the message [e]. *)
Definition failed_with (e : string) (s : StepStatus) : Prop :=
  status s = Failed /\ error s = Some e
  /\ startedAt s <> None /\ completedAt s <> None /\ duration s <> None.

(** The records of the sequential runner while the step [id] runs: its
    record is the last one, the others are settled. *)
Definition current_last (id : string) (l : list StepStatus) : Prop :=
  exists L s, l = (L ++ [s])%list
              /\ Forall (fun x => settled x /\ st_id x <> id) L
              /\ st_id s = id /\ startedAt s <> None.

(** The records the sequential runner leaves when the step [id] has
    failed with [e]. *)
Definition stopped (id e : string) (l : list StepStatus) : Prop :=
  exists L s, l = (L ++ [s])%list /\ Forall settled L
              /\ st_id s = id /\ failed_with e s.

(** What a part of an iteration that throws leaves. *)
Definition fails {W : Type} (stepId0 e : string) (step : Step) (s : SeqState * W)
  (out : result unit * (SeqState * W)) : Prop :=
  stopped stepId0 e (q_stepStatuses (fst (snd out)))
  /\ q_stepResults (fst (snd out)) = q_stepResults (fst s)
  /\ is_true (optional step) = false.

(** Two steps without ids, the second of which fails. *)
Definition failingSequential : Task :=
  Mock.pipeline [Mock.mkStep None "x" None; Mock.mkStep None "boom" None].

(** A task for the backend registered as ["down"]. *)
Definition downTask : Task :=
  {| t_type := "train"; t_backend := Some "down"; t_payload := [];
     t_steps := None; t_resources := None; t_retry := None |}.

(** An event about a step. *)
Definition step_event (e : PipelineEvent) : Prop := ev_type e <> PipelineComplete.

(** The events [l'] are the events [l] followed by events about steps. *)
Definition more_step_events (l l' : list PipelineEvent) : Prop :=
  exists es, l' = (l ++ es)%list /\ Forall step_event es.

(** The events of a run: events about steps, then, when the run returns
    a result, one ["pipeline:complete"] event. *)
Definition run_events (task : Task) (events : list PipelineEvent)
  (r : option (result PipelineResult)) : Prop :=
  match r with
  | Some (Ok p) =>
      exists es e,
        events = (es ++ [e])%list
        /\ Forall step_event es
        /\ ev_type e = PipelineComplete /\ stepId e = None /\ stepTask e = None
        /\ data e = VObj [("totalDuration", VNum (totalDuration p));
                          ("stepCount", VNum (Z.of_nat (length (stepsOf task))))]
  | _ => Forall step_event events
  end.

(* ================================================================= *)
(** * Properties *)

(* ================================================================= *)
(** ** Strings *)

Lemma substring_0_length (s : string) : substring 0 (String.length s) s = s.
Proof.
  induction s as [|c s IH]; simpl; [reflexivity|]. now rewrite IH.
Qed.

Lemma substring_0_app (s t : string) :
  substring 0 (String.length s) (s ++ t) = s.
Proof.
  induction s as [|c s IH]; simpl.
  - destruct t; reflexivity.
  - now rewrite IH.
Qed.

Lemma substring_skip (r p : string) :
  substring (String.length r) (String.length p) (r ++ p) = p.
Proof.
  induction r as [|c r IH]; simpl.
  - apply substring_0_length.
  - exact IH.
Qed.

Lemma length_append (s t : string) :
  String.length (s ++ t) = (String.length s + String.length t)%nat.
Proof.
  induction s as [|c s IH]; simpl; [reflexivity|]. now rewrite IH.
Qed.

Lemma startsWith_iff (p s : string) :
  startsWith p s = true <-> exists r, s = p ++ r.
Proof.
  unfold startsWith. revert s.
  induction p as [|a p IH]; intros s.
  - destruct s; simpl; (split; [intros _; eexists; reflexivity | reflexivity]).
  - destruct s as [|b s]; simpl.
    + split; [discriminate | intros [r Hr]; discriminate].
    + destruct (Ascii.ascii_dec a b) as [->|Hab].
      * rewrite IH. split; intros [r Hr]; exists r; [now rewrite Hr | now inversion Hr].
      * split; [discriminate | intros [r Hr]; inversion Hr; congruence].
Qed.

Lemma endsWith_cons (p : string) (c : ascii) (s : string) :
  (String.length p <= String.length s)%nat ->
  endsWith p (String c s) = endsWith p s.
Proof.
  intros Hle. unfold endsWith. simpl String.length.
  replace (Datatypes.S (String.length s) - String.length p)%nat
    with (Datatypes.S (String.length s - String.length p)) by lia.
  simpl substring.
  replace (String.length p <=? Datatypes.S (String.length s))%nat with true
    by (symmetry; apply Nat.leb_le; lia).
  replace (String.length p <=? String.length s)%nat with true
    by (symmetry; apply Nat.leb_le; lia).
  reflexivity.
Qed.

Lemma endsWith_iff (p s : string) :
  endsWith p s = true <-> exists r, s = r ++ p.
Proof.
  split.
  - induction s as [|c s IH]; intros H.
    + unfold endsWith in H. apply andb_prop in H as [Hl He].
      apply Nat.leb_le in Hl. simpl in Hl.
      destruct p; [now exists "" | simpl in Hl; lia].
    + destruct (Nat.le_gt_cases (String.length p) (String.length s)) as [Hle|Hgt].
      * rewrite endsWith_cons in H by exact Hle.
        destruct (IH H) as [r ->]. now exists (String c r).
      * unfold endsWith in H. apply andb_prop in H as [Hl He].
        apply Nat.leb_le in Hl. simpl in Hl.
        assert (Hlen : String.length p = String.length (String c s)) by (simpl; lia).
        rewrite Hlen, Nat.sub_diag, substring_0_length in He.
        apply String.eqb_eq in He. exists "". now rewrite He.
  - intros [r ->]. unfold endsWith. rewrite length_append.
    replace (String.length r + String.length p - String.length p)%nat
      with (String.length r) by lia.
    rewrite substring_skip, String.eqb_refl.
    replace (String.length p <=? String.length r + String.length p)%nat with true
      by (symmetry; apply Nat.leb_le; lia).
    reflexivity.
Qed.

(** A whole-string template is exactly a body between the braces. *)
Lemma is_template_iff (t : string) :
  is_template t = true <-> exists body, t = "{{" ++ body ++ "}}".
Proof.
  unfold is_template. rewrite andb_true_iff, startsWith_iff, endsWith_iff.
  split.
  - intros [[r Hr] [q Hq]]. subst t.
    destruct r as [|a [|b r]].
    + destruct q as [|x [|y q]]; simpl in Hq; try discriminate.
      destruct q; discriminate.
    + destruct q as [|x [|y [|z q]]]; simpl in Hq; try discriminate.
      destruct q; discriminate.
    + assert (He : endsWith "}}" (String a (String b r)) = true).
      { rewrite <- (endsWith_cons "}}" "{"), <- (endsWith_cons "}}" "{").
        - apply endsWith_iff. exists q. exact Hq.
        - simpl. lia.
        - simpl. lia. }
      apply endsWith_iff in He as [body Hb]. exists body. now rewrite Hb.
  - intros [body ->]. split.
    + now exists (body ++ "}}").
    + exists ("{{" ++ body). reflexivity.
Qed.

Lemma slice_of_template (body : string) :
  slice_2_m2 ("{{" ++ body ++ "}}") = body.
Proof.
  unfold slice_2_m2. simpl. rewrite length_append. simpl.
  replace (String.length body + 2 - 2)%nat with (String.length body) by lia.
  apply substring_0_app.
Qed.

(* ================================================================= *)
(** ** Template resolution *)

Lemma obj_get_map_get (fields : list (string * value)) (key : string) :
  obj_get fields key =
  match map_get fields key with Some v => v | None => VUndef end.
Proof.
  induction fields as [|[k v] rest IH]; simpl; [reflexivity|].
  destruct (String.eqb k key); [reflexivity | exact IH].
Qed.

Lemma traverse_undef (segments : list string) : traverse VUndef segments = VUndef.
Proof. destruct segments; reflexivity. Qed.

Lemma nth_nth_error (items : list value) (i : nat) :
  nth i items VUndef =
  match nth_error items i with Some v => v | None => VUndef end.
Proof.
  revert i. induction items as [|x items IH]; intros [|i]; simpl; auto.
Qed.

(** The loop of [getNestedValue] never throws, and computes the value at
    the path. *)
Lemma walk_total (current : value) (parts : list string) :
  walk current parts = Some (traverse current parts).
Proof.
  revert current.
  induction parts as [|part rest IH]; intros current; [reflexivity|].
  destruct current; simpl; try reflexivity.
  - destruct (String.eqb part "length"); [apply IH|].
    destruct (parse_index part) as [i|].
    + rewrite IH, nth_nth_error.
      destruct (nth_error items i); [reflexivity | apply f_equal, traverse_undef].
    + rewrite IH. apply f_equal, traverse_undef.
  - rewrite IH, obj_get_map_get.
    destruct (map_get fields part); [reflexivity | apply f_equal, traverse_undef].
Qed.

Lemma resolveTemplate_total (template : string) (context : value) :
  exists v, resolveTemplate template context = Some v.
Proof.
  unfold resolveTemplate, getNestedValue.
  destruct (is_template template); [rewrite walk_total|]; eauto.
Qed.



Lemma obj_set_fresh (fields : list (string * value)) (key : string) (v : value) :
  ~ In key (map fst fields) -> obj_set fields key v = (fields ++ [(key, v)])%list.
Proof.
  induction fields as [|[k w] rest IH]; simpl; intros Hn; [reflexivity|].
  destruct (String.eqb_spec k key) as [->|Hne].
  - exfalso. apply Hn. now left.
  - rewrite IH; [reflexivity|]. intros Hin. apply Hn. now right.
Qed.




(* ================================================================= *)
(** ** The retry loop *)

Section RetryLoop.
Import RetryTrace.
Variable retry : RetryConfig.
Variable n : Z.

Let loop (remaining : nat) (attempt : Z) (lastError : option string) :=
  retry_loop sleep remaining attempt n (baseDelay retry) (backoff retry)
    executor (Some observer) lastError.

Lemma loop_step_ok (r : nat) (attempt : Z) (lastError : option string)
  (v : value) (rest : list (result value)) (tr : list Event) :
  loop (Datatypes.S r) attempt lastError {| script := Ok v :: rest; trace := tr |}
  = (Ok v, {| script := rest; trace := tr ++ [Observed attempt n; Attempted] |}).
Proof.
  unfold loop. simpl. unfold bind, modify, observer, log, executor, ret. simpl.
  now rewrite <- app_assoc.
Qed.

Lemma loop_step_err (r : nat) (attempt : Z) (lastError : option string)
  (e : string) (rest : list (result value)) (tr : list Event) :
  loop (Datatypes.S r) attempt lastError {| script := Err e :: rest; trace := tr |}
  = loop r (attempt + 1)%Z (Some e)
      {| script := rest;
         trace := if (attempt <? n)%Z
                  then tr ++ [Observed attempt n; Attempted;
                              Slept (backoffDelay retry attempt)]
                  else tr ++ [Observed attempt n; Attempted] |}.
Proof.
  unfold loop. simpl retry_loop.
  unfold bind, modify, observer, log, executor, ret, sleep, backoffDelay. simpl.
  destruct (attempt <? n)%Z; simpl; apply f_equal; unfold log; simpl;
    repeat rewrite <- app_assoc; reflexivity.
Qed.

Lemma retry_loop_success (v : value) (more : list (result value))
  (errs : list string) :
  forall (remaining : nat) (attempt : Z) (tr : list Event) (lastError : option string),
    Z.of_nat remaining = (n - attempt + 1)%Z ->
    (length errs < remaining)%nat ->
    loop remaining attempt lastError
      {| script := map Err errs ++ Ok v :: more; trace := tr |}
    = (Ok v,
       {| script := more;
          trace := tr ++ failedRounds retry n attempt (length errs)
                     ++ [Observed (attempt + Z.of_nat (length errs)) n; Attempted] |}).
Proof.
  induction errs as [|e errs IH]; intros remaining attempt tr lastError Hrem Hlt.
  - destruct remaining as [|r]; [simpl in Hlt; lia|].
    simpl map. simpl app. rewrite loop_step_ok. simpl. now rewrite Z.add_0_r.
  - destruct remaining as [|r]; [simpl in Hlt; lia|].
    simpl in Hlt.
    assert (Ha : (attempt <? n)%Z = true) by (apply Z.ltb_lt; lia).
    simpl map. rewrite <- app_comm_cons, loop_step_err, Ha.
    rewrite IH by lia.
    simpl length. rewrite Nat2Z.inj_succ.
    replace (attempt + 1 + Z.of_nat (length errs))%Z
      with (attempt + Z.succ (Z.of_nat (length errs)))%Z by lia.
    simpl failedRounds. rewrite <- app_assoc. reflexivity.
Qed.

Lemma retry_loop_exhausted (errs : list string) :
  forall (e0 : string) (remaining : nat) (attempt : Z) (tr : list Event)
         (lastError : option string) (more : list (result value)),
    Z.of_nat remaining = (n - attempt + 1)%Z ->
    length (e0 :: errs) = remaining ->
    loop remaining attempt lastError
      {| script := map Err (e0 :: errs) ++ more; trace := tr |}
    = (Err (last (e0 :: errs) e0),
       {| script := more;
          trace := tr ++ failedRounds retry n attempt (length errs)
                     ++ [Observed n n; Attempted] |}).
Proof.
  induction errs as [|e1 errs IH];
    intros e0 remaining attempt tr lastError more Hrem Hlen.
  - simpl in Hlen. subst remaining. simpl in Hrem.
    assert (attempt = n) by lia. subst attempt.
    simpl map. rewrite <- app_comm_cons, loop_step_err, Z.ltb_irrefl.
    reflexivity.
  - destruct remaining as [|r]; [discriminate|].
    simpl in Hlen. injection Hlen as Hlen.
    assert (Ha : (attempt <? n)%Z = true).
    { apply Z.ltb_lt. subst r. rewrite Nat2Z.inj_succ in Hrem.
      rewrite Nat2Z.inj_succ in Hrem. lia. }
    change (map Err (e0 :: e1 :: errs)) with (Err (A:=value) e0 :: map Err (e1 :: errs)).
    rewrite <- app_comm_cons, loop_step_err, Ha.
    rewrite (IH e1 r (attempt + 1)%Z _ (Some e0) more) by (simpl; lia).
    simpl failedRounds. rewrite <- app_assoc.
    replace (last (e0 :: e1 :: errs) e0) with (last (e1 :: errs) e1); [reflexivity|].
    clear. change (last (e0 :: e1 :: errs) e0) with (last (e1 :: errs) e0).
    generalize e1 at 1 3. induction errs as [|x errs IHe]; intros y; [reflexivity|].
    change (last (y :: x :: errs) e1) with (last (x :: errs) e1).
    change (last (y :: x :: errs) e0) with (last (x :: errs) e0).
    apply IHe.
Qed.
End RetryLoop.

Lemma announced_rounds (retry : RetryConfig) (n : Z) (m : nat) :
  forall k last,
    RetryTrace.announced k
      (RetryTrace.failedRounds retry n k m
         ++ [RetryTrace.Observed (k + Z.of_nat m) last; RetryTrace.Attempted])
    = true.
Proof.
  induction m as [|m IH]; intros k last.
  - simpl. now rewrite Z.add_0_r, Z.eqb_refl.
  - replace (k + Z.of_nat (Datatypes.S m))%Z with (k + 1 + Z.of_nat m)%Z by lia.
    cbn [RetryTrace.failedRounds]. rewrite <- !app_comm_cons.
    cbn [RetryTrace.announced]. rewrite Z.eqb_refl. cbn [andb].
    apply IH.
Qed.

Lemma executeWithRetry_loop (retry : RetryConfig) (n : Z) (r : RetryTrace.Run) :
  attempts retry = Some n -> (2 <= n)%Z ->
  executeWithRetry RetryTrace.sleep (RetryTrace.taskWith (Some retry))
    RetryTrace.executor (Some RetryTrace.observer) r
  = retry_loop RetryTrace.sleep (Z.to_nat n) 1 n (RetryTrace.baseDelay retry)
      (backoff retry) RetryTrace.executor (Some RetryTrace.observer) None r.
Proof.
  intros Ha Hn. unfold executeWithRetry, RetryTrace.taskWith. cbn [t_retry]. rewrite Ha.
  replace (Z.eqb n 0) with false by (symmetry; apply Z.eqb_neq; lia).
  replace (Z.leb n 1) with false by (symmetry; apply Z.leb_gt; lia).
  reflexivity.
Qed.

(** C7, as the code has it.  With a retry policy of [n >= 2] attempts the
    loop announces each attempt to the observer just before making it,
    returns the executor's value at the first success, sleeps the backoff
    delay (the base delay for "fixed", [delay * 2^(attempt-1)] for
    "exponential") after each failed attempt but the last, and re-raises
    the last error after [n] failures.  With [n <= 1], no attempt count or
    no policy, the executor runs exactly once: no retry, no sleep, and the
    observer is not called. *)
Theorem retry_policy (retry : RetryConfig) :
  (forall o rest,
     RetryTrace.run None (o :: rest)
     = (o, {| RetryTrace.script := rest; RetryTrace.trace := [RetryTrace.Attempted] |}))
  /\ (forall o rest,
        (attempts retry = None \/ exists n, attempts retry = Some n /\ (n <= 1)%Z) ->
        RetryTrace.run (Some retry) (o :: rest)
        = (o, {| RetryTrace.script := rest;
                 RetryTrace.trace := [RetryTrace.Attempted] |}))
  /\ (forall n errs v more,
        attempts retry = Some n -> (2 <= n)%Z -> (Z.of_nat (length errs) < n)%Z ->
        RetryTrace.run (Some retry) (map Err errs ++ Ok v :: more)
        = (Ok v,
           {| RetryTrace.script := more;
              RetryTrace.trace :=
                RetryTrace.failedRounds retry n 1 (length errs)
                  ++ [RetryTrace.Observed (1 + Z.of_nat (length errs)) n;
                      RetryTrace.Attempted] |})
        /\ RetryTrace.announced 1
             (RetryTrace.trace
                (snd (RetryTrace.run (Some retry) (map Err errs ++ Ok v :: more))))
           = true)
  /\ (forall n e0 errs more,
        attempts retry = Some n -> (2 <= n)%Z -> Z.of_nat (length (e0 :: errs)) = n ->
        RetryTrace.run (Some retry) (map Err (e0 :: errs) ++ more)
        = (Err (last (e0 :: errs) e0),
           {| RetryTrace.script := more;
              RetryTrace.trace :=
                RetryTrace.failedRounds retry n 1 (length errs)
                  ++ [RetryTrace.Observed n n; RetryTrace.Attempted] |})).
Proof.
  split; [reflexivity|].
  split.
  { intros o rest [Hnone | [n [Hn Hle]]]; unfold RetryTrace.run, executeWithRetry, RetryTrace.taskWith;
      cbn [t_retry].
    - rewrite Hnone. reflexivity.
    - rewrite Hn.
      destruct (Z.eqb n 0 || Z.leb n 1) eqn:E; [reflexivity|].
      apply orb_false_iff in E as [_ E]. apply Z.leb_gt in E. lia. }
  split.
  { intros n errs v more Ha Hn Hlen.
    assert (Hrun :
      RetryTrace.run (Some retry) (map Err errs ++ Ok v :: more)
      = (Ok v,
         {| RetryTrace.script := more;
            RetryTrace.trace :=
              RetryTrace.failedRounds retry n 1 (length errs)
                ++ [RetryTrace.Observed (1 + Z.of_nat (length errs)) n;
                    RetryTrace.Attempted] |})).
    { unfold RetryTrace.run. rewrite (executeWithRetry_loop retry n) by assumption.
      rewrite (retry_loop_success retry n v more errs (Z.to_nat n) 1 [] None)
        by lia.
      reflexivity. }
    split; [exact Hrun|]. rewrite Hrun. simpl snd. simpl RetryTrace.trace.
    apply announced_rounds. }
  intros n e0 errs more Ha Hn Hlen.
  unfold RetryTrace.run. rewrite (executeWithRetry_loop retry n) by assumption.
  rewrite (retry_loop_exhausted retry n errs e0 (Z.to_nat n) 1 [] None more).
  - reflexivity.
  - lia.
  - apply Nat2Z.inj. rewrite Hlen. lia.
Qed.

Lemma retry_policy_witness :
  RetryTrace.run (Some retry3) [Err "e1"; Err "e2"; Ok (VNum 7)]
  = (Ok (VNum 7),
     {| RetryTrace.script := [];
        RetryTrace.trace :=
          [RetryTrace.Observed 1 3; RetryTrace.Attempted; RetryTrace.Slept 10;
           RetryTrace.Observed 2 3; RetryTrace.Attempted; RetryTrace.Slept 20;
           RetryTrace.Observed 3 3; RetryTrace.Attempted] |}).
Proof.
  exact (proj1 (proj1 (proj2 (proj2 (retry_policy retry3)))
                  3%Z ["e1"; "e2"] (VNum 7) [] eq_refl
                  ltac:(lia) ltac:(simpl; lia))).
Defined.

(** C7 as stated fails for a policy of one attempt: the attempt is made
    without the observer having been told. *)
Lemma retry_single_attempt_unannounced :
  RetryTrace.trace (snd (RetryTrace.run (Some retry1) [Ok (VNum 7)]))
  = [RetryTrace.Attempted]
  /\ RetryTrace.announced 1
       (RetryTrace.trace (snd (RetryTrace.run (Some retry1) [Ok (VNum 7)])))
     = false.
Proof. split; reflexivity. Qed.

(* ================================================================= *)
(** ** Backend selection *)

Section Selection.
Variable W : Type.

Lemma collectHealthy_filter (bs : list (Backend W)) (w : W) :
  (forall b, In b bs -> observing W b) ->
  collectHealthy W bs w = (filter (answersHealthy W w) bs, w).
Proof.
  induction bs as [|b rest IH]; intros Hobs; [reflexivity|].
  simpl. unfold bind.
  destruct (isHealthy W b w) as [h w1] eqn:E.
  assert (Hw : w1 = w).
  { destruct (Hobs b (or_introl eq_refl)) as [H _].
    specialize (H w). now rewrite E in H. }
  subst w1. rewrite IH by (intros b' Hb'; apply Hobs; now right).
  assert (Ha : answersHealthy W w b = match h with Ok true => true | _ => false end)
    by (unfold answersHealthy; now rewrite E).
  rewrite Ha. destruct h as [[|]|]; reflexivity.
Qed.



End Selection.

Lemma registry4_observing :
  forall b, In b (map snd registry4) -> observing Mock.World b.
Proof.
  intros b Hb. simpl in Hb.
  destruct Hb as [<- | [<- | [<- | [<- | []]]]]; split; simpl; intros;
    try reflexivity; try discriminate;
    match goal with H : Some _ = Some _ |- _ => injection H as <- end; reflexivity.
Qed.


(* ================================================================= *)
(** ** What a running sub-task leaves untouched *)

Section Frame.
Variable W : Type.
Variable backends : Registry W.
Variable sleepW : Z -> W -> W.
Variable expiredW : Z -> W -> W -> bool.
Variables St X : Type.
Variable noteAttempt : Z -> St -> St.
(** An observation of the bookkeeping that the retry counter does not
    reach. *)
Variable view : St -> X.
Hypothesis view_note : forall a st, view (noteAttempt a st) = view st.

Let observer : option (Z -> Z -> St * W -> St * W) :=
  Some (fun attempt _ s => (noteAttempt attempt (fst s), snd s)).

Lemma liftW_view {A : Type} (m : M W A) (s : St * W) :
  view (fst (snd (liftW W m s))) = view (fst s).
Proof. unfold liftW. destruct (m (snd s)). reflexivity. Qed.

Lemma retry_loop_view (executor : M W (result value)) (n delay0 : Z)
  (bo : option Backoff) (remaining : nat) :
  forall attempt lastError s,
    view (fst (snd (retry_loop (sleepS W sleepW) remaining attempt n delay0 bo
                      (liftW W executor) observer lastError s)))
    = view (fst s).
Proof.
  induction remaining as [|r IH]; intros attempt lastError s; [reflexivity|].
  simpl. unfold bind, modify, observer.
  destruct (liftW W executor (noteAttempt attempt (fst s), snd s))
    as [res s1] eqn:E.
  assert (H1 : view (fst s1) = view (fst s)).
  { pose proof (liftW_view executor (noteAttempt attempt (fst s), snd s)) as H.
    rewrite E in H. simpl in H. now rewrite H, view_note. }
  destruct res as [v|e]; [exact H1|].
  destruct (attempt <? n)%Z.
  - rewrite IH. exact H1.
  - unfold ret. rewrite IH. exact H1.
Qed.

Lemma executeBackend_view (stepTask : Task) (s : St * W) :
  view (fst (snd (executeBackend W backends sleepW noteAttempt stepTask s)))
  = view (fst s).
Proof.
  unfold executeBackend, bind.
  destruct (liftW W (selectBackend W backends stepTask) s) as [b s1] eqn:E.
  assert (H1 : view (fst s1) = view (fst s)).
  { pose proof (liftW_view (selectBackend W backends stepTask) s) as H.
    now rewrite E in H. }
  destruct b as [backend|e]; [|exact H1].
  unfold executeWithRetry.
  destruct (t_retry stepTask) as [retry|];
    [|rewrite liftW_view; exact H1].
  destruct (attempts retry) as [n|]; [|rewrite liftW_view; exact H1].
  destruct (Z.eqb n 0 || Z.leb n 1); [rewrite liftW_view; exact H1|].
  fold observer.
  rewrite retry_loop_view. exact H1.
Qed.

(** Running a sub-task (selection, retries, timeout) changes nothing of
    the bookkeeping but the retry counter. *)
Lemma runStepTask_view (task : Task) (step : Step) (stepTask : Task)
  (label : string) (s : St * W) :
  view (fst (snd (runStepTask W backends sleepW expiredW noteAttempt
                    task step stepTask label s)))
  = view (fst s).
Proof.
  unfold runStepTask.
  destruct (timeoutSeconds task step) as [t|]; [|apply executeBackend_view].
  unfold withTimeout.
  pose proof (executeBackend_view stepTask s) as H.
  destruct (executeBackend W backends sleepW noteAttempt stepTask s) as [r s1].
  destruct (expiredS W expiredW (t * 1000) s s1); exact H.
Qed.
End Frame.

Lemma erase_set_retryAttempt (a : Z) (s : StepStatus) :
  erase_attempt (set_retryAttempt a s) = erase_attempt s.
Proof. reflexivity. Qed.

Lemma core_note (id : string) (a : Z) (d : DagState) :
  core (d_update_status id (set_retryAttempt a) d) = core d.
Proof.
  unfold core, d_update_status. simpl. f_equal.
  rewrite map_map. apply map_ext. intros [k st]. simpl.
  destruct (String.eqb k id); reflexivity.
Qed.

Lemma q_core_note (id : string) (a : Z) (q : SeqState) :
  q_core (q_update_status id (set_retryAttempt a) q) = q_core q.
Proof.
  unfold q_core, q_update_status. simpl. f_equal.
  rewrite map_map. apply map_ext. intros st.
  destruct (String.eqb (st_id st) id); reflexivity.
Qed.

(* ================================================================= *)
(** ** Sets and maps of the scheduler *)

Lemma set_has_In (l : list string) (x : string) : set_has l x = true <-> In x l.
Proof.
  unfold set_has. rewrite existsb_exists. split.
  - intros [y [Hy He]]. apply String.eqb_eq in He. now subst.
  - intros H. exists x. split; [exact H | apply String.eqb_refl].
Qed.

Lemma set_add_In (l : list string) (x y : string) :
  In y (set_add l x) <-> In y l \/ y = x.
Proof.
  unfold set_add. destruct (set_has l x) eqn:E.
  - apply set_has_In in E. split; [now left | intros [H | ->]; assumption].
  - rewrite in_app_iff. simpl. intuition.
Qed.

Lemma set_delete_In (l : list string) (x y : string) :
  In y (set_delete l x) <-> In y l /\ y <> x.
Proof.
  unfold set_delete. rewrite filter_In. split; intros [H1 H2]; split; try exact H1.
  - intros ->. now rewrite String.eqb_refl in H2.
  - apply negb_true_iff. apply String.eqb_neq. congruence.
Qed.

Lemma set_add_NoDup (l : list string) (x : string) :
  NoDup l -> NoDup (set_add l x).
Proof.
  intros Hl. unfold set_add. destruct (set_has l x) eqn:E; [exact Hl|].
  apply NoDup_app; [exact Hl | repeat constructor; intros [] | ].
  intros y Hy [<- | []]. apply set_has_In in Hy. congruence.
Qed.



Lemma obj_get_set_other (fields : list (string * value)) (key key' : string)
  (v : value) :
  key' <> key -> obj_get (obj_set fields key v) key' = obj_get fields key'.
Proof.
  intros Hne. induction fields as [|[k w] rest IH]; simpl.
  - replace (String.eqb key key') with false
      by (symmetry; apply String.eqb_neq; congruence).
    reflexivity.
  - destruct (String.eqb_spec k key) as [->|Hk]; simpl.
    + replace (String.eqb key key') with false
        by (symmetry; apply String.eqb_neq; congruence).
      reflexivity.
    + destruct (String.eqb k key'); [reflexivity | exact IH].
Qed.

(* ================================================================= *)
(** ** Failure of a step: optional or required *)

Section StepFailure.
Variable W : Type.
Variable backends : Registry W.
Variable now : W -> Z.
Variable sleepW : Z -> W -> W.
Variable expiredW : Z -> W -> W -> bool.
Variable task : Task.
Variable stepMap : list (string * Step).


Lemma settle_err_optional (stepId0 : string) (step : Step) (e : string)
  (d : DagState) (w : W) :
  is_true (optional step) = true ->
  let out := settle_err W now stepMap stepId0 step e (d, w) in
  let d' := fst (snd out) in
  fst out = Ok (skip_error e)
  /\ snd (snd out) = w
  /\ completed d' = set_add (completed d) stepId0
  /\ failed d' = failed d
  /\ running d' = set_delete (running d) stepId0
  /\ results d' = obj_set (results d) stepId0 (skip_error e)
  /\ d_progress d' = d_progress d
  /\ groups d' = groups d
  /\ stepStatuses d'
     = map (fun en => if String.eqb (fst en) stepId0
                      then (fst en,
                            set_error e (stamp_completion (now w)
                                           (set_status Skipped (snd en))))
                      else en) (stepStatuses d).
Proof.
  intros Hopt. unfold settle_err, bind, upd, getNow, d_emit, ret.
  rewrite Hopt. simpl. repeat split.
Qed.

Lemma settle_err_required (stepId0 : string) (step : Step) (e : string)
  (d : DagState) (w : W) :
  is_true (optional step) = false ->
  let out := settle_err W now stepMap stepId0 step e (d, w) in
  let d' := fst (snd out) in
  fst out = Err e
  /\ snd (snd out) = w
  /\ completed d' = completed d
  /\ failed d' = set_add (failed d) stepId0
  /\ running d' = set_delete (running d) stepId0
  /\ results d' = results d
  /\ d_progress d' = d_progress d
  /\ groups d' = groups d
  /\ stepStatuses d'
     = map (fun en => if String.eqb (fst en) stepId0
                      then (fst en,
                            set_error e (stamp_completion (now w)
                                           (set_status Failed (snd en))))
                      else en) (stepStatuses d).
Proof.
  intros Hopt. unfold settle_err, bind, upd, getNow, d_emit, ret.
  rewrite Hopt. simpl. repeat split.
Qed.

Lemma settle_ok_effect (stepId0 : string) (v evdata : value)
  (d : DagState) (w : W) :
  let out := settle_ok W now stepMap stepId0 v evdata (d, w) in
  let d' := fst (snd out) in
  fst out = Ok v
  /\ snd (snd out) = w
  /\ completed d' = set_add (completed d) stepId0
  /\ failed d' = failed d
  /\ running d' = set_delete (running d) stepId0
  /\ results d' = obj_set (results d) stepId0 v
  /\ d_progress d' = d_progress d
  /\ groups d' = groups d
  /\ stepStatuses d'
     = map (fun en => if String.eqb (fst en) stepId0
                      then (fst en,
                            set_result v (stamp_completion (now w)
                                            (set_status Completed (snd en))))
                      else en) (stepStatuses d).
Proof.
  unfold settle_ok, bind, upd, getNow, d_emit, ret. simpl. repeat split.
Qed.

Lemma d_skip_effect (stepId0 : string) (marker evdata : value)
  (d : DagState) (w : W) :
  let out := d_skip W now stepMap stepId0 marker evdata (d, w) in
  let d' := fst (snd out) in
  fst out = Finished (Ok marker)
  /\ snd (snd out) = w
  /\ completed d' = set_add (completed d) stepId0
  /\ failed d' = failed d
  /\ running d' = set_delete (running d) stepId0
  /\ results d' = obj_set (results d) stepId0 marker
  /\ d_progress d' = d_progress d
  /\ groups d' = groups d
  /\ stepStatuses d'
     = map (fun en => if String.eqb (fst en) stepId0
                      then (fst en, set_status Skipped (snd en))
                      else en) (stepStatuses d).
Proof.
  unfold d_skip, bind, upd, getNow, d_emit, ret. simpl. repeat split.
Qed.
End StepFailure.

Lemma canRun_iff (d : DagState) (step : Step) (id : string) :
  canRun d step id = true <->
  ~ In id (running d) /\ ~ In id (completed d) /\ ~ In id (failed d)
  /\ (forall dep, In dep (match dependsOn step with Some l => l | None => [] end) ->
        In dep (completed d)).
Proof.
  unfold canRun.
  destruct (set_has (running d) id) eqn:Er; simpl.
  { apply set_has_In in Er. split; [discriminate | tauto]. }
  destruct (set_has (completed d) id) eqn:Ec; simpl.
  { apply set_has_In in Ec. split; [discriminate | tauto]. }
  destruct (set_has (failed d) id) eqn:Ef; simpl.
  { apply set_has_In in Ef. split; [discriminate | tauto]. }
  rewrite forallb_forall.
  assert (Hr : ~ In id (running d)) by (rewrite <- set_has_In; congruence).
  assert (Hc : ~ In id (completed d)) by (rewrite <- set_has_In; congruence).
  assert (Hf : ~ In id (failed d)) by (rewrite <- set_has_In; congruence).
  split.
  - intros H. repeat split; try assumption.
    intros dep Hd. apply set_has_In. now apply H.
  - intros [_ [_ [_ H]]] dep Hd. apply set_has_In. now apply H.
Qed.

Section StepFailureClaim.
Variable W : Type.
Variable backends : Registry W.
Variable now : W -> Z.
Variable sleepW : Z -> W -> W.
Variable expiredW : Z -> W -> W -> bool.
Variable task : Task.
Variable stepMap : list (string * Step).

End StepFailureClaim.


(* ================================================================= *)
(** ** Steps skipped by their [runWhen] condition *)

Section ConditionalSkip.
Variable W : Type.
Variable backends : Registry W.
Variable now : W -> Z.
Variable sleepW : Z -> W -> W.
Variable expiredW : Z -> W -> W -> bool.
Variable task : Task.
Variable stepMap : list (string * Step).


End ConditionalSkip.


(* ================================================================= *)
(** ** The sets of the scheduler through one step *)

Section StepSets.
Variable W : Type.
Variable backends : Registry W.
Variable now : W -> Z.
Variable sleepW : Z -> W -> W.
Variable expiredW : Z -> W -> W -> bool.
Variable task : Task.
Variable stepMap : list (string * Step).

Lemma run_items_core (stepId0 : string) (step : Step) (tasks : list (nat * Task)) :
  forall s,
    core (fst (snd (run_items W backends sleepW expiredW task stepId0 step tasks s)))
    = core (fst s).
Proof.
  induction tasks as [|[index st] rest IH]; intros s; [reflexivity|].
  simpl. unfold bind.
  pose proof (runStepTask_view W backends sleepW expiredW DagState DagState
                (fun a => d_update_status stepId0 (set_retryAttempt a)) core
                (core_note stepId0) task step st (itemLabel stepId0 index) s) as H1.
  destruct (runStepTask W backends sleepW expiredW
              (fun a => d_update_status stepId0 (set_retryAttempt a))
              task step st (itemLabel stepId0 index) s) as [r s1].
  specialize (IH s1).
  destruct (run_items W backends sleepW expiredW task stepId0 step rest s1)
    as [rs s2].
  simpl in *. congruence.
Qed.

Lemma forEach_rest_core (stepId0 : string) (step : Step) (items : list value)
  (c : nat) (fuel : nat) :
  forall i acc s,
    core (fst (snd (forEach_rest W backends sleepW expiredW task fuel stepId0 step
                      items c i acc s)))
    = core (fst s).
Proof.
  induction fuel as [|f IH]; intros i acc s; simpl.
  - destruct (i <? length items)%nat; reflexivity.
  - destruct (i <? length items)%nat; [|reflexivity].
    unfold bind, look.
    pose proof (run_items_core stepId0 step
                  (itemTasks task step (fst s) i (firstn c (skipn i items))) s) as H1.
    destruct (run_items W backends sleepW expiredW task stepId0 step
                (itemTasks task step (fst s) i (firstn c (skipn i items))) s)
      as [rs s1].
    destruct (all_fulfilled rs) as [vs|e]; [|exact H1].
    rewrite IH. exact H1.
Qed.

(** The awaited execution of a step changes nothing of the scheduler's
    state but retry counters. *)
Lemma attemptStep_core (stepId0 : string) (step : Step) (b : begun) (s : DagState * W) :
  core (fst (snd (attemptStep W backends sleepW expiredW task stepId0 step b s)))
  = core (fst s).
Proof.
  destruct b as [out|st|items c first]; simpl.
  - reflexivity.
  - apply (runStepTask_view W backends sleepW expiredW DagState DagState
             (fun a => d_update_status stepId0 (set_retryAttempt a)) core
             (core_note stepId0)).
  - unfold bind.
    pose proof (run_items_core stepId0 step first s) as H1.
    destruct (run_items W backends sleepW expiredW task stepId0 step first s)
      as [rs s1].
    destruct (all_fulfilled rs) as [vs|e]; [|exact H1].
    pose proof (forEach_rest_core stepId0 step items c (length items) c vs s1) as H2.
    destruct (forEach_rest W backends sleepW expiredW task (length items) stepId0
                step items c c vs s1) as [r s2].
    simpl in *. congruence.
Qed.

Lemma core_sets (d d' : DagState) :
  core d' = core d ->
  completed d' = completed d /\ failed d' = failed d /\ running d' = running d
  /\ results d' = results d /\ d_progress d' = d_progress d
  /\ groups d' = groups d
  /\ map fst (stepStatuses d') = map fst (stepStatuses d).
Proof.
  intros H. unfold core in H. injection H as Hr Hc Hf Hru Hst Hg He Hp.
  repeat split; try assumption.
  apply (f_equal (map fst)) in Hst. rewrite !map_map in Hst. exact Hst.
Qed.

(** The sets after the rest of [executeStep]: the step leaves [running]
    and joins [completed] (outcome with a result) or [failed] (outcome
    with an error). *)
Lemma finishStep_sets (stepId0 : string) (step : Step) (b : begun)
  (d : DagState) (w : W) :
  launched b = true ->
  let out := finishStep W backends now sleepW expiredW task stepMap stepId0 step b
               (d, w) in
  let d' := fst (snd out) in
  running d' = set_delete (running d) stepId0
  /\ d_progress d' = d_progress d
  /\ ((exists v, fst out = Ok v
                 /\ completed d' = set_add (completed d) stepId0
                 /\ failed d' = failed d)
      \/ (exists e, fst out = Err e
                    /\ completed d' = completed d
                    /\ failed d' = set_add (failed d) stepId0)).
Proof.
  intros Hl. cbv zeta.
  assert (E : finishStep W backends now sleepW expiredW task stepMap stepId0 step b (d, w)
              = let (r, s1) := attemptStep W backends sleepW expiredW task stepId0 step b (d, w) in
                (match r with
                 | Ok v => settle_ok W now stepMap stepId0 v (completionData b v)
                 | Err e => settle_err W now stepMap stepId0 step e
                 end) s1).
  { destruct b; [discriminate | reflexivity | reflexivity]. }
  rewrite E. clear E.
  pose proof (attemptStep_core stepId0 step b (d, w)) as Hcore.
  destruct (attemptStep W backends sleepW expiredW task stepId0 step b (d, w))
    as [r [d1 w1]].
  simpl in Hcore. apply core_sets in Hcore.
  destruct Hcore as (Hc & Hf & Hr & _ & Hp & _).
  destruct r as [v|e].
  - destruct (settle_ok_effect W now stepMap stepId0 v (completionData b v) d1 w1)
      as (H1 & _ & Hc' & Hf' & Hr' & _ & Hp' & _).
    split; [congruence|]. split; [congruence|].
    left. exists v. repeat split; congruence.
  - destruct (is_true (optional step)) eqn:Hopt.
    + destruct (settle_err_optional W now stepMap stepId0 step e d1 w1 Hopt)
        as (H1 & _ & Hc' & Hf' & Hr' & _ & Hp' & _).
      split; [congruence|]. split; [congruence|].
      left. exists (skip_error e). repeat split; congruence.
    + destruct (settle_err_required W now stepMap stepId0 step e d1 w1 Hopt)
        as (H1 & _ & Hc' & Hf' & Hr' & _ & Hp' & _).
      split; [congruence|]. split; [congruence|].
      right. exists e. repeat split; congruence.
Qed.
End StepSets.

Section BeginSets.
Variable W : Type.
Variable now : W -> Z.
Variable task : Task.
Variable stepMap : list (string * Step).

Lemma markRunning_effect (stepId0 : string) (d : DagState) (w : W) :
  let out := markRunning W now stepMap stepId0 (d, w) in
  let d' := fst (snd out) in
  snd (snd out) = w
  /\ completed d' = completed d /\ failed d' = failed d
  /\ running d' = running d /\ results d' = results d
  /\ d_progress d' = d_progress d /\ groups d' = groups d
  /\ stepStatuses d'
     = map (fun en => if String.eqb (fst en) stepId0
                      then (fst en, set_startedAt (now w) (set_status Running (snd en)))
                      else en) (stepStatuses d).
Proof. cbv zeta. repeat split. Qed.

Lemma beginWork_sets (stepId0 : string) (step : Step) (d : DagState) (w : W) :
  begun_sets W stepId0 d (running d) (set_delete (running d) stepId0)
    (beginWork W now task stepMap stepId0 step (d, w)).
Proof.
  unfold begun_sets, beginWork, bind, look, ret. cbn [fst snd].
  destruct (nonempty (forEach step)) as [fe|].
  2:{ cbn [fst snd]. split; [reflexivity|]. left. repeat split. }
  destruct (must (resolveTemplate fe (d_context task d)))
    as [| |b|n|str|items|fields] eqn:E.
  6:{ destruct items as [|item items].
      - destruct (settle_ok_effect W now stepMap stepId0 (VArr [])
                    (VObj [("itemCount", VNum 0)]) d w)
          as (H1 & _ & Hc & Hf & Hr & _ & Hp & _).
        destruct (settle_ok W now stepMap stepId0 (VArr [])
                    (VObj [("itemCount", VNum 0)]) (d, w)) as [r [d1 w1]].
        simpl in *. subst r. split; [exact Hp|].
        right. left. exists (VArr []). repeat split; assumption.
      - cbn [fst snd]. split; [reflexivity|]. left. repeat split. }
  all: match goal with
       | |- context [settle_err _ _ _ ?i ?st ?e (?d0, ?w0)] =>
           destruct (is_true (optional st)) eqn:Hopt;
           [ destruct (settle_err_optional W now stepMap i st e d0 w0 Hopt)
               as (H1 & _ & Hc & Hf & Hr & _ & Hp & _)
           | destruct (settle_err_required W now stepMap i st e d0 w0 Hopt)
               as (H1 & _ & Hc & Hf & Hr & _ & Hp & _) ];
           destruct (settle_err W now stepMap i st e (d0, w0)) as [r [d1 w1]];
           simpl in *; subst r; (split; [exact Hp|]);
           [ right; left; eexists; repeat split; eassumption
           | right; right; eexists; repeat split; eassumption ]
       end.
Qed.

Lemma beginRun_sets (stepId0 : string) (step : Step) (d : DagState) (w : W) :
  begun_sets W stepId0 d (running d) (set_delete (running d) stepId0)
    (beginRun W now task stepMap stepId0 step (d, w)).
Proof.
  unfold beginRun, bind.
  destruct (markRunning_effect stepId0 d w) as (Hw & Hc & Hf & Hr & _ & Hp & _).
  destruct (markRunning W now stepMap stepId0 (d, w)) as [[] [d0 w0]].
  simpl in Hw, Hc, Hf, Hr, Hp.
  pose proof (beginWork_sets stepId0 step d0 w0) as H.
  unfold begun_sets in *. rewrite Hc, Hf, Hr, Hp in H. exact H.
Qed.

Lemma beginStep_sets (stepId0 : string) (step : Step) (d : DagState) (w : W) :
  begun_sets W stepId0 d (set_add (running d) stepId0)
    (set_delete (set_add (running d) stepId0) stepId0)
    (beginStep W now task stepMap stepId0 step (d, w)).
Proof.
  assert (Hrun : begun_sets W stepId0 d (set_add (running d) stepId0)
                   (set_delete (set_add (running d) stepId0) stepId0)
                   (beginRun W now task stepMap stepId0 step
                      (d_running_add stepId0 d, w))).
  { exact (beginRun_sets stepId0 step (d_running_add stepId0 d) w). }
  assert (Hskip : forall marker ev,
             begun_sets W stepId0 d (set_add (running d) stepId0)
               (set_delete (set_add (running d) stepId0) stepId0)
               (d_skip W now stepMap stepId0 marker ev (d_running_add stepId0 d, w))).
  { intros marker ev.
    destruct (d_skip_effect W now stepMap stepId0 marker ev
                (d_running_add stepId0 d) w)
      as (H1 & _ & Hc & Hf & Hr & _ & Hp & _).
    unfold begun_sets. split; [exact Hp|].
    right. left. exists marker. repeat split; assumption. }
  unfold beginStep, bind, upd, look. cbn [fst snd].
  destruct (conditional step) as [c|]; [|exact Hrun].
  destruct (String.eqb c "on-demand"); [apply Hskip|].
  cbn [fst snd].
  match goal with |- context [truthy ?x] => destruct (truthy x) end;
    [exact Hrun | apply Hskip].
Qed.
End BeginSets.

(* ================================================================= *)
(** ** The sets of the scheduler through one tick *)

Section TickSets.
Variable W : Type.
Variable backends : Registry W.
Variable now : W -> Z.
Variable sleepW : Z -> W -> W.
Variable expiredW : Z -> W -> W -> bool.
Variable task : Task.
Variable stepMap : list (string * Step).

Lemma beginAll_sets (runnable : list (string * Step)) :
  forall d w,
    let out := beginAll W now task stepMap runnable (d, w) in
    let bs := fst out in
    let d1 := fst (snd out) in
    map (fun x => fst (fst x)) bs = map fst runnable
    /\ d_progress d1 = d_progress d
    /\ (forall x, In x (completed d) -> In x (completed d1))
    /\ (forall x, In x (completed d1) -> In x (completed d) \/ In x (map fst runnable))
    /\ (NoDup (completed d) -> NoDup (completed d1))
    /\ (forall id step v, In (id, step, Finished (Ok v)) bs -> In id (completed d1))
    /\ (forall x, In x (running d1) -> In x (running d) \/ In x (launched_ids bs))
    /\ ((forall id step e, ~ In (id, step, Finished (Err e)) bs) -> failed d1 = failed d).
Proof.
  induction runnable as [|[id step] rest IH]; intros d w; cbv zeta.
  - simpl. repeat split; auto; tauto.
  - simpl beginAll. unfold bind.
    pose proof (beginStep_sets W now task stepMap id step d w) as Hb.
    destruct (beginStep W now task stepMap id step (d, w)) as [b [d0 w0]].
    specialize (IH d0 w0). cbv zeta in IH.
    destruct (beginAll W now task stepMap rest (d0, w0)) as [bs [d1 w1]].
    unfold begun_sets in Hb. unfold ret. cbn [fst snd] in *.
    destruct IH as (Hids & Hp & Hmono & Hnew & Hnd & Hok & Hrun & Hfail).
    destruct Hb as [Hp0 Hb].
    assert (Hc0 : forall x, In x (completed d) -> In x (completed d0)).
    { intros x Hx. destruct Hb as [(_ & -> & _) | [(v & _ & -> & _) | (e & _ & -> & _)]];
        try exact Hx. apply set_add_In. now left. }
    assert (Hc1 : forall x, In x (completed d0) -> In x (completed d) \/ x = id).
    { intros x Hx. destruct Hb as [(_ & Hc & _) | [(v & _ & Hc & _) | (e & _ & Hc & _)]];
        rewrite Hc in Hx; try (now left). now apply set_add_In. }
    assert (Hn0 : NoDup (completed d) -> NoDup (completed d0)).
    { intros Hn. destruct Hb as [(_ & -> & _) | [(v & _ & -> & _) | (e & _ & -> & _)]];
        try exact Hn. now apply set_add_NoDup. }
    split. { simpl. now rewrite Hids. }
    split. { congruence. }
    split. { auto. }
    split. { intros x Hx. destruct (Hnew x Hx) as [H | H].
             - destruct (Hc1 x H) as [H' | ->]; [now left | right; now left].
             - right. now right. }
    split. { auto. }
    split. { intros id' step' v [Heq | Hin].
             - injection Heq as -> -> ->.
               destruct Hb as [(Hl & _) | [(v' & _ & Hc & _) | (e & He & _)]];
                 try discriminate.
               apply Hmono. rewrite Hc. apply set_add_In. now right.
             - eapply Hok. exact Hin. }
    split. { intros x Hx. unfold launched_ids. simpl filter.
             destruct (Hrun x Hx) as [H | H].
             - destruct Hb as [(Hl & _ & _ & Hr) | [(v & -> & _ & _ & Hr) | (e & -> & _ & _ & Hr)]];
                 rewrite Hr in H.
               + apply set_add_In in H as [H | ->]; [now left|].
                 right. rewrite Hl. simpl. now left.
               + apply set_delete_In in H as [H Hne].
                 apply set_add_In in H as [H | Heq]; [now left | contradiction].
               + apply set_delete_In in H as [H Hne].
                 apply set_add_In in H as [H | Heq]; [now left | contradiction].
             - right. destruct (launched b); [simpl; now right | exact H]. }
    intros Hno.
    rewrite Hfail by (intros id' step' e Hin; apply (Hno id' step' e); now right).
    destruct Hb as [(_ & _ & Hf & _) | [(v & _ & _ & Hf & _) | (e & He & _)]];
      try exact Hf.
    subst b. elim (Hno id step e). now left.
Qed.

Lemma finishAll_sets (bs : list (string * Step * begun)) :
  forall d w,
    let out := finishAll W backends now sleepW expiredW task stepMap bs (d, w) in
    let d2 := fst (snd out) in
    firstError (fst out) = None ->
    d_progress d2 = d_progress d
    /\ failed d2 = failed d
    /\ (forall id step e, ~ In (id, step, Finished (Err e)) bs)
    /\ (forall x, In x (completed d) -> In x (completed d2))
    /\ (forall x, In x (completed d2) -> In x (completed d) \/ In x (launched_ids bs))
    /\ (NoDup (completed d) -> NoDup (completed d2))
    /\ (forall x, In x (launched_ids bs) -> In x (completed d2))
    /\ (forall x, In x (running d2) -> In x (running d) /\ ~ In x (launched_ids bs)).
Proof.
  induction bs as [|[[id step] b] rest IH]; intros d w; cbv zeta.
  - simpl. intros _. repeat split; auto; tauto.
  - simpl finishAll. unfold bind.
    destruct (launched b) eqn:Hl.
    + pose proof (finishStep_sets W backends now sleepW expiredW task stepMap
                    id step b d w Hl) as Hs.
      destruct (finishStep W backends now sleepW expiredW task stepMap id step b (d, w))
        as [o [d0 w0]].
      specialize (IH d0 w0). cbv zeta in IH.
      destruct (finishAll W backends now sleepW expiredW task stepMap rest (d0, w0))
        as [os [d2 w2]].
      unfold ret. cbn [fst snd] in *.
      intros Hfe.
      destruct Hs as (Hr & Hp0 & [(v & -> & Hc & Hf) | (e & -> & _)]);
        [|discriminate].
      simpl in Hfe.
      destruct (IH Hfe) as (Hp & Hf2 & Hno & Hmono & Hnew & Hnd & Hall & Hrun).
      unfold launched_ids. simpl filter. rewrite Hl. simpl map.
      fold (launched_ids rest).
      split; [congruence|]. split; [congruence|].
      split. { intros id' step' e [Heq | Hin]; [|exact (Hno _ _ _ Hin)].
               injection Heq as _ _ ->. discriminate. }
      split. { intros x Hx. apply Hmono. rewrite Hc. apply set_add_In. now left. }
      split. { intros x Hx. destruct (Hnew x Hx) as [H | H]; [|right; now right].
               rewrite Hc in H. apply set_add_In in H as [H | ->];
                 [now left | right; now left]. }
      split. { intros Hn. apply Hnd. rewrite Hc. now apply set_add_NoDup. }
      split. { intros x [<- | Hx]; [|now apply Hall].
               apply Hmono. rewrite Hc. apply set_add_In. now right. }
      intros x Hx. destruct (Hrun x Hx) as [H Hnl].
      rewrite Hr in H. apply set_delete_In in H as [H Hne].
      split; [exact H|]. intros [Heq | Hin]; [congruence | contradiction].
    + destruct b as [out| |]; try discriminate.
      change (let (o, s') := finishStep W backends now sleepW expiredW task stepMap
                               id step (Finished out) (d, w) in
              (let (a, s'0) := finishAll W backends now sleepW expiredW task
                                 stepMap rest s' in ret (o :: a) s'0))
        with (let (a, s'0) := finishAll W backends now sleepW expiredW task
                                stepMap rest (d, w) in ret (out :: a) s'0).
      specialize (IH d w). cbv zeta in IH.
      destruct (finishAll W backends now sleepW expiredW task stepMap rest (d, w))
        as [os [d2 w2]].
      unfold ret. cbn [fst snd] in *.
      intros Hfe. destruct out as [v|e]; [|discriminate]. simpl in Hfe.
      destruct (IH Hfe) as (Hp & Hf2 & Hno & Hmono & Hnew & Hnd & Hall & Hrun).
      unfold launched_ids. simpl filter. fold (launched_ids rest).
      split; [exact Hp|]. split; [exact Hf2|].
      split. { intros id' step' e [Heq | Hin];
                 [discriminate | exact (Hno _ _ _ Hin)]. }
      split; [exact Hmono|]. split; [exact Hnew|]. split; [exact Hnd|].
      split; [exact Hall|]. exact Hrun.
Qed.

(** One tick that does not fail, from a state between two ticks, leaves a
    state between two ticks with strictly more completed steps. *)
Lemma dag_tick_between (d : DagState) (w : W) (r : string * Step)
  (rs : list (string * Step)) :
  between_ticks stepMap d ->
  getRunnableSteps stepMap d = r :: rs ->
  let out := dag_tick W backends now sleepW expiredW task stepMap (r :: rs) (d, w) in
  let d' := fst (snd out) in
  fst out = None ->
  between_ticks stepMap d'
  /\ (length (completed d) < length (completed d'))%nat
  /\ d_progress d' = d_progress d.
Proof.
  intros (Hrun0 & Hfail0 & Hnd0 & Hincl0) Hrunnable. cbv zeta.
  unfold dag_tick, bind.
  set (d0 := if (1 <? length (r :: rs))%nat
             then d_push_group (map fst (r :: rs)) d else d).
  assert (E0 : (if (1 <? length (r :: rs))%nat
                then upd W (d_push_group (map fst (r :: rs)))
                else ret tt) (d, w) = (tt, (d0, w))).
  { unfold d0. destruct (1 <? length (r :: rs))%nat; reflexivity. }
  rewrite E0.
  assert (Hd0 : completed d0 = completed d /\ failed d0 = failed d
                /\ running d0 = running d /\ d_progress d0 = d_progress d).
  { unfold d0. destruct (1 <? length (r :: rs))%nat; repeat split. }
  destruct Hd0 as (Hc0 & Hf0 & Hr0 & Hp0).
  pose proof (beginAll_sets (r :: rs) d0 w) as Hb. cbv zeta in Hb.
  destruct (beginAll W now task stepMap (r :: rs) (d0, w)) as [bs [d1 w1]].
  pose proof (finishAll_sets bs d1 w1) as Hf. cbv zeta in Hf.
  destruct (finishAll W backends now sleepW expiredW task stepMap bs (d1, w1))
    as [os [d2 w2]].
  unfold ret. cbn [fst snd] in *.
  intros Hfe. specialize (Hf Hfe).
  destruct Hb as (Hids & Hp1 & Hmono1 & Hnew1 & Hnd1 & Hok1 & Hrun1 & Hfail1).
  destruct Hf as (Hp2 & Hf2 & Hno & Hmono2 & Hnew2 & Hnd2 & Hall2 & Hrun2).
  assert (Hlaunched : forall x, In x (launched_ids bs) -> In x (map fst (r :: rs))).
  { intros x Hx. rewrite <- Hids. unfold launched_ids in Hx.
    apply in_map_iff in Hx as [y [<- Hy]]. apply filter_In in Hy as [Hy _].
    apply in_map_iff. now exists y. }
  assert (Hkeys : forall x, In x (map fst (r :: rs)) -> In x (map fst stepMap)).
  { intros x Hx. rewrite <- Hrunnable in Hx. unfold getRunnableSteps in Hx.
    apply in_map_iff in Hx as [y [<- Hy]]. apply filter_In in Hy as [Hy _].
    apply in_map_iff. now exists y. }
  split.
  { repeat split.
    - destruct (running d2) as [|x l] eqn:E; [reflexivity|].
      destruct (Hrun2 x (or_introl eq_refl)) as [H Hnl].
      destruct (Hrun1 x H) as [H' | H']; [|contradiction].
      rewrite Hr0, Hrun0 in H'. destruct H'.
    - rewrite Hf2, Hfail1 by exact Hno. congruence.
    - apply Hnd2, Hnd1. now rewrite Hc0.
    - intros x Hx. destruct (Hnew2 x Hx) as [H | H].
      + destruct (Hnew1 x H) as [H' | H'].
        * apply Hincl0. now rewrite <- Hc0.
        * now apply Hkeys.
      + now apply Hkeys, Hlaunched. }
  split; [|congruence].
  assert (Hin : In (fst r) (completed d2)).
  { assert (Hr : In (fst r) (map (fun x => fst (fst x)) bs))
      by (rewrite Hids; now left).
    apply in_map_iff in Hr as [[[id step] b] [Heq Hy]]. simpl in Heq. subst id.
    destruct b as [[v|e]| |].
    - apply Hmono2. eapply Hok1. exact Hy.
    - elim (Hno _ _ _ Hy).
    - apply Hall2. unfold launched_ids. apply in_map_iff.
      exists (fst r, step, Single stepTask0). split; [reflexivity|].
      apply filter_In. now split.
    - apply Hall2. unfold launched_ids. apply in_map_iff.
      exists (fst r, step, Each items concurrency first). split; [reflexivity|].
      apply filter_In. now split. }
  assert (Hnot : ~ In (fst r) (completed d)).
  { assert (Hr : In r (getRunnableSteps stepMap d)) by (rewrite Hrunnable; now left).
    unfold getRunnableSteps in Hr. apply filter_In in Hr as [_ Hr].
    apply canRun_iff in Hr. tauto. }
  assert (Hle : (length (fst r :: completed d) <= length (completed d2))%nat).
  { apply NoDup_incl_length.
    - constructor; assumption.
    - intros x [<- | Hx]; [exact Hin|]. apply Hmono2, Hmono1. now rewrite Hc0. }
  simpl in Hle. lia.
Qed.
Lemma finishAll_progress (bs : list (string * Step * begun)) :
  forall d w,
    d_progress (fst (snd (finishAll W backends now sleepW expiredW task stepMap bs (d, w))))
    = d_progress d.
Proof.
  induction bs as [|[[id step] b] rest IH]; intros d w; [reflexivity|].
  simpl finishAll. unfold bind.
  assert (Hp : d_progress (fst (snd (finishStep W backends now sleepW expiredW task
                                       stepMap id step b (d, w))))
               = d_progress d).
  { destruct (launched b) eqn:Hl.
    - apply (finishStep_sets W backends now sleepW expiredW task stepMap id step b d w Hl).
    - destruct b; try discriminate. reflexivity. }
  destruct (finishStep W backends now sleepW expiredW task stepMap id step b (d, w))
    as [o [d0 w0]].
  specialize (IH d0 w0).
  destruct (finishAll W backends now sleepW expiredW task stepMap rest (d0, w0))
    as [os [d2 w2]].
  unfold ret. cbn [fst snd] in *. congruence.
Qed.

(** A tick reports no progress itself. *)
Lemma dag_tick_progress (runnable : list (string * Step)) (d : DagState) (w : W) :
  d_progress (fst (snd (dag_tick W backends now sleepW expiredW task stepMap
                          runnable (d, w))))
  = d_progress d.
Proof.
  unfold dag_tick, bind.
  set (d0 := if (1 <? length runnable)%nat
             then d_push_group (map fst runnable) d else d).
  assert (E0 : (if (1 <? length runnable)%nat
                then upd W (d_push_group (map fst runnable))
                else ret tt) (d, w) = (tt, (d0, w))).
  { unfold d0. destruct (1 <? length runnable)%nat; reflexivity. }
  rewrite E0.
  assert (Hp0 : d_progress d0 = d_progress d).
  { unfold d0. destruct (1 <? length runnable)%nat; reflexivity. }
  pose proof (beginAll_sets runnable d0 w) as Hb. cbv zeta in Hb.
  destruct (beginAll W now task stepMap runnable (d0, w)) as [bs [d1 w1]].
  pose proof (finishAll_progress bs d1 w1) as Hf.
  destruct (finishAll W backends now sleepW expiredW task stepMap bs (d1, w1))
    as [os [d2 w2]].
  unfold ret. cbn [fst snd] in *. destruct Hb as (_ & Hp1 & _). congruence.
Qed.
End TickSets.

(* ================================================================= *)
(** ** The main loop of the DAG runner *)

Lemma last_default {A : Type} (k : A) (l : list A) (a b : A) :
  last (k :: l) a = last (k :: l) b.
Proof.
  revert k. induction l as [|x l IH]; intros k; [reflexivity|].
  change (last (x :: l) a = last (x :: l) b). apply IH.
Qed.

Section DagLoop.
Variable W : Type.
Variable backends : Registry W.
Variable now : W -> Z.
Variable sleepW : Z -> W -> W.
Variable expiredW : Z -> W -> W -> bool.
Variable task : Task.
Variable stepMap : list (string * Step).
Variable steps0 : list Step.
Variable stepIndexToId : list string.

Hypothesis stepMap_size : (length stepMap <= length steps0)%nat.

Let loop := dag_loop W backends now sleepW expiredW task stepMap steps0 stepIndexToId.

Lemma completed_bound (d : DagState) :
  between_ticks stepMap d -> (length (completed d) <= length stepMap)%nat.
Proof.
  intros (_ & _ & Hnd & Hincl).
  rewrite <- (length_map fst stepMap). now apply NoDup_incl_length.
Qed.

(** From a state between two ticks, with one unit of fuel more than the
    steps still to complete, the loop ends; the progress values it reports
    are the percentages of strictly increasing completed counts; when it
    ends normally every declared step is completed; when it ends with an
    error this is the deadlock error of its last state or the error of a
    tick. *)
Lemma dag_loop_run (fuel : nat) :
  forall d w,
    between_ticks stepMap d ->
    (length steps0 + 1 <= fuel + length (completed d))%nat ->
    let out := loop fuel (d, w) in
    let d' := fst (snd out) in
    exists ks,
      d_progress d' = (d_progress d ++ map (fun k => round_pct k (length steps0)) ks)%list
      /\ climbs (length (completed d)) ks
      /\ Forall (fun k => (k <= length stepMap)%nat) ks
      /\ fst out <> None
      /\ (fst out = Some (Ok tt) ->
          (length steps0 <= last ks (length (completed d)))%nat)
      /\ (forall e, fst out = Some (Err e) ->
            (running d' = [] /\ getRunnableSteps stepMap d' = []
             /\ (length (completed d') + length (failed d') < length steps0)%nat
             /\ e = deadlockMessage steps0 stepIndexToId d')
            \/ (exists dx wx r rs,
                  between_ticks stepMap dx
                  /\ getRunnableSteps stepMap dx = r :: rs
                  /\ dag_tick W backends now sleepW expiredW task stepMap (r :: rs)
                       (dx, wx) = (Some e, snd out))).
Proof.
  induction fuel as [|f IH]; intros d w Hbt Hfuel; cbv zeta.
  - pose proof (completed_bound d Hbt). lia.
  - unfold loop. simpl dag_loop. fold loop. unfold bind, look. cbn [fst snd].
    destruct Hbt as (Hrun & Hfail & Hnd & Hincl).
    assert (Hbt : between_ticks stepMap d) by (repeat split; assumption).
    destruct (length (completed d) + length (failed d) <? length steps0)%nat eqn:Hlt.
    2:{ exists []. simpl. rewrite app_nil_r.
        apply Nat.ltb_ge in Hlt. rewrite Hfail in Hlt. simpl in Hlt.
        repeat split; auto; try discriminate.
        - intros _. lia. }
    apply Nat.ltb_lt in Hlt.
    destruct (getRunnableSteps stepMap d) as [|r rs] eqn:Hrunnable.
    + rewrite Hrun. exists []. simpl. rewrite app_nil_r.
      repeat split; auto; try discriminate.
      intros e He. injection He as <-. left. repeat split; assumption.
    + pose proof (dag_tick_between W backends now sleepW expiredW task stepMap
                    d w r rs Hbt Hrunnable) as Htick.
      cbv zeta in Htick.
      destruct (dag_tick W backends now sleepW expiredW task stepMap (r :: rs) (d, w))
        as [err [d1 w1]] eqn:Et.
      cbn [fst snd] in Htick.
      destruct err as [e|].
      * exists []. simpl. unfold ret. cbn [fst snd].
        pose proof (dag_tick_progress W backends now sleepW expiredW task stepMap
                      (r :: rs) d w) as Hp.
        rewrite Et in Hp. cbn [fst snd] in Hp.
        rewrite app_nil_r.
        repeat split; auto; try discriminate.
        intros e' He. injection He as <-. right.
        exists d, w, r, rs. repeat split; assumption.
      * destruct (Htick eq_refl) as (Hbt1 & Hgrow & Hp1).
        unfold upd. cbn [fst snd].
        set (d1' := d_push_progress (round_pct (length (completed d1)) (length steps0)) d1).
        assert (Hbt1' : between_ticks stepMap d1') by exact Hbt1.
        destruct (IH d1' w1 Hbt1') as (ks & Hps & Hcl & Hall & Hnn & Hok & Herr).
        { change (completed d1') with (completed d1). lia. }
        exists (length (completed d1) :: ks).
        change (completed d1') with (completed d1) in *.
        split.
        { rewrite Hps. unfold d1'. simpl d_progress. rewrite Hp1, <- app_assoc.
          reflexivity. }
        split. { simpl. split; assumption. }
        split. { constructor; [apply (completed_bound d1 Hbt1) | exact Hall]. }
        split; [exact Hnn|].
        split.
        { intros H. specialize (Hok H).
          destruct ks as [|k ks']; [exact Hok|].
          change (last (length (completed d1) :: k :: ks') (length (completed d)))
            with (last (k :: ks') (length (completed d))).
          now rewrite (last_default k ks' _ (length (completed d1))). }
        exact Herr.
Qed.
End DagLoop.

(* ================================================================= *)
(** ** The step map *)

Lemma map_set_keys {A : Type} (m : list (string * A)) (k : string) (a : A) :
  map fst (map_set m k a)
  = if map_has m k then map fst m else (map fst m ++ [k])%list.
Proof.
  unfold map_has.
  induction m as [|[k' b] rest IH]; simpl; [reflexivity|].
  destruct (String.eqb k' k); simpl; [reflexivity|].
  rewrite IH. destruct (map_get rest k); reflexivity.
Qed.

Lemma map_has_In {A : Type} (m : list (string * A)) (k : string) :
  map_has m k = true <-> In k (map fst m).
Proof.
  unfold map_has.
  induction m as [|[k' b] rest IH]; simpl; [split; [discriminate | tauto]|].
  destruct (String.eqb_spec k' k) as [->|Hne].
  - split; [now left | reflexivity].
  - rewrite IH. split; [now right | intros [H | H]; [contradiction | exact H]].
Qed.

Lemma buildStepMap_keys (steps0 : list Step) :
  forall index stepMap,
    NoDup (map fst stepMap) ->
    NoDup (map fst (buildStepMap steps0 index stepMap))
    /\ (forall k, In k (map fst (buildStepMap steps0 index stepMap)) <->
                  In k (map fst stepMap) \/ In k (buildIndexToId steps0 index)).
Proof.
  induction steps0 as [|step rest IH]; intros index stepMap Hnd; simpl.
  - split; [exact Hnd | tauto].
  - assert (Hnd' : NoDup (map fst (map_set stepMap (stepIdOf step index) step))).
    { rewrite map_set_keys.
      destruct (map_has stepMap (stepIdOf step index)) eqn:E; [exact Hnd|].
      apply NoDup_app; [exact Hnd | repeat constructor; intros [] |].
      intros k Hk [<- | []]. apply map_has_In in Hk. congruence. }
    destruct (IH (Datatypes.S index) _ Hnd') as [H1 H2].
    split; [exact H1|].
    intros k. rewrite H2, map_set_keys.
    destruct (map_has stepMap (stepIdOf step index)) eqn:E.
    + apply map_has_In in E. split; [tauto|].
      intros [H | [<- | H]]; tauto.
    + rewrite in_app_iff. simpl. tauto.
Qed.

Lemma buildIndexToId_length (steps0 : list Step) (index : nat) :
  length (buildIndexToId steps0 index) = length steps0.
Proof.
  revert index. induction steps0; intros index; simpl; [reflexivity|].
  now rewrite IHsteps0.
Qed.

(** The step map has at most as many entries as there are declared steps,
    and fewer when two declared steps have the same id. *)
Lemma buildStepMap_size (steps0 : list Step) :
  (length (buildStepMap steps0 0 []) <= length steps0)%nat
  /\ (~ NoDup (buildIndexToId steps0 0) ->
      (length (buildStepMap steps0 0 []) < length steps0)%nat).
Proof.
  destruct (buildStepMap_keys steps0 0 [] (NoDup_nil _)) as [Hnd Hin].
  assert (Hincl : incl (map fst (buildStepMap steps0 0 [])) (buildIndexToId steps0 0)).
  { intros k Hk. apply Hin in Hk as [[] | Hk]. exact Hk. }
  rewrite <- (length_map fst (buildStepMap steps0 0 [])).
  rewrite <- (buildIndexToId_length steps0 0).
  split.
  - now apply NoDup_incl_length.
  - intros Hdup.
    destruct (Nat.le_gt_cases (length (buildIndexToId steps0 0))
                (length (map fst (buildStepMap steps0 0 [])))) as [Hle|Hgt];
      [|exact Hgt].
    elim Hdup. exact (NoDup_incl_NoDup Hnd Hle Hincl).
Qed.

Lemma between_ticks_init (stepMap : list (string * Step)) :
  between_ticks stepMap (d_init stepMap).
Proof.
  unfold between_ticks, d_init. simpl.
  repeat split; [constructor | intros x []].
Qed.

(* ================================================================= *)
(** ** A whole run of the DAG runner *)

Section DagRun.
Variable W : Type.
Variable backends : Registry W.
Variable now : W -> Z.
Variable sleepW : Z -> W -> W.
Variable expiredW : Z -> W -> W -> bool.

Lemma dag_run_outcome (task : Task) (d0 : DagState) (w : W) :
  let n := length (stepsOf task) in
  let out := processPipelineDAG W backends now sleepW expiredW task (d0, w) in
  let d' := fst (snd out) in
  exists ks,
    d_progress d' = map (fun k => round_pct k n) ks
    /\ climbs 0 ks
    /\ Forall (fun k => (k <= length (stepMapOf task))%nat) ks
    /\ fst out <> None
    /\ (forall p, fst out = Some (Ok p) -> (n <= last ks 0)%nat)
    /\ (forall e, fst out = Some (Err e) ->
          (running d' = [] /\ getRunnableSteps (stepMapOf task) d' = []
           /\ (length (completed d') + length (failed d') < n)%nat
           /\ e = deadlockMessage (stepsOf task) (idsOf task) d')
          \/ (exists dx wx r rs,
                between_ticks (stepMapOf task) dx
                /\ getRunnableSteps (stepMapOf task) dx = r :: rs
                /\ dag_tick W backends now sleepW expiredW task (stepMapOf task)
                     (r :: rs) (dx, wx) = (Some e, snd out))).
Proof.
  cbv zeta.
  remember (processPipelineDAG W backends now sleepW expiredW task (d0, w))
    as out eqn:Eout.
  unfold processPipelineDAG, dag_run in Eout.
  fold (stepsOf task) in Eout. fold (stepMapOf task) in Eout.
  fold (idsOf task) in Eout.
  unfold bind at 1 in Eout. unfold getNow at 1 in Eout.
  unfold bind at 1 in Eout. unfold upd at 1 in Eout.
  cbn [fst snd] in Eout. unfold bind at 1 in Eout. cbv beta in Eout.
  destruct (dag_loop_run W backends now sleepW expiredW task (stepMapOf task)
              (stepsOf task) (idsOf task)
              (proj1 (buildStepMap_size (stepsOf task)))
              (Datatypes.S (length (stepsOf task)))
              (d_init (stepMapOf task)) w (between_ticks_init _))
    as (ks & Hps & Hcl & Hall & Hnn & Hok & Herr).
  { simpl. lia. }
  destruct (dag_loop W backends now sleepW expiredW task (stepMapOf task)
              (stepsOf task) (idsOf task) (Datatypes.S (length (stepsOf task)))
              (d_init (stepMapOf task), w)) as [r [d1 w1]].
  cbn [fst snd] in *.
  exists ks. destruct r as [[[]|e]|].
  - cbv beta iota zeta delta [bind look getNow d_emit upd ret fst snd] in Eout.
    subst out. cbn [fst snd d_progress d_push_event].
    split; [exact Hps|]. split; [exact Hcl|]. split; [exact Hall|].
    split; [discriminate|]. split; [intros p _; now apply Hok | discriminate].
  - unfold ret in Eout. subst out. cbn [fst snd].
    split; [exact Hps|]. split; [exact Hcl|]. split; [exact Hall|].
    split; [discriminate|]. split; [discriminate|].
    intros e' He. injection He as <-. now apply Herr.
  - exfalso. apply Hnn. reflexivity.
Qed.

(** [processTask] hands a pipeline with an id or a dependency to the DAG
    runner. *)
Lemma processTask_dag (task : Task) (w : W) (s : Step) (rest : list Step) :
  t_steps task = Some (s :: rest) ->
  existsb declaresGraph (s :: rest) = true ->
  let out := processTask W backends now sleepW expiredW task w in
  let run := processPipelineDAG W backends now sleepW expiredW task (d_init [], w) in
  fst (fst out) = match fst run with
                  | None => None
                  | Some (Ok p) => Some (Ok (Pipeline p))
                  | Some (Err e) => Some (Err e)
                  end
  /\ progressSeen (snd (fst out)) = d_progress (fst (snd run))
  /\ statusesLeft (snd (fst out)) = map snd (stepStatuses (fst (snd run))).
Proof.
  intros Hs Hg. cbv zeta. unfold processTask. rewrite Hs, Hg.
  destruct (processPipelineDAG W backends now sleepW expiredW task (d_init [], w))
    as [r [d w']].
  repeat split.
Qed.

End DagRun.

(* ================================================================= *)
(** ** Progress percentages *)








Lemma last_map {A B : Type} (f : A -> B) (l : list A) (d : A) :
  last (map f l) (f d) = f (last l d).
Proof.
  induction l as [|a l IH]; [reflexivity|].
  destruct l as [|b l']; [reflexivity|].
  change (last (map f (b :: l')) (f d) = f (last (b :: l') d)). exact IH.
Qed.


(* ================================================================= *)
(** ** Progress of the sequential runner *)

Section SeqProgress.
Variable W : Type.
Variable backends : Registry W.
Variable now : W -> Z.
Variable sleepW : Z -> W -> W.
Variable expiredW : Z -> W -> W -> bool.
Variable task : Task.






End SeqProgress.

(* ================================================================= *)
(** ** The progress reports of a pipeline *)

Section Progress.
Variable W : Type.
Variable backends : Registry W.
Variable now : W -> Z.
Variable sleepW : Z -> W -> W.
Variable expiredW : Z -> W -> W -> bool.

End Progress.



(* ================================================================= *)
(** ** Deadlock *)

Section Deadlock.
Variable W : Type.
Variable backends : Registry W.
Variable now : W -> Z.
Variable sleepW : Z -> W -> W.
Variable expiredW : Z -> W -> W -> bool.

Lemma remainingTasks_In (steps0 : list Step) (ids : list string) (d : DagState)
  (t : string) :
  In t (remainingTasks steps0 ids d) <->
  exists step id, In (step, id) (combine steps0 ids)
                  /\ ~ In id (completed d) /\ ~ In id (failed d)
                  /\ t = s_task step.
Proof.
  unfold remainingTasks. rewrite in_map_iff. split.
  - intros [[step id] [<- Hin]]. apply filter_In in Hin as [Hin Hb].
    simpl in Hb. apply andb_prop in Hb as [Hc Hf].
    apply negb_true_iff in Hc, Hf.
    exists step, id. repeat split; try assumption.
    + rewrite <- set_has_In. congruence.
    + rewrite <- set_has_In. congruence.
  - intros (step & id & Hin & Hc & Hf & ->).
    exists (step, id). split; [reflexivity|].
    apply filter_In. split; [exact Hin|]. simpl.
    rewrite <- set_has_In in Hc, Hf.
    destruct (set_has (completed d) id); [now elim Hc|].
    destruct (set_has (failed d) id); [now elim Hf | reflexivity].
Qed.

Lemma dag_loop_deadlock (task : Task) (stepMap : list (string * Step))
  (steps0 : list Step) (ids : list string) (fuel : nat) (d : DagState) (w : W) :
  (length (completed d) + length (failed d) < length steps0)%nat ->
  getRunnableSteps stepMap d = [] ->
  running d = [] ->
  dag_loop W backends now sleepW expiredW task stepMap steps0 ids
    (Datatypes.S fuel) (d, w)
  = (Some (Err (deadlockMessage steps0 ids d)), (d, w)).
Proof.
  intros Hlt Hr Hrun.
  simpl dag_loop. unfold bind, look. cbn [fst snd].
  apply Nat.ltb_lt in Hlt. rewrite Hlt, Hr, Hrun. reflexivity.
Qed.

(** C3.  When a tick of the DAG runner finds no runnable step and no
    running step while some step is not yet completed or failed, the run
    rejects with
    [Pipeline deadlock: cannot run remaining steps [<task, ...>]. Check for
    circular dependencies or missing dependency IDs.], the list holding the
    task types of the steps whose id is neither completed nor failed.  The
    loop always ends; and the cycle [a dependsOn b, b dependsOn a] gives
    this error. *)
Theorem pipeline_deadlock :
  (forall task stepMap steps0 ids fuel d w,
     (length (completed d) + length (failed d) < length steps0)%nat ->
     getRunnableSteps stepMap d = [] ->
     running d = [] ->
     dag_loop W backends now sleepW expiredW task stepMap steps0 ids
       (Datatypes.S fuel) (d, w)
     = (Some (Err ("Pipeline deadlock: cannot run remaining steps ["
                     ++ String.concat ", " (remainingTasks steps0 ids d) ++ "]. "
                     ++ "Check for circular dependencies or missing dependency IDs.")),
        (d, w)))
  /\ (forall steps0 ids d t,
        In t (remainingTasks steps0 ids d) <->
        exists step id, In (step, id) (combine steps0 ids)
                        /\ ~ In id (completed d) /\ ~ In id (failed d)
                        /\ t = s_task step)
  /\ (forall task d0 w,
        fst (processPipelineDAG W backends now sleepW expiredW task (d0, w)) <> None)
  /\ (forall task w sa sb a b,
        t_steps task = Some [sa; sb] ->
        stepIdOf sa 0 = a -> stepIdOf sb 1 = b -> a <> b ->
        dependsOn sa = Some [b] -> dependsOn sb = Some [a] ->
        fst (fst (processTask W backends now sleepW expiredW task w))
        = Some (Err ("Pipeline deadlock: cannot run remaining steps ["
                       ++ String.concat ", " [s_task sa; s_task sb] ++ "]. "
                       ++ "Check for circular dependencies or missing dependency IDs."))).
Proof.
  split.
  { intros task stepMap steps0 ids fuel d w Hlt Hr Hrun.
    now apply dag_loop_deadlock. }
  split; [exact remainingTasks_In|].
  split.
  { intros task d0 w.
    destruct (dag_run_outcome W backends now sleepW expiredW task d0 w)
      as (ks & _ & _ & _ & Hnn & _). exact Hnn. }
  intros task w sa sb a b Hsteps Ha Hb Hab Hda Hdb.
  assert (Hg : existsb declaresGraph [sa; sb] = true).
  { simpl. unfold declaresGraph. rewrite Hda. reflexivity. }
  destruct (processTask_dag W backends now sleepW expiredW task w sa [sb] Hsteps Hg)
    as (Hr & _). rewrite Hr. clear Hr.
  unfold processPipelineDAG, dag_run. rewrite Hsteps.
  unfold bind at 1. unfold getNow at 1. unfold bind at 1. unfold upd at 1.
  cbn [fst snd]. unfold bind at 1. cbv beta.
  assert (Hmap : buildStepMap [sa; sb] 0 [] = [(a, sa); (b, sb)]).
  { simpl. rewrite Ha, Hb.
    replace (String.eqb a b) with false by (symmetry; now apply String.eqb_neq).
    reflexivity. }
  assert (Hids : buildIndexToId [sa; sb] 0 = [a; b]).
  { simpl. now rewrite Ha, Hb. }
  rewrite Hmap, Hids.
  assert (Hrun : getRunnableSteps [(a, sa); (b, sb)] (d_init [(a, sa); (b, sb)]) = []).
  { unfold getRunnableSteps, canRun. simpl. rewrite Hda, Hdb. reflexivity. }
  rewrite (dag_loop_deadlock task [(a, sa); (b, sb)] [sa; sb] [a; b] (length [sa; sb])
             (d_init [(a, sa); (b, sb)]) w);
    [reflexivity | simpl; lia | exact Hrun | reflexivity].
Qed.
End Deadlock.

Lemma pipeline_deadlock_witness :
  fst (fst (Mock.run (Mock.pipeline
                        [Mock.mkStep (Some "a") "x" (Some ["b"]);
                         Mock.mkStep (Some "b") "y" (Some ["a"])])))
  = Some (Err ("Pipeline deadlock: cannot run remaining steps [x, y]. "
                 ++ "Check for circular dependencies or missing dependency IDs.")).
Proof.
  exact (proj2 (proj2 (proj2 (pipeline_deadlock Mock.World Mock.registry Mock.clock
                                Mock.tick Mock.expired)))
           (Mock.pipeline [Mock.mkStep (Some "a") "x" (Some ["b"]);
                           Mock.mkStep (Some "b") "y" (Some ["a"])])
           Mock.w0 _ _ "a" "b" eq_refl eq_refl eq_refl
           ltac:(discriminate) eq_refl eq_refl).
Defined.

(* ================================================================= *)
(** ** Steps sharing an id *)

Section DuplicateIds.
Variable W : Type.
Variable backends : Registry W.
Variable now : W -> Z.
Variable sleepW : Z -> W -> W.
Variable expiredW : Z -> W -> W -> bool.

End DuplicateIds.



(* ================================================================= *)
(** ** Durations of skipped steps *)

(** C5 fails in the DAG runner: a step skipped by its [runWhen] condition
    ends with status skipped and neither [duration] nor [completedAt]. *)
Lemma dag_skip_without_duration :
  map (fun s => (st_id s, status s, duration s, completedAt s))
    (statusesLeft (snd (fst (Mock.run lazyDag))))
  = [("lazy", Skipped, None, None)]
  /\ exists p,
       fst (fst (Mock.run lazyDag)) = Some (Ok (Pipeline p))
       /\ map (fun s => (status s, duration s)) (stepStatus p) = [(Skipped, None)].
Proof. split; [vm_compute; reflexivity|]. eexists. split; vm_compute; reflexivity. Qed.

(** The sequential runner sets both for the same step. *)
Lemma sequential_skip_with_duration :
  map (fun s => (st_id s, status s, duration s, completedAt s))
    (statusesLeft (snd (fst (Mock.run lazySequential))))
  = [("step_0", Skipped, Some 0%Z, Some 0%Z)].
Proof. vm_compute. reflexivity. Qed.

(* ================================================================= *)
(** ** Fan-out over the items of a [forEach] *)





Section ForEach.
Variable W : Type.
Variable backends : Registry W.
Variable now : W -> Z.
Variable sleepW : Z -> W -> W.
Variable expiredW : Z -> W -> W -> bool.
Variable task : Task.
Variable stepMap : list (string * Step).









End ForEach.



Section ForEachClaim.
Variable W : Type.
Variable backends : Registry W.
Variable now : W -> Z.
Variable sleepW : Z -> W -> W.
Variable expiredW : Z -> W -> W -> bool.
Variable task : Task.
Variable stepMap : list (string * Step).


End ForEachClaim.

Example forEach_doubling :
  match fst (fst (Mock.run (itemsTask [doubling]))) with
  | Some (Ok (Pipeline p)) =>
      obj_get (stepResults p) "process"
      = VArr [VObj [("processed", VNum 1); ("doubled", VNum 2)];
              VObj [("processed", VNum 2); ("doubled", VNum 4)];
              VObj [("processed", VNum 3); ("doubled", VNum 6)];
              VObj [("processed", VNum 4); ("doubled", VNum 8)];
              VObj [("processed", VNum 5); ("doubled", VNum 10)]]
  | _ => False
  end.
Proof. vm_compute. reflexivity. Qed.


(* ================================================================= *)
(** * Further properties of the engine *)

(* ================================================================= *)
(** ** The registry *)

Lemma map_get_set_same {A : Type} (m : list (string * A)) (k : string) (a : A) :
  map_get (map_set m k a) k = Some a.
Proof.
  induction m as [|[k' b] rest IH]; simpl.
  - now rewrite String.eqb_refl.
  - destruct (String.eqb k' k) eqn:E; simpl; rewrite E; [reflexivity | exact IH].
Qed.

Lemma map_get_set_other {A : Type} (m : list (string * A)) (k k' : string) (a : A) :
  k' <> k -> map_get (map_set m k a) k' = map_get m k'.
Proof.
  intros Hne. induction m as [|[k0 b] rest IH]; simpl.
  - replace (String.eqb k k') with false
      by (symmetry; apply String.eqb_neq; congruence).
    reflexivity.
  - destruct (String.eqb_spec k0 k) as [->|Hk]; simpl.
    + replace (String.eqb k k') with false
        by (symmetry; apply String.eqb_neq; congruence).
      reflexivity.
    + destruct (String.eqb k0 k'); [reflexivity | exact IH].
Qed.

Lemma map_get_None {A : Type} (m : list (string * A)) (k : string) :
  map_get m k = None <-> ~ In k (map fst m).
Proof.
  rewrite <- map_has_In. unfold map_has.
  destruct (map_get m k); split; try discriminate; try reflexivity.
  intros H. now elim H.
Qed.

Lemma map_delete_keys {A : Type} (m : list (string * A)) (k : string) :
  NoDup (map fst m) ->
  (forall k', In k' (map fst (map_delete m k)) <-> In k' (map fst m) /\ k' <> k)
  /\ NoDup (map fst (map_delete m k)).
Proof.
  induction m as [|[k0 b] rest IH]; intros Hnd; simpl.
  - split; [intros k'; tauto | constructor].
  - inversion Hnd as [|x l Hnotin Hnd']; subst.
    destruct (IH Hnd') as [IH1 IH2].
    destruct (String.eqb_spec k0 k) as [->|Hk]; simpl.
    + split; [|exact Hnd'].
      intros k'. split.
      * intros H. split; [now right|]. intros ->. contradiction.
      * intros [[H | H] Hne]; [congruence | exact H].
    + split.
      * intros k'. rewrite IH1. split.
        -- intros [<- | [H Hne]]; [split; [now left | congruence] | tauto].
        -- intros [[H | H] Hne]; [now left | right; tauto].
      * constructor; [|exact IH2]. rewrite IH1. tauto.
Qed.

Lemma map_get_delete {A : Type} (m : list (string * A)) (k k' : string) :
  NoDup (map fst m) ->
  map_get (map_delete m k) k' = if String.eqb k' k then None else map_get m k'.
Proof.
  induction m as [|[k0 b] rest IH]; intros Hnd; simpl.
  - now destruct (String.eqb k' k).
  - inversion Hnd as [|x l Hnotin Hnd']; subst.
    destruct (String.eqb_spec k0 k) as [Hk|Hk]; simpl.
    + subst k0. destruct (String.eqb_spec k' k) as [Hk'|Hk'].
      * subst k'. now apply map_get_None.
      * replace (String.eqb k k') with false
          by (symmetry; apply String.eqb_neq; congruence).
        reflexivity.
    + destruct (String.eqb_spec k0 k') as [Hk0|Hk0].
      * subst k0. replace (String.eqb k' k) with false
          by (symmetry; now apply String.eqb_neq).
        reflexivity.
      * now apply IH.
Qed.

Section RegistryFacts.
Variable W : Type.

(** Registering a backend makes it the one found under its name, leaves
    every other name as it was, and keeps the number and order of the
    registered names when the name was registered already (the entry is
    replaced in place); a new name is appended. *)
Theorem register_lookup (backend : Backend W) (backends : Registry W) :
  getBackend W (name W backend) (registerBackend W backend backends) = Some backend
  /\ (forall nm, nm <> name W backend ->
        getBackend W nm (registerBackend W backend backends) = getBackend W nm backends)
  /\ (In (name W backend) (map fst backends) ->
      map fst (registerBackend W backend backends) = map fst backends)
  /\ (~ In (name W backend) (map fst backends) ->
      registerBackend W backend backends = (backends ++ [(name W backend, backend)])%list)
  /\ (NoDup (map fst backends) ->
      NoDup (map fst (registerBackend W backend backends))).
Proof.
  unfold getBackend, registerBackend.
  split; [apply map_get_set_same|].
  split; [intros nm Hne; now apply map_get_set_other|].
  split.
  { intros Hin. rewrite map_set_keys.
    apply map_has_In in Hin. now rewrite Hin. }
  split.
  { intros Hnot. induction backends as [|[k b] rest IH]; simpl; [reflexivity|].
    destruct (String.eqb_spec k (name W backend)) as [->|Hk].
    - elim Hnot. now left.
    - rewrite IH; [reflexivity|]. intros H. apply Hnot. now right. }
  intros Hnd. rewrite map_set_keys.
  destruct (map_has backends (name W backend)) eqn:E; [exact Hnd|].
  apply NoDup_app; [exact Hnd | repeat constructor; intros [] |].
  intros k Hk [<- | []]. apply map_has_In in Hk. congruence.
Qed.

(** Unregistering answers whether the name was registered; afterwards the
    name is not found, every other name is found as before, and the names
    stay distinct. *)
Theorem unregister_lookup (nm : string) (backends : Registry W)
  (Hnames : NoDup (map fst backends)) :
  (fst (unregisterBackend W nm backends) = true <-> In nm (map fst backends))
  /\ getBackend W nm (snd (unregisterBackend W nm backends)) = None
  /\ (forall nm', nm' <> nm ->
        getBackend W nm' (snd (unregisterBackend W nm backends))
        = getBackend W nm' backends)
  /\ NoDup (map fst (snd (unregisterBackend W nm backends))).
Proof.
  unfold unregisterBackend, getBackend. simpl.
  split; [apply map_has_In|].
  split. { rewrite map_get_delete by exact Hnames. now rewrite String.eqb_refl. }
  split.
  { intros nm' Hne. rewrite map_get_delete by exact Hnames.
    replace (String.eqb nm' nm) with false by (symmetry; now apply String.eqb_neq).
    reflexivity. }
  exact (proj2 (map_delete_keys backends nm Hnames)).
Qed.
End RegistryFacts.

Lemma unregister_lookup_witness :
  NoDup (map fst registry4)
  /\ getBackend Mock.World "busy" (snd (unregisterBackend Mock.World "busy" registry4))
     = None.
Proof.
  assert (Hnd : NoDup (map fst registry4)).
  { simpl. repeat constructor; simpl; intuition discriminate. }
  split; [exact Hnd|].
  exact (proj1 (proj2 (unregister_lookup Mock.World "busy" registry4 Hnd))).
Defined.

(* ================================================================= *)
(** ** The records of the sequential runner *)

Lemma settled_erase (s : StepStatus) : settled (erase_attempt s) <-> settled s.
Proof. unfold settled. simpl. tauto. Qed.

Lemma under_way_erase (id : string) (l l' : list StepStatus) :
  map erase_attempt l' = map erase_attempt l -> under_way id l -> under_way id l'.
Proof.
  unfold under_way. intros He H.
  assert (Hm : forall k, Forall (fun s => startedAt s <> None
                                          /\ (st_id s <> id -> settled s)) k
                         <-> Forall (fun s => startedAt s <> None
                                              /\ (st_id s <> id -> settled s))
                               (map erase_attempt k)).
  { intros k. rewrite Forall_map. split; apply Forall_impl; intros a;
      unfold settled; simpl; tauto. }
  apply (proj2 (Hm l')). rewrite He. apply (proj1 (Hm l)). exact H.
Qed.

Lemma update_under_way (id : string) (f : StepStatus -> StepStatus)
  (l : list StepStatus) :
  (forall s, st_id (f s) = st_id s /\ startedAt (f s) = startedAt s) ->
  under_way id l ->
  under_way id (map (fun s => if String.eqb (st_id s) id then f s else s) l).
Proof.
  unfold under_way. intros Hf H. rewrite Forall_map.
  revert H. apply Forall_impl. intros s [Hs Ho].
  destruct (String.eqb_spec (st_id s) id) as [E|E]; [|now split].
  destruct (Hf s) as [Hi Ht]. rewrite Hi, Ht. split; [exact Hs|]. congruence.
Qed.

Lemma update_settles (id : string) (f : StepStatus -> StepStatus)
  (l : list StepStatus) :
  (forall s, startedAt s <> None -> settled (f s)) ->
  under_way id l ->
  Forall settled (map (fun s => if String.eqb (st_id s) id then f s else s) l).
Proof.
  unfold under_way. intros Hf H. rewrite Forall_map.
  revert H. apply Forall_impl. intros s [Hs Ho].
  destruct (String.eqb_spec (st_id s) id) as [E|E]; [now apply Hf | now apply Ho].
Qed.

Lemma update_labels (id : string) (f : StepStatus -> StepStatus)
  (l : list StepStatus) :
  (forall s, st_id (f s) = st_id s /\ st_task (f s) = st_task s) ->
  map st_id (map (fun s => if String.eqb (st_id s) id then f s else s) l)
  = map st_id l
  /\ map st_task (map (fun s => if String.eqb (st_id s) id then f s else s) l)
    = map st_task l.
Proof.
  intros Hf. rewrite !map_map. split; apply map_ext; intros s;
    destruct (String.eqb (st_id s) id); try reflexivity; apply Hf.
Qed.

Lemma erase_labels (l l' : list StepStatus) :
  map erase_attempt l' = map erase_attempt l ->
  map st_id l' = map st_id l /\ map st_task l' = map st_task l.
Proof.
  intros H. split.
  - apply (f_equal (map st_id)) in H. now rewrite !map_map in H.
  - apply (f_equal (map st_task)) in H. now rewrite !map_map in H.
Qed.

Section SeqRecords.
Variable W : Type.
Variable backends : Registry W.
Variable now : W -> Z.
Variable sleepW : Z -> W -> W.
Variable expiredW : Z -> W -> W -> bool.
Variable task : Task.

Lemma q_skip_closes (stepId0 : string) (step : Step) (marker evdata : value)
  (s : SeqState * W) :
  closes stepId0 step s (q_skip W now stepId0 step marker evdata s).
Proof.
  cbv beta iota zeta delta [closes q_skip bind upd getNow q_emit ret fst snd
    q_stepStatuses q_stepResults q_push_event q_push_result q_update_status].
  destruct (update_labels stepId0
              (fun s0 => set_duration (Some 0%Z)
                           (set_completedAt (now (snd s)) (set_status Skipped s0)))
              (q_stepStatuses (fst s))) as [Hi Ht]; [intros; split; reflexivity|].
  split; [exact Hi|]. split; [exact Ht|]. split.
  - intros _. rewrite length_app. simpl. lia.
  - intros H _. apply update_settles; [|exact H].
    intros s0 Hs. unfold settled. simpl. repeat split; try assumption;
      try discriminate. now right.
Qed.

Lemma q_settle_closes (stepId0 : string) (step : Step) (r : result value)
  (s : SeqState * W) :
  closes stepId0 step s (q_settle W now stepId0 step r s).
Proof.
  assert (Hstamp : forall t x s0, (x = Completed \/ x = Skipped) ->
             startedAt s0 <> None -> settled (stamp_completion t (set_status x s0))).
  { intros t x s0 Hx Hs. unfold settled, stamp_completion. simpl.
    destruct (startedAt s0); [|congruence].
    repeat split; try assumption; discriminate. }
  unfold closes, q_settle.
  destruct r as [v|e]; [|destruct (is_true (optional step))];
    cbv beta iota zeta delta [bind upd getNow q_emit ret fst snd
      q_stepStatuses q_stepResults q_push_event q_push_result q_update_status].
  - destruct (update_labels stepId0
                (fun s0 => set_result v (stamp_completion (now (snd s))
                                           (set_status Completed s0)))
                (q_stepStatuses (fst s))) as [Hi Ht]; [intros; split; reflexivity|].
    split; [exact Hi|]. split; [exact Ht|]. split.
    + intros _. rewrite length_app. simpl. lia.
    + intros H _. apply update_settles; [|exact H].
      intros s0 Hs.
      pose proof (Hstamp (now (snd s)) Completed s0 (or_introl eq_refl) Hs) as Hd.
      unfold settled in *. simpl in *. exact Hd.
  - destruct (update_labels stepId0
                (fun s0 => set_error e (stamp_completion (now (snd s))
                                          (set_status Skipped s0)))
                (q_stepStatuses (fst s))) as [Hi Ht]; [intros; split; reflexivity|].
    split; [exact Hi|]. split; [exact Ht|]. split.
    + intros _. rewrite length_app. simpl. lia.
    + intros H _. apply update_settles; [|exact H].
      intros s0 Hs.
      pose proof (Hstamp (now (snd s)) Skipped s0 (or_intror eq_refl) Hs) as Hd.
      unfold settled in *. simpl in *. exact Hd.
  - destruct (update_labels stepId0
                (fun s0 => set_error e (stamp_completion (now (snd s))
                                          (set_status Failed s0)))
                (q_stepStatuses (fst s))) as [Hi Ht]; [intros; split; reflexivity|].
    split; [exact Hi|]. split; [exact Ht|]. split; [discriminate|].
    intros _ H. discriminate.
Qed.

Lemma q_exec_closes (stepId0 : string) (step : Step) (s : SeqState * W) :
  closes stepId0 step s
    (q_exec W backends now sleepW expiredW task stepId0 step s).
Proof.
  unfold q_exec.
  unfold bind at 1. unfold upd at 1. unfold bind at 1.
  unfold q_emit at 1. unfold bind at 1. unfold getNow at 1. unfold upd at 1.
  unfold bind at 1. unfold look at 1. cbn [fst snd]. unfold bind at 1.
  match goal with
  | |- context [runStepTask W backends sleepW expiredW ?note task step ?st ?l ?s0] =>
      pose proof (runStepTask_view W backends sleepW expiredW SeqState SeqState
                    note q_core (q_core_note stepId0) task step st l s0) as Hv;
      destruct (runStepTask W backends sleepW expiredW note task step st l s0)
        as [r s1]
  end.
  cbn [fst snd] in Hv. unfold q_core in Hv. injection Hv as Hr Hst _ _.
  cbn [q_stepStatuses q_stepResults q_push_event q_update_status] in Hr, Hst.
  destruct (erase_labels _ _ Hst) as [Hi Ht].
  destruct (update_labels stepId0 (set_status Running) (q_stepStatuses (fst s)))
    as [Hi' Ht']; [intros; split; reflexivity|].
  destruct (q_settle_closes stepId0 step r s1) as (Ci & Ct & Cr & Cs).
  unfold closes. split; [now rewrite Ci, Hi, Hi'|].
  split; [now rewrite Ct, Ht, Ht'|].
  split; [intros H; rewrite (Cr H), Hr; reflexivity|].
  intros H Hok. apply Cs; [|exact Hok].
  apply (under_way_erase stepId0 _ _ Hst).
  apply update_under_way; [intros; split; reflexivity | exact H].
Qed.

Lemma q_iteration_branches (n : nat) (step : Step) (i : nat) (s : SeqState * W) :
  let id := "step_" ++ string_of_nat i in
  let s1 := (q_push_status (newStatus id (s_task step) (Some (now (snd s))))
               (q_push_progress (round_pct i n) (fst s)), snd s) in
  q_iteration W backends now sleepW expiredW task n step i s
  = match conditional step with
    | Some c =>
        if String.eqb c "on-demand" then
          q_skip W now id step skip_on_demand (VObj [("skipped", VBool true)]) s1
        else if truthy (must (resolveTemplate c (q_context task (fst s1))))
             then q_exec W backends now sleepW expiredW task id step s1
             else q_skip W now id step (skip_condition c)
                    (VObj [("skipped", VBool true); ("condition", VStr c)]) s1
    | None => q_exec W backends now sleepW expiredW task id step s1
    end.
Proof.
  cbv beta iota zeta delta [q_iteration bind upd getNow look fst snd].
  destruct (conditional step) as [c|]; [|reflexivity].
  destruct (String.eqb c "on-demand"); [reflexivity|].
  match goal with
  | |- _ = (if truthy ?x then _ else _) => destruct (truthy x)
  end; reflexivity.
Qed.

(** An iteration adds the record of its step, ["step_" + i] with the
    step's task, and, unless it throws, one result; the records are then
    all settled, if those before were. *)
Lemma q_iteration_records (n : nat) (step : Step) (i : nat) (s : SeqState * W) :
  let out := q_iteration W backends now sleepW expiredW task n step i s in
  map st_id (q_stepStatuses (fst (snd out)))
  = (map st_id (q_stepStatuses (fst s)) ++ [("step_" ++ string_of_nat i)%string])%list
  /\ map st_task (q_stepStatuses (fst (snd out)))
     = (map st_task (q_stepStatuses (fst s)) ++ [s_task step])%list
  /\ (fst out = Ok tt ->
      length (q_stepResults (fst (snd out)))
      = Datatypes.S (length (q_stepResults (fst s))))
  /\ (Forall settled (q_stepStatuses (fst s)) -> fst out = Ok tt ->
      Forall settled (q_stepStatuses (fst (snd out)))).
Proof.
  cbv zeta. pose proof (q_iteration_branches n step i s) as Eq. cbv zeta in Eq.
  rewrite Eq. clear Eq.
  set (id := "step_" ++ string_of_nat i).
  set (s1 := (q_push_status (newStatus id (s_task step) (Some (now (snd s))))
                (q_push_progress (round_pct i n) (fst s)), snd s)).
  assert (Hall : forall out, closes id step s1 out ->
    map st_id (q_stepStatuses (fst (snd out)))
    = (map st_id (q_stepStatuses (fst s)) ++ [id])%list
    /\ map st_task (q_stepStatuses (fst (snd out)))
       = (map st_task (q_stepStatuses (fst s)) ++ [s_task step])%list
    /\ (fst out = Ok tt ->
        length (q_stepResults (fst (snd out)))
        = Datatypes.S (length (q_stepResults (fst s))))
    /\ (Forall settled (q_stepStatuses (fst s)) -> fst out = Ok tt ->
        Forall settled (q_stepStatuses (fst (snd out))))).
  { intros out (Ci & Ct & Cr & Cs). unfold s1 in Ci, Ct, Cr, Cs.
    cbn [fst snd q_stepStatuses q_stepResults q_push_status q_push_progress]
      in Ci, Ct, Cr, Cs.
    rewrite map_app in Ci, Ct. simpl in Ci, Ct.
    split; [exact Ci|]. split; [exact Ct|]. split; [exact Cr|].
    intros H Hok. apply Cs; [|exact Hok].
    unfold under_way. apply Forall_app. split.
    - revert H. apply Forall_impl. intros a Ha. split; [apply Ha | intros _; exact Ha].
    - constructor; [|constructor]. simpl. split; [discriminate|].
      intros Hne. now elim Hne. }
  destruct (conditional step) as [c|]; [|apply Hall, q_exec_closes].
  destruct (String.eqb c "on-demand"); [apply Hall, q_skip_closes|].
  match goal with |- context [truthy ?x] => destruct (truthy x) end;
    [apply Hall, q_exec_closes | apply Hall, q_skip_closes].
Qed.

Lemma q_loop_records (n : nat) (rest : list Step) :
  forall i s,
    let out := q_loop W backends now sleepW expiredW task n rest i s in
    fst out = Ok tt ->
    map st_id (q_stepStatuses (fst (snd out)))
    = (map st_id (q_stepStatuses (fst s))
       ++ map (fun k => ("step_" ++ string_of_nat k)%string)
            (seq i (length rest)))%list
    /\ map st_task (q_stepStatuses (fst (snd out)))
       = (map st_task (q_stepStatuses (fst s)) ++ map s_task rest)%list
    /\ length (q_stepResults (fst (snd out)))
       = (length (q_stepResults (fst s)) + length rest)%nat
    /\ (Forall settled (q_stepStatuses (fst s)) ->
        Forall settled (q_stepStatuses (fst (snd out)))).
Proof.
  induction rest as [|step rest IH]; intros i s; cbv zeta.
  - intros _. simpl. rewrite !app_nil_r. repeat split; auto.
  - simpl q_loop. unfold bind.
    pose proof (q_iteration_records n step i s) as Hit. cbv zeta in Hit.
    destruct (q_iteration W backends now sleepW expiredW task n step i s)
      as [r s1].
    cbn [fst snd] in Hit. destruct Hit as (Hi & Ht & Hr & Hs).
    destruct r as [[]|e]; [|discriminate].
    intros Hok. destruct (IH (Datatypes.S i) s1 Hok) as (Ii & It & Ir & Is).
    split; [rewrite Ii, Hi, <- app_assoc; reflexivity|].
    split; [rewrite It, Ht, <- app_assoc; reflexivity|].
    split; [rewrite Ir, (Hr eq_refl); simpl; lia|].
    intros H. apply Is. now apply Hs.
Qed.

(** A sequential run that returns a result returns one result and one
    record per step, in the order of the steps: the record of step [i] has
    the id ["step_" + i] and the step's task, is completed or skipped, and
    has its start time, completion time and duration set.  There are no
    parallel groups, and the final result is the last of the results. *)
Theorem sequential_result_shape (w : W) (p : PipelineResult)
  (Hok : fst (processPipelineSequential W backends now sleepW expiredW task
                (q_init, w)) = Ok p) :
  length (steps p) = length (stepsOf task)
  /\ map st_id (stepStatus p) = sequentialIds (length (stepsOf task))
  /\ map st_task (stepStatus p) = map s_task (stepsOf task)
  /\ Forall settled (stepStatus p)
  /\ parallelGroups p = []
  /\ finalResult p = last (steps p) VUndef.
Proof.
  unfold processPipelineSequential in Hok. fold (stepsOf task) in Hok.
  unfold bind at 1 in Hok. unfold getNow at 1 in Hok. unfold bind at 1 in Hok.
  cbn [fst snd] in Hok.
  pose proof (q_loop_records (length (stepsOf task)) (stepsOf task) 0 (q_init, w))
    as Hl. cbv zeta in Hl.
  destruct (q_loop W backends now sleepW expiredW task (length (stepsOf task))
              (stepsOf task) 0 (q_init, w)) as [r [q1 w1]].
  cbn [fst snd] in Hl. destruct r as [[]|e]; [|discriminate].
  destruct (Hl eq_refl) as (Hi & Ht & Hr & Hs).
  cbv beta iota zeta delta [bind look getNow q_emit upd ret fst snd] in Hok.
  injection Hok as <-. cbn [steps stepStatus parallelGroups finalResult].
  cbn [q_stepResults q_stepStatuses q_push_event].
  simpl in Hi, Ht, Hr. repeat split; try assumption.
  apply Hs. constructor.
Qed.
End SeqRecords.

Lemma sequential_result_shape_witness :
  exists p,
    fst (processPipelineSequential Mock.World Mock.registry Mock.clock Mock.tick
           Mock.expired lazySequential (q_init, Mock.w0)) = Ok p
    /\ Forall settled (stepStatus p).
Proof.
  eexists. split; [vm_compute; reflexivity|].
  refine (proj1 (proj2 (proj2 (proj2
    (sequential_result_shape Mock.World Mock.registry Mock.clock Mock.tick
       Mock.expired lazySequential Mock.w0 _ _))))).
  vm_compute. reflexivity.
Defined.

(* ================================================================= *)
(** ** The records and the completed set of the DAG runner *)

Lemma set_add_extends (l : list string) (x : string) :
  exists extra, set_add l x = (l ++ extra)%list /\ incl extra [x].
Proof.
  unfold set_add. destruct (set_has l x).
  - exists []. rewrite app_nil_r. split; [reflexivity | intros y []].
  - exists [x]. split; [reflexivity | apply incl_refl].
Qed.

Lemma others_kept_refl (id : string) (d : DagState) : others_kept id d d.
Proof. intros k s H _. now exists s. Qed.

Lemma others_kept_trans (id : string) (d d1 d2 : DagState) :
  others_kept id d d1 -> others_kept id d1 d2 -> others_kept id d d2.
Proof.
  intros H1 H2 k s2 Hin Hne.
  destruct (H2 k s2 Hin Hne) as (s1 & Hin1 & E1).
  destruct (H1 k s1 Hin1 Hne) as (s & Hin0 & E0).
  exists s. split; [exact Hin0 | congruence].
Qed.

Lemma quiet_refl (id : string) (d : DagState) : quiet id d d.
Proof. repeat split. apply others_kept_refl. Qed.

Lemma quiet_trans (id : string) (d d1 d2 : DagState) :
  quiet id d d1 -> quiet id d1 d2 -> quiet id d d2.
Proof.
  intros (G1 & L1 & O1 & C1) (G2 & L2 & O2 & C2).
  split; [congruence|]. split; [congruence|].
  split; [exact (others_kept_trans id d d1 d2 O1 O2) | congruence].
Qed.

Lemma quiet_step_change (id : string) (d d' : DagState) :
  quiet id d d' -> step_change id d d'.
Proof.
  intros (G & L & O & C).
  split; [exact G|]. split; [exact L|]. split; [exact O | now left].
Qed.

Lemma quiet_then_change (id : string) (d d1 d2 : DagState) :
  quiet id d d1 -> step_change id d1 d2 -> step_change id d d2.
Proof.
  intros (G1 & L1 & O1 & C1) (G2 & L2 & O2 & C2).
  split; [congruence|]. split; [congruence|].
  split; [exact (others_kept_trans id d d1 d2 O1 O2)|].
  rewrite <- C1. exact C2.
Qed.

(** A mutation of the record of [id] that keeps its id and task type. *)
Lemma touch_kept (id : string) (f : StepStatus -> StepStatus) (d d' : DagState) :
  stepStatuses d'
  = map (fun en => if String.eqb (fst en) id then (fst en, f (snd en)) else en)
      (stepStatuses d) ->
  (forall s, st_id (f s) = st_id s /\ st_task (f s) = st_task s) ->
  labels d' = labels d /\ others_kept id d d'
  /\ ((forall s, finished (f s)) ->
      forall s', In (id, s') (stepStatuses d') -> finished s').
Proof.
  intros E Hf. unfold labels, others_kept. rewrite E. split; [|split].
  - rewrite map_map. apply map_ext. intros [k s0]. simpl.
    destruct (String.eqb k id); [|reflexivity]. simpl.
    destruct (Hf s0) as [-> ->]. reflexivity.
  - intros k s' Hin Hne. apply in_map_iff in Hin as [[k0 s0] [Heq Hin]].
    simpl in Heq. destruct (String.eqb_spec k0 id) as [->|Hk].
    + injection Heq as <- _. now elim Hne.
    + injection Heq as <- <-. now exists s0.
  - intros Hfin s' Hin. apply in_map_iff in Hin as [[k0 s0] [Heq Hin]].
    simpl in Heq. destruct (String.eqb_spec k0 id) as [->|Hk].
    + injection Heq as <-. apply Hfin.
    + injection Heq as -> _. now elim Hk.
Qed.

Lemma core_quiet (id : string) (d d' : DagState) : core d' = core d -> quiet id d d'.
Proof.
  intros H. unfold core in H. injection H as Hr Hc Hf Hru Hst Hg He Hp.
  repeat split; try assumption.
  - unfold labels.
    apply (f_equal (map (fun e => (fst e, st_id (snd e), st_task (snd e))))) in Hst.
    now rewrite !map_map in Hst.
  - intros k s' Hin _.
    assert (Hin' : In (k, erase_attempt s')
                     (map (fun e => (fst e, erase_attempt (snd e))) (stepStatuses d'))).
    { apply in_map_iff. now exists (k, s'). }
    rewrite Hst in Hin'. apply in_map_iff in Hin' as [[k0 s0] [Heq Hin0]].
    pose proof (f_equal fst Heq) as Hk. pose proof (f_equal snd Heq) as Hs.
    simpl in Hk, Hs. subst k0. exists s0. split; [exact Hin0|].
    apply (f_equal status) in Hs. simpl in Hs. congruence.
Qed.

(** From a state whose completed records are finished, a change on behalf
    of a step that is not completed yet leaves such a state. *)
Lemma step_change_finished (id : string) (d d' : DagState) :
  step_change id d d' -> ~ In id (completed d) ->
  completed_finished d -> completed_finished d'.
Proof.
  intros (_ & _ & O & C) Hnot H k s' Hin Hk.
  destruct (String.eqb_spec k id) as [->|Hne].
  - destruct C as [C | [C Hfin]]; [|now apply Hfin].
    rewrite C in Hk. contradiction.
  - destruct (O k s' Hin Hne) as (s & Hin0 & E).
    assert (Hk0 : In k (completed d)).
    { destruct C as [C | [C _]]; rewrite C in Hk; [exact Hk|].
      apply set_add_In in Hk as [Hk | Hk]; [exact Hk | contradiction]. }
    specialize (H k s Hin0 Hk0). unfold finished in *. now rewrite E.
Qed.

Lemma step_change_extends (id : string) (d d' : DagState) :
  step_change id d d' ->
  exists extra, completed d' = (completed d ++ extra)%list /\ incl extra [id].
Proof.
  intros (_ & _ & _ & [C | [C _]]).
  - exists []. rewrite app_nil_r. split; [exact C | intros y []].
  - rewrite C. apply set_add_extends.
Qed.

Section StepRecords.
Variable W : Type.
Variable backends : Registry W.
Variable now : W -> Z.
Variable sleepW : Z -> W -> W.
Variable expiredW : Z -> W -> W -> bool.
Variable task : Task.
Variable stepMap : list (string * Step).

Lemma settle_ok_change (stepId0 : string) (v evdata : value) (d : DagState) (w : W) :
  step_change stepId0 d (fst (snd (settle_ok W now stepMap stepId0 v evdata (d, w)))).
Proof.
  destruct (settle_ok_effect W now stepMap stepId0 v evdata d w)
    as (_ & _ & Hc & _ & _ & _ & _ & Hg & Hst).
  destruct (touch_kept stepId0 (fun s => set_result v (stamp_completion (now w) (set_status Completed s)))
              d _ Hst (fun s => conj eq_refl eq_refl))
    as (Hl & Ho & Hfin).
  split; [exact Hg|]. split; [exact Hl|]. split; [exact Ho|].
  right. split; [exact Hc|]. apply Hfin. intros s. now left.
Qed.

Lemma settle_err_change (stepId0 : string) (step : Step) (e : string)
  (d : DagState) (w : W) :
  let out := settle_err W now stepMap stepId0 step e (d, w) in
  step_change stepId0 d (fst (snd out))
  /\ (forall v, fst out = Ok v -> is_true (optional step) = true).
Proof.
  cbv zeta. destruct (is_true (optional step)) eqn:Hopt.
  - destruct (settle_err_optional W now stepMap stepId0 step e d w Hopt)
      as (_ & _ & Hc & _ & _ & _ & _ & Hg & Hst).
    destruct (touch_kept stepId0 (fun s => set_error e (stamp_completion (now w) (set_status Skipped s)))
              d _ Hst (fun s => conj eq_refl eq_refl))
      as (Hl & Ho & Hfin).
    split; [|reflexivity].
    split; [exact Hg|]. split; [exact Hl|]. split; [exact Ho|].
    right. split; [exact Hc|]. apply Hfin. intros s. now right.
  - destruct (settle_err_required W now stepMap stepId0 step e d w Hopt)
      as (Hr & _ & Hc & _ & _ & _ & _ & Hg & Hst).
    destruct (touch_kept stepId0 (fun s => set_error e (stamp_completion (now w) (set_status Failed s)))
              d _ Hst (fun s => conj eq_refl eq_refl))
      as (Hl & Ho & _).
    split; [|intros v Hv; rewrite Hr in Hv; discriminate].
    split; [exact Hg|]. split; [exact Hl|]. split; [exact Ho|]. now left.
Qed.

Lemma d_skip_change (stepId0 : string) (marker evdata : value)
  (d : DagState) (w : W) :
  step_change stepId0 d (fst (snd (d_skip W now stepMap stepId0 marker evdata (d, w)))).
Proof.
  destruct (d_skip_effect W now stepMap stepId0 marker evdata d w)
    as (_ & _ & Hc & _ & _ & _ & _ & Hg & Hst).
  destruct (touch_kept stepId0 (fun s => set_status Skipped s)
              d _ Hst (fun s => conj eq_refl eq_refl))
    as (Hl & Ho & Hfin).
  split; [exact Hg|]. split; [exact Hl|]. split; [exact Ho|].
  right. split; [exact Hc|]. apply Hfin. intros s. now right.
Qed.

Lemma markRunning_quiet (stepId0 : string) (d : DagState) (w : W) :
  quiet stepId0 d (fst (snd (markRunning W now stepMap stepId0 (d, w)))).
Proof.
  destruct (markRunning_effect W now stepMap stepId0 d w)
    as (_ & Hc & _ & _ & _ & _ & Hg & Hst).
  destruct (touch_kept stepId0 (fun s => set_startedAt (now w) (set_status Running s))
              d _ Hst (fun s => conj eq_refl eq_refl))
    as (Hl & Ho & _).
  split; [exact Hg|]. split; [exact Hl|]. split; [exact Ho | exact Hc].
Qed.

Lemma beginWork_begins (stepId0 : string) (step : Step) (d : DagState) (w : W) :
  begins stepId0 d (beginWork W now task stepMap stepId0 step (d, w)).
Proof.
  unfold begins, beginWork, bind, look, ret. cbn [fst snd].
  destruct (nonempty (forEach step)) as [fe|].
  2:{ cbn [fst snd]. split; [apply quiet_step_change, quiet_refl | reflexivity]. }
  destruct (must (resolveTemplate fe (d_context task d)))
    as [| |b|n|str|items|fields] eqn:E.
  6:{ destruct items as [|item items].
      - pose proof (settle_ok_change stepId0 (VArr [])
                      (VObj [("itemCount", VNum 0)]) d w) as H.
        destruct (settle_ok W now stepMap stepId0 (VArr [])
                    (VObj [("itemCount", VNum 0)]) (d, w)) as [r [d1 w1]].
        cbn [fst snd launched] in *. split; [exact H | discriminate].
      - cbn [fst snd]. split; [apply quiet_step_change, quiet_refl | reflexivity]. }
  all: match goal with
       | |- context [settle_err _ _ _ ?i ?st ?e (?d0, ?w0)] =>
           pose proof (proj1 (settle_err_change i st e d0 w0)) as H;
           destruct (settle_err W now stepMap i st e (d0, w0)) as [r [d1 w1]];
           cbn [fst snd launched] in *; split; [exact H | discriminate]
       end.
Qed.

Lemma beginRun_begins (stepId0 : string) (step : Step) (d : DagState) (w : W) :
  begins stepId0 d (beginRun W now task stepMap stepId0 step (d, w)).
Proof.
  unfold beginRun, bind.
  pose proof (markRunning_quiet stepId0 d w) as Hq.
  destruct (markRunning W now stepMap stepId0 (d, w)) as [[] [d0 w0]].
  cbn [fst snd] in Hq.
  destruct (beginWork_begins stepId0 step d0 w0) as [Hc Hl].
  split.
  - exact (quiet_then_change stepId0 d d0 _ Hq Hc).
  - intros H. rewrite (Hl H). apply Hq.
Qed.

Lemma beginStep_begins (stepId0 : string) (step : Step) (d : DagState) (w : W) :
  begins stepId0 d (beginStep W now task stepMap stepId0 step (d, w)).
Proof.
  assert (Hq : quiet stepId0 d (d_running_add stepId0 d)).
  { split; [reflexivity|]. split; [reflexivity|]. split; [|reflexivity].
    intros k s H _. now exists s. }
  assert (Hrun : begins stepId0 d
                   (beginRun W now task stepMap stepId0 step
                      (d_running_add stepId0 d, w))).
  { destruct (beginRun_begins stepId0 step (d_running_add stepId0 d) w) as [Hc Hl].
    split; [exact (quiet_then_change stepId0 d _ _ Hq Hc) | exact Hl]. }
  assert (Hskip : forall marker ev,
             begins stepId0 d
               (d_skip W now stepMap stepId0 marker ev (d_running_add stepId0 d, w))).
  { intros marker ev.
    pose proof (d_skip_change stepId0 marker ev (d_running_add stepId0 d) w) as Hc.
    destruct (d_skip_effect W now stepMap stepId0 marker ev
                (d_running_add stepId0 d) w) as (H1 & _).
    split; [exact (quiet_then_change stepId0 d _ _ Hq Hc)|].
    rewrite H1. discriminate. }
  unfold beginStep, bind, upd, look. cbn [fst snd].
  destruct (conditional step) as [c|]; [|exact Hrun].
  destruct (String.eqb c "on-demand"); [apply Hskip|].
  cbn [fst snd].
  match goal with |- context [truthy ?x] => destruct (truthy x) end;
    [exact Hrun | apply Hskip].
Qed.

Lemma finishStep_change (stepId0 : string) (step : Step) (b : begun)
  (d : DagState) (w : W) :
  launched b = true ->
  step_change stepId0 d
    (fst (snd (finishStep W backends now sleepW expiredW task stepMap stepId0 step b
                 (d, w)))).
Proof.
  intros Hl.
  assert (E : finishStep W backends now sleepW expiredW task stepMap stepId0 step b (d, w)
              = let (r, s1) := attemptStep W backends sleepW expiredW task stepId0 step b (d, w) in
                (match r with
                 | Ok v => settle_ok W now stepMap stepId0 v (completionData b v)
                 | Err e => settle_err W now stepMap stepId0 step e
                 end) s1).
  { destruct b; [discriminate | reflexivity | reflexivity]. }
  rewrite E. clear E.
  pose proof (attemptStep_core W backends sleepW expiredW task stepId0 step b (d, w))
    as Hcore.
  destruct (attemptStep W backends sleepW expiredW task stepId0 step b (d, w))
    as [r [d1 w1]].
  cbn [fst snd] in Hcore. apply (core_quiet stepId0) in Hcore.
  destruct r as [v|e].
  - exact (quiet_then_change stepId0 d d1 _ Hcore (settle_ok_change stepId0 v _ d1 w1)).
  - exact (quiet_then_change stepId0 d d1 _ Hcore
             (proj1 (settle_err_change stepId0 step e d1 w1))).
Qed.
End StepRecords.

Lemma NoDup_map_same {A B : Type} (f : A -> B) (l : list A) (a b : A) :
  NoDup (map f l) -> In a l -> In b l -> f a = f b -> a = b.
Proof.
  induction l as [|x l IH]; intros Hnd Ha Hb E; [destruct Ha|].
  simpl in Hnd. inversion Hnd as [|y k Hnot Hnd']; subst.
  destruct Ha as [-> | Ha], Hb as [-> | Hb]; try reflexivity.
  - elim Hnot. rewrite E. now apply in_map.
  - elim Hnot. rewrite <- E. now apply in_map.
  - now apply IH.
Qed.

Lemma app_same_nil {A : Type} (l extra : list A) : (l ++ extra)%list = l -> extra = [].
Proof.
  intros H. apply (app_inv_head l). now rewrite app_nil_r.
Qed.

Section TickRecords.
Variable W : Type.
Variable backends : Registry W.
Variable now : W -> Z.
Variable sleepW : Z -> W -> W.
Variable expiredW : Z -> W -> W -> bool.
Variable task : Task.
Variable stepMap : list (string * Step).

Lemma beginAll_records (runnable : list (string * Step)) :
  forall d w,
    NoDup (map fst runnable) ->
    (forall x, In x (map fst runnable) -> ~ In x (completed d)) ->
    let out := beginAll W now task stepMap runnable (d, w) in
    let bs := fst out in
    let d1 := fst (snd out) in
    map (fun x => fst (fst x)) bs = map fst runnable
    /\ groups d1 = groups d /\ labels d1 = labels d
    /\ (exists extra, completed d1 = (completed d ++ extra)%list
                      /\ incl extra (settled_ids bs))
    /\ (completed_finished d -> completed_finished d1).
Proof.
  induction runnable as [|[id step] rest IH]; intros d w Hnd Hnot; cbv zeta.
  - simpl. repeat split; auto. exists []. rewrite app_nil_r.
    split; [reflexivity | intros y []].
  - simpl beginAll. unfold bind.
    pose proof (beginStep_begins W now task stepMap id step d w) as [Hc Hl].
    destruct (beginStep W now task stepMap id step (d, w)) as [b [d0 w0]].
    cbn [fst snd] in Hc, Hl.
    simpl in Hnd. inversion Hnd as [|y k Hid Hnd']; subst.
    destruct (step_change_extends id d d0 Hc) as (e0 & He0 & Hi0).
    assert (Hnot0 : forall x, In x (map fst rest) -> ~ In x (completed d0)).
    { intros x Hx Hin. rewrite He0 in Hin. apply in_app_iff in Hin as [Hin | Hin].
      - apply (Hnot x); [now right | exact Hin].
      - apply Hi0 in Hin as [<- | []]. contradiction. }
    specialize (IH d0 w0 Hnd' Hnot0). cbv zeta in IH.
    destruct (beginAll W now task stepMap rest (d0, w0)) as [bs [d1 w1]].
    unfold ret. cbn [fst snd] in *.
    destruct IH as (Hids & Hg & Hlab & (e1 & He1 & Hi1) & Hfin).
    destruct Hc as (Hg0 & Hlab0 & Ho0 & Hc0).
    split; [simpl; now rewrite Hids|].
    split; [congruence|]. split; [congruence|].
    split.
    + exists (e0 ++ e1)%list. split; [rewrite He1, He0, app_assoc; reflexivity|].
      unfold settled_ids. simpl filter. intros x Hx.
      apply in_app_iff in Hx as [Hx | Hx].
      * destruct (launched b) eqn:Eb.
        -- rewrite (Hl eq_refl) in He0. symmetry in He0.
           apply app_same_nil in He0. subst e0. destruct Hx.
        -- simpl. left. apply Hi0 in Hx as [<- | []]. reflexivity.
      * destruct (negb (launched b)); [right|]; now apply Hi1.
    + intros H. apply Hfin.
      apply (step_change_finished id d d0); [|apply Hnot; now left | exact H].
      split; [exact Hg0|]. split; [exact Hlab0|]. split; [exact Ho0 | exact Hc0].
Qed.

Lemma finishAll_records (bs : list (string * Step * begun)) :
  forall d w,
    NoDup (map (fun x => fst (fst x)) bs) ->
    (forall x, In x (launched_ids bs) -> ~ In x (completed d)) ->
    let out := finishAll W backends now sleepW expiredW task stepMap bs (d, w) in
    let d2 := fst (snd out) in
    groups d2 = groups d /\ labels d2 = labels d
    /\ (exists extra, completed d2 = (completed d ++ extra)%list
                      /\ incl extra (launched_ids bs))
    /\ (completed_finished d -> completed_finished d2).
Proof.
  induction bs as [|[[id step] b] rest IH]; intros d w Hnd Hnot; cbv zeta.
  - simpl. repeat split; auto. exists []. rewrite app_nil_r.
    split; [reflexivity | intros y []].
  - simpl in Hnd. inversion Hnd as [|y k Hid Hnd']; subst.
    assert (Hrest : forall x, In x (launched_ids rest) ->
                              In x (map (fun x => fst (fst x)) rest)).
    { intros x Hx. unfold launched_ids in Hx.
      apply in_map_iff in Hx as [y [<- Hy]]. apply filter_In in Hy as [Hy _].
      apply in_map_iff. now exists y. }
    simpl finishAll. unfold bind.
    destruct (launched b) eqn:Hl.
    + pose proof (finishStep_change W backends now sleepW expiredW task stepMap
                    id step b d w Hl) as Hc.
      destruct (finishStep W backends now sleepW expiredW task stepMap id step b (d, w))
        as [o [d0 w0]].
      cbn [fst snd] in Hc.
      destruct (step_change_extends id d d0 Hc) as (e0 & He0 & Hi0).
      assert (Hnot0 : forall x, In x (launched_ids rest) -> ~ In x (completed d0)).
      { intros x Hx Hin. rewrite He0 in Hin. apply in_app_iff in Hin as [Hin | Hin].
        - apply (Hnot x); [|exact Hin].
          unfold launched_ids. simpl filter. rewrite Hl. simpl. now right.
        - apply Hi0 in Hin as [<- | []]. apply Hid. now apply Hrest. }
      specialize (IH d0 w0 Hnd' Hnot0). cbv zeta in IH.
      destruct (finishAll W backends now sleepW expiredW task stepMap rest (d0, w0))
        as [os [d2 w2]].
      unfold ret. cbn [fst snd] in *.
      destruct IH as (Hg & Hlab & (e1 & He1 & Hi1) & Hfin).
      pose proof Hc as (Hg0 & Hlab0 & _).
      split; [congruence|]. split; [congruence|].
      split.
      * exists (e0 ++ e1)%list. split; [rewrite He1, He0, app_assoc; reflexivity|].
        unfold launched_ids. simpl filter. rewrite Hl. simpl map.
        fold (launched_ids rest). intros x Hx.
        apply in_app_iff in Hx as [Hx | Hx].
        -- left. apply Hi0 in Hx as [<- | []]. reflexivity.
        -- right. now apply Hi1.
      * intros H. apply Hfin.
        apply (step_change_finished id d d0 Hc); [|exact H].
        apply Hnot. unfold launched_ids. simpl filter. rewrite Hl. simpl. now left.
    + destruct b as [out| |]; try discriminate.
      change (let (o, s') := finishStep W backends now sleepW expiredW task stepMap
                               id step (Finished out) (d, w) in
              (let (a, s'0) := finishAll W backends now sleepW expiredW task
                                 stepMap rest s' in ret (o :: a) s'0))
        with (let (a, s'0) := finishAll W backends now sleepW expiredW task
                                stepMap rest (d, w) in ret (out :: a) s'0).
      assert (Hnot0 : forall x, In x (launched_ids rest) -> ~ In x (completed d)).
      { intros x Hx. apply Hnot. exact Hx. }
      specialize (IH d w Hnd' Hnot0). cbv zeta in IH.
      destruct (finishAll W backends now sleepW expiredW task stepMap rest (d, w))
        as [os [d2 w2]].
      unfold ret. cbn [fst snd] in *. exact IH.
Qed.

(** One tick over distinct steps, none of them completed: the group is
    recorded when it has more than one step, the records keep their ids
    and task types, the completed set grows at its end by steps of the
    tick, and completed steps keep finished records. *)
Lemma dag_tick_records (runnable : list (string * Step)) (d : DagState) (w : W) :
  NoDup (map fst runnable) ->
  (forall x, In x (map fst runnable) -> ~ In x (completed d)) ->
  let d' := fst (snd (dag_tick W backends now sleepW expiredW task stepMap
                        runnable (d, w))) in
  groups d' = (if Nat.ltb 1 (length runnable)
               then groups d ++ [map fst runnable] else groups d)%list
  /\ labels d' = labels d
  /\ (exists extra, completed d' = (completed d ++ extra)%list
                    /\ incl extra (map fst runnable))
  /\ (completed_finished d -> completed_finished d').
Proof.
  intros Hnd Hnot. cbv zeta. unfold dag_tick, bind.
  set (d0 := if (1 <? length runnable)%nat
             then d_push_group (map fst runnable) d else d).
  assert (E0 : (if (1 <? length runnable)%nat
                then upd W (d_push_group (map fst runnable))
                else ret tt) (d, w) = (tt, (d0, w))).
  { unfold d0. destruct (1 <? length runnable)%nat; reflexivity. }
  rewrite E0.
  assert (Hd0 : completed d0 = completed d /\ labels d0 = labels d
                /\ stepStatuses d0 = stepStatuses d
                /\ groups d0 = (if Nat.ltb 1 (length runnable)
                                then groups d ++ [map fst runnable]
                                else groups d)%list).
  { unfold d0. destruct (1 <? length runnable)%nat; repeat split. }
  destruct Hd0 as (Hc0 & Hl0 & Hs0 & Hg0).
  assert (Hnot0 : forall x, In x (map fst runnable) -> ~ In x (completed d0)).
  { intros x Hx. rewrite Hc0. now apply Hnot. }
  pose proof (beginAll_records runnable d0 w Hnd Hnot0) as Hb. cbv zeta in Hb.
  destruct (beginAll W now task stepMap runnable (d0, w)) as [bs [d1 w1]].
  cbn [fst snd] in Hb.
  destruct Hb as (Hids & Hg1 & Hl1 & (e1 & He1 & Hi1) & Hf1).
  assert (Hnd1 : NoDup (map (fun x => fst (fst x)) bs)) by (now rewrite Hids).
  assert (Hnot1 : forall x, In x (launched_ids bs) -> ~ In x (completed d1)).
  { intros x Hx Hin. rewrite He1 in Hin. apply in_app_iff in Hin as [Hin | Hin].
    - apply (Hnot0 x); [|exact Hin]. rewrite <- Hids.
      unfold launched_ids in Hx. apply in_map_iff in Hx as [y [<- Hy]].
      apply filter_In in Hy as [Hy _]. apply in_map_iff. now exists y.
    - apply Hi1 in Hin. unfold launched_ids in Hx. unfold settled_ids in Hin.
      apply in_map_iff in Hx as [y [Ey Hy]]. apply filter_In in Hy as [Hy Ly].
      apply in_map_iff in Hin as [z [Ez Hz]]. apply filter_In in Hz as [Hz Lz].
      assert (y = z).
      { apply (NoDup_map_same (fun x => fst (fst x)) bs); try assumption.
        congruence. }
      subst z. rewrite Ly in Lz. discriminate. }
  pose proof (finishAll_records bs d1 w1 Hnd1 Hnot1) as Hf. cbv zeta in Hf.
  destruct (finishAll W backends now sleepW expiredW task stepMap bs (d1, w1))
    as [os [d2 w2]].
  unfold ret. cbn [fst snd] in *.
  destruct Hf as (Hg2 & Hl2 & (e2 & He2 & Hi2) & Hf2).
  split; [congruence|]. split; [congruence|]. split.
  - exists (e1 ++ e2)%list.
    split; [rewrite He2, He1, Hc0, app_assoc; reflexivity|].
    intros x Hx. rewrite <- Hids. apply in_app_iff in Hx as [Hx | Hx].
    + apply Hi1 in Hx. unfold settled_ids in Hx.
      apply in_map_iff in Hx as [y [<- Hy]]. apply filter_In in Hy as [Hy _].
      apply in_map_iff. now exists y.
    + apply Hi2 in Hx. unfold launched_ids in Hx.
      apply in_map_iff in Hx as [y [<- Hy]]. apply filter_In in Hy as [Hy _].
      apply in_map_iff. now exists y.
  - intros H. apply Hf2, Hf1. intros k s Hin Hk.
    rewrite Hs0 in Hin. rewrite Hc0 in Hk. exact (H k s Hin Hk).
Qed.

(** A tick that does not fail completes every step it dispatches. *)
Lemma dag_tick_completes (runnable : list (string * Step)) (d : DagState) (w : W) :
  let out := dag_tick W backends now sleepW expiredW task stepMap runnable (d, w) in
  fst out = None ->
  forall x, In x (map fst runnable) -> In x (completed (fst (snd out))).
Proof.
  cbv zeta. unfold dag_tick, bind.
  set (d0 := if (1 <? length runnable)%nat
             then d_push_group (map fst runnable) d else d).
  assert (E0 : (if (1 <? length runnable)%nat
                then upd W (d_push_group (map fst runnable))
                else ret tt) (d, w) = (tt, (d0, w))).
  { unfold d0. destruct (1 <? length runnable)%nat; reflexivity. }
  rewrite E0.
  pose proof (beginAll_sets W now sleepW expiredW task stepMap runnable d0 w) as Hb. cbv zeta in Hb.
  destruct (beginAll W now task stepMap runnable (d0, w)) as [bs [d1 w1]].
  pose proof (finishAll_sets W backends now sleepW expiredW task stepMap bs d1 w1)
    as Hf. cbv zeta in Hf.
  destruct (finishAll W backends now sleepW expiredW task stepMap bs (d1, w1))
    as [os [d2 w2]].
  unfold ret. cbn [fst snd] in *.
  intros Hfe x Hx. specialize (Hf Hfe).
  destruct Hb as (Hids & _ & _ & _ & _ & Hok1 & _).
  destruct Hf as (_ & _ & Hno & Hmono2 & _ & _ & Hall2 & _).
  rewrite <- Hids in Hx.
  apply in_map_iff in Hx as [[[id step] b] [Heq Hy]]. simpl in Heq. subst id.
  destruct b as [[v|e]| |].
  - apply Hmono2. eapply Hok1. exact Hy.
  - elim (Hno _ _ _ Hy).
  - apply Hall2. unfold launched_ids. apply in_map_iff.
    exists (x, step, Single stepTask0). split; [reflexivity|].
    apply filter_In. now split.
  - apply Hall2. unfold launched_ids. apply in_map_iff.
    exists (x, step, Each items concurrency first). split; [reflexivity|].
    apply filter_In. now split.
Qed.
End TickRecords.

(* ================================================================= *)
(** ** The stored results and the completed set *)

Lemma obj_set_present (fields : list (string * value)) (key : string) (v : value) :
  In key (map fst fields) -> map fst (obj_set fields key v) = map fst fields.
Proof.
  induction fields as [|[k x] rest IH]; simpl; [intros []|].
  intros Hin. destruct (String.eqb_spec k key) as [->|Hne]; [reflexivity|].
  simpl. f_equal. apply IH. destruct Hin as [E | Hin]; [contradiction | exact Hin].
Qed.

Lemma keyed_add (d d' : DagState) (id : string) (v : value) :
  results d' = obj_set (results d) id v ->
  completed d' = set_add (completed d) id ->
  keyed d -> keyed d'.
Proof.
  unfold keyed. intros Hr Hc Hk. rewrite Hr, Hc. unfold set_add.
  destruct (set_has (completed d) id) eqn:E.
  - apply set_has_In in E. rewrite obj_set_present by (now rewrite Hk). exact Hk.
  - rewrite obj_set_fresh.
    + rewrite map_app, Hk. reflexivity.
    + rewrite Hk. intros Hin. apply set_has_In in Hin. congruence.
Qed.

Lemma keyed_same (d d' : DagState) :
  results d' = results d -> completed d' = completed d -> keyed d -> keyed d'.
Proof. unfold keyed. congruence. Qed.

Section StepKeys.
Variable W : Type.
Variable backends : Registry W.
Variable now : W -> Z.
Variable sleepW : Z -> W -> W.
Variable expiredW : Z -> W -> W -> bool.
Variable task : Task.
Variable stepMap : list (string * Step).

Lemma settle_ok_keyed (stepId0 : string) (v evdata : value) (d : DagState) (w : W) :
  keyed d -> keyed (fst (snd (settle_ok W now stepMap stepId0 v evdata (d, w)))).
Proof.
  destruct (settle_ok_effect W now stepMap stepId0 v evdata d w)
    as (_ & _ & Hc & _ & _ & Hr & _).
  exact (keyed_add d _ stepId0 v Hr Hc).
Qed.

Lemma settle_err_keyed (stepId0 : string) (step : Step) (e : string)
  (d : DagState) (w : W) :
  keyed d -> keyed (fst (snd (settle_err W now stepMap stepId0 step e (d, w)))).
Proof.
  destruct (is_true (optional step)) eqn:Hopt.
  - destruct (settle_err_optional W now stepMap stepId0 step e d w Hopt)
      as (_ & _ & Hc & _ & _ & Hr & _).
    exact (keyed_add d _ stepId0 _ Hr Hc).
  - destruct (settle_err_required W now stepMap stepId0 step e d w Hopt)
      as (_ & _ & Hc & _ & _ & Hr & _).
    exact (keyed_same d _ Hr Hc).
Qed.

Lemma beginStep_keyed (stepId0 : string) (step : Step) (d : DagState) (w : W) :
  keyed d -> keyed (fst (snd (beginStep W now task stepMap stepId0 step (d, w)))).
Proof.
  intros Hk.
  assert (Hwork : forall d0 w0, keyed d0 ->
            keyed (fst (snd (beginWork W now task stepMap stepId0 step (d0, w0))))).
  { intros d0 w0 H0. unfold beginWork, bind, look, ret. cbn [fst snd].
    destruct (nonempty (forEach step)) as [fe|]; [|exact H0].
    destruct (must (resolveTemplate fe (d_context task d0)))
      as [| |b|n|str|items|fields] eqn:E.
    6:{ destruct items as [|item items]; [|exact H0].
        pose proof (settle_ok_keyed stepId0 (VArr [])
                      (VObj [("itemCount", VNum 0)]) d0 w0 H0) as H.
        destruct (settle_ok W now stepMap stepId0 (VArr [])
                    (VObj [("itemCount", VNum 0)]) (d0, w0)) as [r [d1 w1]].
        exact H. }
    all: match goal with
         | |- context [settle_err _ _ _ ?i ?st ?e (?dd, ?ww)] =>
             pose proof (settle_err_keyed i st e dd ww H0) as H;
             destruct (settle_err W now stepMap i st e (dd, ww)) as [r [d1 w1]];
             exact H
         end. }
  assert (Hrun : keyed (fst (snd (beginRun W now task stepMap stepId0 step
                                    (d_running_add stepId0 d, w))))).
  { unfold beginRun, bind.
    destruct (markRunning_effect W now stepMap stepId0 (d_running_add stepId0 d) w)
      as (_ & Hc & _ & _ & Hr & _).
    destruct (markRunning W now stepMap stepId0 (d_running_add stepId0 d, w))
      as [[] [d0 w0]].
    cbn [fst snd] in Hc, Hr. apply Hwork. exact (keyed_same _ _ Hr Hc Hk). }
  assert (Hskip : forall marker ev,
             keyed (fst (snd (d_skip W now stepMap stepId0 marker ev
                                (d_running_add stepId0 d, w))))).
  { intros marker ev.
    destruct (d_skip_effect W now stepMap stepId0 marker ev
                (d_running_add stepId0 d) w) as (_ & _ & Hc & _ & _ & Hr & _).
    exact (keyed_add (d_running_add stepId0 d) _ stepId0 marker Hr Hc Hk). }
  unfold beginStep, bind, upd, look. cbn [fst snd].
  destruct (conditional step) as [c|]; [|exact Hrun].
  destruct (String.eqb c "on-demand"); [apply Hskip|].
  cbn [fst snd].
  match goal with |- context [truthy ?x] => destruct (truthy x) end;
    [exact Hrun | apply Hskip].
Qed.

Lemma finishStep_keyed (stepId0 : string) (step : Step) (b : begun)
  (d : DagState) (w : W) :
  keyed d ->
  keyed (fst (snd (finishStep W backends now sleepW expiredW task stepMap stepId0
                     step b (d, w)))).
Proof.
  intros Hk. destruct (launched b) eqn:Hl.
  2:{ destruct b; try discriminate. exact Hk. }
  assert (E : finishStep W backends now sleepW expiredW task stepMap stepId0 step b (d, w)
              = let (r, s1) := attemptStep W backends sleepW expiredW task stepId0 step b (d, w) in
                (match r with
                 | Ok v => settle_ok W now stepMap stepId0 v (completionData b v)
                 | Err e => settle_err W now stepMap stepId0 step e
                 end) s1).
  { destruct b; [discriminate | reflexivity | reflexivity]. }
  rewrite E. clear E.
  pose proof (attemptStep_core W backends sleepW expiredW task stepId0 step b (d, w))
    as Hcore.
  destruct (attemptStep W backends sleepW expiredW task stepId0 step b (d, w))
    as [r [d1 w1]].
  cbn [fst snd] in Hcore. apply core_sets in Hcore.
  destruct Hcore as (Hc & _ & _ & Hr & _).
  pose proof (keyed_same d d1 Hr Hc Hk) as Hk1.
  destruct r as [v|e]; [now apply settle_ok_keyed | now apply settle_err_keyed].
Qed.

Lemma dag_tick_keyed (runnable : list (string * Step)) (d : DagState) (w : W) :
  keyed d ->
  keyed (fst (snd (dag_tick W backends now sleepW expiredW task stepMap runnable (d, w)))).
Proof.
  intros Hk. unfold dag_tick, bind.
  set (d0 := if (1 <? length runnable)%nat
             then d_push_group (map fst runnable) d else d).
  assert (E0 : (if (1 <? length runnable)%nat
                then upd W (d_push_group (map fst runnable))
                else ret tt) (d, w) = (tt, (d0, w))).
  { unfold d0. destruct (1 <? length runnable)%nat; reflexivity. }
  rewrite E0.
  assert (Hk0 : keyed d0) by (unfold d0; destruct (1 <? length runnable)%nat; exact Hk).
  clearbody d0. clear E0 Hk.
  assert (Hb : forall l d1 w1, keyed d1 ->
            keyed (fst (snd (beginAll W now task stepMap l (d1, w1))))).
  { induction l as [|[id step] rest IH]; intros d1 w1 H1; [exact H1|].
    simpl beginAll. unfold bind.
    pose proof (beginStep_keyed id step d1 w1 H1) as H2.
    destruct (beginStep W now task stepMap id step (d1, w1)) as [b [d2 w2]].
    specialize (IH d2 w2 H2).
    destruct (beginAll W now task stepMap rest (d2, w2)) as [bs [d3 w3]].
    exact IH. }
  assert (Hf : forall l d1 w1, keyed d1 ->
            keyed (fst (snd (finishAll W backends now sleepW expiredW task stepMap l
                               (d1, w1))))).
  { induction l as [|[[id step] b] rest IH]; intros d1 w1 H1; [exact H1|].
    simpl finishAll. unfold bind.
    pose proof (finishStep_keyed id step b d1 w1 H1) as H2.
    destruct (finishStep W backends now sleepW expiredW task stepMap id step b (d1, w1))
      as [o [d2 w2]].
    specialize (IH d2 w2 H2).
    destruct (finishAll W backends now sleepW expiredW task stepMap rest (d2, w2))
      as [os [d3 w3]].
    exact IH. }
  specialize (Hb runnable d0 w Hk0).
  destruct (beginAll W now task stepMap runnable (d0, w)) as [bs [d1 w1]].
  specialize (Hf bs d1 w1 Hb).
  destruct (finishAll W backends now sleepW expiredW task stepMap bs (d1, w1))
    as [os [d2 w2]].
  exact Hf.
Qed.
End StepKeys.

(* ================================================================= *)
(** ** The times in the records of the DAG runner *)

Lemma fresh_erase (s s' : StepStatus) :
  erase_attempt s' = erase_attempt s -> fresh s -> fresh s'.
Proof.
  intros E. unfold fresh.
  pose proof (f_equal status E). pose proof (f_equal startedAt E).
  pose proof (f_equal completedAt E). pose proof (f_equal duration E).
  pose proof (f_equal error E). simpl in *. intuition congruence.
Qed.

Lemma started_erase (s s' : StepStatus) :
  erase_attempt s' = erase_attempt s -> started s -> started s'.
Proof.
  intros E. unfold started.
  pose proof (f_equal status E). pose proof (f_equal startedAt E).
  pose proof (f_equal error E). simpl in *. intuition congruence.
Qed.

Lemma closed_erase (s s' : StepStatus) :
  erase_attempt s' = erase_attempt s -> closed s -> closed s'.
Proof.
  intros E. unfold closed, timed, untimed.
  pose proof (f_equal status E) as E1. pose proof (f_equal startedAt E) as E2.
  pose proof (f_equal completedAt E) as E3. pose proof (f_equal duration E) as E4.
  pose proof (f_equal error E) as E5. simpl in *.
  intros [(H1 & H2 & a & c & H3) | [(H1 & H2 & a & c & H3) | (H1 & H2 & H3)]].
  - left. split; [congruence|]. split; [congruence|]. exists a, c. intuition congruence.
  - right. left. split; [congruence|]. split; [congruence|].
    exists a, c. intuition congruence.
  - right. right. intuition congruence.
Qed.

Lemma record_step_touch (id : string) (f : StepStatus -> StepStatus)
  (T : StepStatus -> StepStatus -> Prop) (d d' : DagState) :
  stepStatuses d'
  = map (fun en => if String.eqb (fst en) id then (fst en, f (snd en)) else en)
      (stepStatuses d) ->
  (forall s, T s (f s)) ->
  record_step id T d d'.
Proof.
  intros E HT. unfold record_step. rewrite E. clear E.
  induction (stepStatuses d) as [|[k s] l IH]; simpl; [constructor|].
  constructor; [|exact IH].
  destruct (String.eqb_spec k id) as [->|Hne]; simpl.
  - split; [reflexivity|]. split; [intros _; apply HT | intros H; now elim H].
  - split; [reflexivity|]. split; [intros H; now elim Hne | reflexivity].
Qed.

Lemma map_eq_pairwise {A B : Type} (f : A -> B) (l l' : list A) :
  map f l' = map f l -> Forall2 (fun a a' => f a' = f a) l l'.
Proof.
  revert l'. induction l as [|a l IH]; intros [|a' l'] E; simpl in E;
    try discriminate; [constructor|].
  injection E as Ea El. constructor; [exact Ea | now apply IH].
Qed.

Lemma record_step_core (id : string) (T : StepStatus -> StepStatus -> Prop)
  (d d' : DagState) :
  core d' = core d ->
  (forall s s', erase_attempt s' = erase_attempt s -> T s s') ->
  record_step id T d d'.
Proof.
  intros H HT.
  assert (Hst : map (fun e => (fst e, erase_attempt (snd e))) (stepStatuses d')
                = map (fun e => (fst e, erase_attempt (snd e))) (stepStatuses d)).
  { unfold core in H. now injection H. }
  apply map_eq_pairwise in Hst. unfold record_step.
  revert Hst. apply Forall2_impl. intros e e' E.
  pose proof (f_equal fst E) as Ek. pose proof (f_equal snd E) as Es.
  simpl in Ek, Es. split; [exact Ek|].
  split; [intros _; now apply HT | intros _; exact Es].
Qed.

Lemma record_step_same (id : string) (T : StepStatus -> StepStatus -> Prop)
  (d d' : DagState) :
  stepStatuses d' = stepStatuses d -> (forall s, T s s) -> record_step id T d d'.
Proof.
  intros E HT. unfold record_step. rewrite E. clear E.
  induction (stepStatuses d) as [|[k s] l IH]; [constructor|].
  constructor; [|exact IH].
  simpl. split; [reflexivity|]. split; [intros _; apply HT | reflexivity].
Qed.

Lemma record_step_trans (id : string) (T1 T2 T3 : StepStatus -> StepStatus -> Prop)
  (d d1 d2 : DagState) :
  (forall a b c, T1 a b -> T2 b c -> T3 a c) ->
  record_step id T1 d d1 -> record_step id T2 d1 d2 -> record_step id T3 d d2.
Proof.
  intros HT. unfold record_step.
  generalize (stepStatuses d) (stepStatuses d1) (stepStatuses d2).
  intros l. induction l as [|e l IH]; intros l1 l2 H1 H2.
  - inversion H1; subst. inversion H2; subst. constructor.
  - inversion H1 as [|x e1 y l1' (K1 & A1 & B1) H1']; subst.
    inversion H2 as [|x e2 y l2' (K2 & A2 & B2) H2']; subst.
    constructor; [|now apply (IH l1' l2')].
    split; [congruence|]. split.
    + intros E. apply (HT _ (snd e1)); [now apply A1 | apply A2; congruence].
    + intros E. rewrite B2 by congruence. now apply B1.
Qed.

Lemma record_step_weaken (id : string) (T T' : StepStatus -> StepStatus -> Prop)
  (d d' : DagState) :
  (forall a b, T a b -> T' a b) -> record_step id T d d' -> record_step id T' d d'.
Proof.
  intros HT. unfold record_step. apply Forall2_impl.
  intros e e' (K & A & B). split; [exact K|]. split; [|exact B].
  intros E. now apply HT, A.
Qed.

Lemma record_step_In (id : string) (T : StepStatus -> StepStatus -> Prop)
  (d d' : DagState) (k : string) (s' : StepStatus) :
  record_step id T d d' -> In (k, s') (stepStatuses d') ->
  exists s, In (k, s) (stepStatuses d)
            /\ (k = id -> T s s')
            /\ (k <> id -> erase_attempt s' = erase_attempt s).
Proof.
  unfold record_step. intros H Hin.
  induction H as [|e e' l l' (K & A & B) _ IH]; [destruct Hin|].
  destruct Hin as [-> | Hin].
  - exists (snd e). simpl in K. subst k. split; [left; now destruct e|].
    split; [exact A | exact B].
  - destruct (IH Hin) as (s & Hs & H1 & H2). exists s. split; [now right | tauto].
Qed.

Lemma closes_ok (t : Z) (v : value) (s : StepStatus) :
  started s -> closed (set_result v (stamp_completion t (set_status Completed s))).
Proof.
  intros (_ & Hs & He). left. unfold timed, stamp_completion. simpl.
  destruct (startedAt s) as [a|]; [|congruence].
  split; [reflexivity|]. split; [exact He|]. now exists a, t.
Qed.

Lemma closes_skipped (t : Z) (e : string) (s : StepStatus) :
  started s -> closed (set_error e (stamp_completion t (set_status Skipped s))).
Proof.
  intros (_ & Hs & He). right. left. unfold timed, stamp_completion. simpl.
  destruct (startedAt s) as [a|]; [|congruence].
  split; [reflexivity|]. split; [discriminate|]. now exists a, t.
Qed.

Section StepTiming.
Variable W : Type.
Variable backends : Registry W.
Variable now : W -> Z.
Variable sleepW : Z -> W -> W.
Variable expiredW : Z -> W -> W -> bool.
Variable task : Task.
Variable stepMap : list (string * Step).

Lemma settle_ok_timing (stepId0 : string) (v evdata : value) (d : DagState) (w : W) :
  let out := settle_ok W now stepMap stepId0 v evdata (d, w) in
  record_step stepId0 (ended_record (fst out)) d (fst (snd out)).
Proof.
  cbv zeta.
  destruct (settle_ok_effect W now stepMap stepId0 v evdata d w)
    as (Ho & _ & _ & _ & _ & _ & _ & _ & Hst).
  rewrite Ho.
  apply (record_step_touch stepId0
           (fun s => set_result v (stamp_completion (now w) (set_status Completed s)))
           _ d _ Hst).
  intros s Hs. now apply closes_ok.
Qed.

Lemma settle_err_timing (stepId0 : string) (step : Step) (e : string)
  (d : DagState) (w : W) :
  let out := settle_err W now stepMap stepId0 step e (d, w) in
  record_step stepId0 (ended_record (fst out)) d (fst (snd out)).
Proof.
  cbv zeta. destruct (is_true (optional step)) eqn:Hopt.
  - destruct (settle_err_optional W now stepMap stepId0 step e d w Hopt)
      as (Ho & _ & _ & _ & _ & _ & _ & _ & Hst).
    rewrite Ho.
    apply (record_step_touch stepId0
             (fun s => set_error e (stamp_completion (now w) (set_status Skipped s)))
             _ d _ Hst).
    intros s Hs. now apply closes_skipped.
  - destruct (settle_err_required W now stepMap stepId0 step e d w Hopt)
      as (Ho & _ & _ & _ & _ & _ & _ & _ & Hst).
    rewrite Ho.
    apply (record_step_touch stepId0
             (fun s => set_error e (stamp_completion (now w) (set_status Failed s)))
             _ d _ Hst).
    intros s Hs. exact I.
Qed.

Lemma beginWork_timing (stepId0 : string) (step : Step) (d : DagState) (w : W) :
  let out := beginWork W now task stepMap stepId0 step (d, w) in
  record_step stepId0
    (fun s s' => started s -> match fst out with
                              | Finished (Ok _) => closed s'
                              | Finished (Err _) => True
                              | _ => started s'
                              end) d (fst (snd out)).
Proof.
  cbv zeta. unfold beginWork, bind, look, ret. cbn [fst snd].
  destruct (nonempty (forEach step)) as [fe|].
  2:{ cbn [fst snd]. apply record_step_same; [reflexivity | tauto]. }
  destruct (must (resolveTemplate fe (d_context task d)))
    as [| |b|n|str|items|fields] eqn:E.
  6:{ destruct items as [|item items].
      - pose proof (settle_ok_timing stepId0 (VArr [])
                      (VObj [("itemCount", VNum 0)]) d w) as H. cbv zeta in H.
        destruct (settle_ok W now stepMap stepId0 (VArr [])
                    (VObj [("itemCount", VNum 0)]) (d, w)) as [r [d1 w1]].
        cbn [fst snd] in *. revert H. apply record_step_weaken.
        intros a c. unfold ended_record. destruct r; tauto.
      - cbn [fst snd]. apply record_step_same; [reflexivity | tauto]. }
  all: match goal with
       | |- context [settle_err _ _ _ ?i ?st ?e (?d0, ?w0)] =>
           pose proof (settle_err_timing i st e d0 w0) as H; cbv zeta in H;
           destruct (settle_err W now stepMap i st e (d0, w0)) as [r [d1 w1]];
           cbn [fst snd] in *; revert H; apply record_step_weaken;
           intros a c; unfold ended_record; destruct r; tauto
       end.
Qed.

Lemma beginStep_timing (stepId0 : string) (step : Step) (d : DagState) (w : W) :
  let out := beginStep W now task stepMap stepId0 step (d, w) in
  record_step stepId0 (begun_record (fst out)) d (fst (snd out)).
Proof.
  cbv zeta.
  assert (Hrun : record_step stepId0
                   (begun_record
                      (fst (beginRun W now task stepMap stepId0 step
                              (d_running_add stepId0 d, w))))
                   d
                   (fst (snd (beginRun W now task stepMap stepId0 step
                                (d_running_add stepId0 d, w))))).
  { unfold beginRun, bind.
    destruct (markRunning_effect W now stepMap stepId0 (d_running_add stepId0 d) w)
      as (_ & _ & _ & _ & _ & _ & _ & Hst).
    assert (H1 : record_step stepId0 (fun s s' => fresh s -> started s') d
                   (fst (snd (markRunning W now stepMap stepId0
                                (d_running_add stepId0 d, w))))).
    { apply (record_step_touch stepId0
               (fun s => set_startedAt (now w) (set_status Running s)) _ d _ Hst).
      intros s (_ & _ & _ & _ & He). split; [reflexivity|]. split; [discriminate|].
      exact He. }
    destruct (markRunning W now stepMap stepId0 (d_running_add stepId0 d, w))
      as [[] [d0 w0]].
    cbn [fst snd] in H1.
    pose proof (beginWork_timing stepId0 step d0 w0) as H2. cbv zeta in H2.
    destruct (beginWork W now task stepMap stepId0 step (d0, w0)) as [b [d1 w1]].
    cbn [fst snd] in *.
    apply (record_step_trans stepId0 _ _ _ d d0 d1) with (2 := H1) (3 := H2).
    intros a m c Ha Hm Hf. apply Hm. now apply Ha. }
  assert (Hskip : forall marker ev,
             record_step stepId0
               (begun_record
                  (fst (d_skip W now stepMap stepId0 marker ev
                          (d_running_add stepId0 d, w))))
               d
               (fst (snd (d_skip W now stepMap stepId0 marker ev
                            (d_running_add stepId0 d, w))))).
  { intros marker ev.
    destruct (d_skip_effect W now stepMap stepId0 marker ev
                (d_running_add stepId0 d) w) as (Ho & _ & _ & _ & _ & _ & _ & _ & Hst).
    rewrite Ho.
    apply (record_step_touch stepId0 (fun s => set_status Skipped s) _ d _ Hst).
    intros s (_ & H1 & H2 & H3 & H4). right. right.
    split; [reflexivity|]. split; [exact H4|]. repeat split; assumption. }
  unfold beginStep, bind, upd, look. cbn [fst snd].
  destruct (conditional step) as [c|]; [|exact Hrun].
  destruct (String.eqb c "on-demand"); [apply Hskip|].
  cbn [fst snd].
  match goal with |- context [truthy ?x] => destruct (truthy x) end;
    [exact Hrun | apply Hskip].
Qed.

Lemma finishStep_timing (stepId0 : string) (step : Step) (b : begun)
  (d : DagState) (w : W) :
  launched b = true ->
  let out := finishStep W backends now sleepW expiredW task stepMap stepId0 step b
               (d, w) in
  record_step stepId0 (ended_record (fst out)) d (fst (snd out)).
Proof.
  intros Hl. cbv zeta.
  assert (E : finishStep W backends now sleepW expiredW task stepMap stepId0 step b (d, w)
              = let (r, s1) := attemptStep W backends sleepW expiredW task stepId0 step b (d, w) in
                (match r with
                 | Ok v => settle_ok W now stepMap stepId0 v (completionData b v)
                 | Err e => settle_err W now stepMap stepId0 step e
                 end) s1).
  { destruct b; [discriminate | reflexivity | reflexivity]. }
  rewrite E. clear E.
  pose proof (attemptStep_core W backends sleepW expiredW task stepId0 step b (d, w))
    as Hcore.
  destruct (attemptStep W backends sleepW expiredW task stepId0 step b (d, w))
    as [r [d1 w1]].
  cbn [fst snd] in Hcore.
  pose proof (record_step_core stepId0
                (fun s s' => erase_attempt s' = erase_attempt s) d d1 Hcore
                (fun s s' H => H)) as H1.
  assert (Hcomp : forall o a m c,
            erase_attempt m = erase_attempt a -> ended_record o m c -> ended_record o a c).
  { intros o a m c Ha Hm Hs. apply Hm. exact (started_erase a m Ha Hs). }
  destruct r as [v|e].
  - pose proof (settle_ok_timing stepId0 v (completionData b v) d1 w1) as H2.
    cbv zeta in H2.
    exact (record_step_trans stepId0 _ _ _ d d1 _ (Hcomp _) H1 H2).
  - pose proof (settle_err_timing stepId0 step e d1 w1) as H2. cbv zeta in H2.
    exact (record_step_trans stepId0 _ _ _ d d1 _ (Hcomp _) H1 H2).
Qed.
End StepTiming.

Lemma timing_ext (F G : string -> Prop) (d : DagState) :
  (forall x, F x <-> G x) -> timing F d -> timing G d.
Proof.
  intros HFG H k s Hin. destruct (H k s Hin) as (H1 & H2 & H3).
  split; [exact H1|]. split.
  - intros Hg. apply H2. now apply HFG.
  - intros Hg. apply H3. intros Hf. apply Hg. now apply HFG.
Qed.

Lemma begin_timing (F : string -> Prop) (id : string) (b : begun) (d d1 : DagState) :
  ~ F id -> ~ In id (completed d) -> ~ In id (failed d) ->
  record_step id (begun_record b) d d1 ->
  ((launched b = true /\ completed d1 = completed d /\ failed d1 = failed d)
   \/ (exists v, b = Finished (Ok v)
                 /\ completed d1 = set_add (completed d) id /\ failed d1 = failed d)
   \/ (exists e, b = Finished (Err e)
                 /\ completed d1 = completed d /\ failed d1 = set_add (failed d) id)) ->
  timing F d ->
  timing (fun x => F x \/ (launched b = true /\ x = id)) d1.
Proof.
  intros HF Hc Hf Hrs Hsets Ht k s' Hin.
  destruct (record_step_In id _ d d1 k s' Hrs Hin) as (s & Hs & Hown & Hother).
  destruct (Ht k s Hs) as (T1 & T2 & T3).
  destruct (String.eqb_spec k id) as [->|Hne].
  - specialize (Hown eq_refl). unfold begun_record in Hown.
    specialize (Hown (T3 HF Hc Hf)).
    destruct Hsets as [(Hl & C & Fd) | [(v & -> & C & Fd) | (e & -> & C & Fd)]];
      rewrite C, Fd.
    + split; [intros H; contradiction|]. split.
      * intros _ _ _. destruct b; try discriminate; exact Hown.
      * intros H. elim H. right. now split.
    + split; [intros _; exact Hown|].
      split; intros _ H; elim H; apply set_add_In; now right.
    + split; [intros H; contradiction|].
      split; intros _ _ H; elim H; apply set_add_In; now right.
  - specialize (Hother Hne).
    assert (Hck : In k (completed d1) <-> In k (completed d)).
    { destruct Hsets as [(_ & C & _) | [(v & _ & C & _) | (e & _ & C & _)]];
        rewrite C; try tauto. rewrite set_add_In. tauto. }
    assert (Hfk : In k (failed d1) <-> In k (failed d)).
    { destruct Hsets as [(_ & _ & C) | [(v & _ & _ & C) | (e & _ & _ & C)]];
        rewrite C; try tauto. rewrite set_add_In. tauto. }
    rewrite Hck, Hfk. split; [|split].
    + intros H. exact (closed_erase s s' Hother (T1 H)).
    + intros [H | [_ H]]; [|contradiction].
      intros H1 H2. exact (started_erase s s' Hother (T2 H H1 H2)).
    + intros H H1 H2. apply (fresh_erase s s' Hother).
      apply T3; [|exact H1 | exact H2].
      intros HFk. apply H. now left.
Qed.

Lemma finish_timing (F : string -> Prop) (id : string) (o : result value)
  (d d' : DagState) :
  F id -> ~ In id (completed d) -> ~ In id (failed d) ->
  record_step id (ended_record o) d d' ->
  ((exists v, o = Ok v /\ completed d' = set_add (completed d) id
              /\ failed d' = failed d)
   \/ (exists e, o = Err e /\ completed d' = completed d
                 /\ failed d' = set_add (failed d) id)) ->
  timing F d ->
  timing (fun x => F x /\ x <> id) d'.
Proof.
  intros HF Hc Hf Hrs Hsets Ht k s' Hin.
  destruct (record_step_In id _ d d' k s' Hrs Hin) as (s & Hs & Hown & Hother).
  destruct (Ht k s Hs) as (T1 & T2 & T3).
  destruct (String.eqb_spec k id) as [->|Hne].
  - specialize (Hown eq_refl). unfold ended_record in Hown.
    specialize (Hown (T2 HF Hc Hf)).
    destruct Hsets as [(v & -> & C & Fd) | (e & -> & C & Fd)]; rewrite C, Fd.
    + split; [intros _; exact Hown|].
      split; intros _ H; elim H; apply set_add_In; now right.
    + split; [intros H; contradiction|].
      split; intros _ _ H; elim H; apply set_add_In; now right.
  - specialize (Hother Hne).
    assert (Hck : In k (completed d') <-> In k (completed d)).
    { destruct Hsets as [(v & _ & C & _) | (e & _ & C & _)];
        rewrite C; try tauto. rewrite set_add_In. tauto. }
    assert (Hfk : In k (failed d') <-> In k (failed d)).
    { destruct Hsets as [(v & _ & _ & C) | (e & _ & _ & C)];
        rewrite C; try tauto. rewrite set_add_In. tauto. }
    rewrite Hck, Hfk. split; [|split].
    + intros H. exact (closed_erase s s' Hother (T1 H)).
    + intros [H _] H1 H2. exact (started_erase s s' Hother (T2 H H1 H2)).
    + intros H H1 H2. apply (fresh_erase s s' Hother).
      apply T3; [|exact H1 | exact H2].
      intros HFk. apply H. now split.
Qed.

Section TickTiming.
Variable W : Type.
Variable backends : Registry W.
Variable now : W -> Z.
Variable sleepW : Z -> W -> W.
Variable expiredW : Z -> W -> W -> bool.
Variable task : Task.
Variable stepMap : list (string * Step).

Lemma beginAll_timing (runnable : list (string * Step)) :
  forall (F : string -> Prop) d w,
    NoDup (map fst runnable) ->
    (forall x, In x (map fst runnable) ->
               ~ F x /\ ~ In x (completed d) /\ ~ In x (failed d)) ->
    timing F d ->
    let out := beginAll W now task stepMap runnable (d, w) in
    timing (fun x => F x \/ In x (launched_ids (fst out))) (fst (snd out))
    /\ (forall x, In x (launched_ids (fst out)) -> ~ In x (completed (fst (snd out)))).
Proof.
  induction runnable as [|[id step] rest IH]; intros F d w Hnd Hpre Ht; cbv zeta.
  - simpl. split; [|intros x []]. revert Ht. apply timing_ext. intros x. tauto.
  - simpl beginAll. unfold bind.
    pose proof (beginStep_sets W now task stepMap id step d w) as Hb.
    pose proof (beginStep_timing W now sleepW expiredW task stepMap id step d w) as Hr.
    cbv zeta in Hr.
    destruct (beginStep W now task stepMap id step (d, w)) as [b [d0 w0]].
    unfold begun_sets in Hb. cbn [fst snd] in Hb, Hr. destruct Hb as [_ Hb].
    simpl in Hnd. apply NoDup_cons_iff in Hnd as [Hid Hnd].
    destruct (Hpre id (or_introl eq_refl)) as (HF & Hc & Hf).
    assert (Hsets : (launched b = true /\ completed d0 = completed d
                     /\ failed d0 = failed d)
                    \/ (exists v, b = Finished (Ok v)
                                  /\ completed d0 = set_add (completed d) id
                                  /\ failed d0 = failed d)
                    \/ (exists e, b = Finished (Err e)
                                  /\ completed d0 = completed d
                                  /\ failed d0 = set_add (failed d) id)).
    { destruct Hb as [(H1 & H2 & H3 & _) | [(v & H1 & H2 & H3 & _) | (e & H1 & H2 & H3 & _)]].
      - left. auto.
      - right. left. exists v. auto.
      - right. right. exists e. auto. }
    pose proof (begin_timing F id b d d0 HF Hc Hf Hr Hsets Ht) as Ht0.
    assert (Hpre0 : forall x, In x (map fst rest) ->
              ~ (F x \/ (launched b = true /\ x = id))
              /\ ~ In x (completed d0) /\ ~ In x (failed d0)).
    { intros x Hx. destruct (Hpre x (or_intror Hx)) as (H1 & H2 & H3).
      assert (Hne : x <> id) by (intros ->; contradiction).
      split; [intros [H | [_ H]]; contradiction|].
      destruct Hsets as [(_ & C & Fd) | [(v & _ & C & Fd) | (e & _ & C & Fd)]];
        rewrite C, Fd; rewrite ?set_add_In; tauto. }
    pose proof (beginAll_sets W now sleepW expiredW task stepMap rest d0 w0) as Hs.
    cbv zeta in Hs.
    specialize (IH _ d0 w0 Hnd Hpre0 Ht0). cbv zeta in IH.
    destruct (beginAll W now task stepMap rest (d0, w0)) as [bs [d1 w1]].
    unfold ret. cbn [fst snd] in *. destruct IH as [IH1 IH2].
    destruct Hs as (_ & _ & _ & Hnew & _).
    assert (El : forall x, In x (launched_ids ((id, step, b) :: bs))
                           <-> (launched b = true /\ x = id) \/ In x (launched_ids bs)).
    { intros x. unfold launched_ids. simpl filter.
      destruct (launched b); simpl; intuition (try discriminate; auto). }
    split.
    + revert IH1. apply timing_ext. intros x. rewrite El. tauto.
    + intros x Hx. apply El in Hx as [[Hl ->] | Hx]; [|now apply IH2].
      intros Hin. destruct (Hnew id Hin) as [H | H]; [|contradiction].
      destruct Hsets as [(_ & C & _) | [(v & -> & _) | (e & -> & _)]];
        try discriminate. rewrite C in H. contradiction.
Qed.

Lemma finishAll_timing (bs : list (string * Step * begun)) :
  forall (F : string -> Prop) d w,
    NoDup (map (fun x => fst (fst x)) bs) ->
    (forall x, In x (launched_ids bs) ->
               F x /\ ~ In x (completed d) /\ ~ In x (failed d)) ->
    timing F d ->
    timing (fun x => F x /\ ~ In x (launched_ids bs))
      (fst (snd (finishAll W backends now sleepW expiredW task stepMap bs (d, w)))).
Proof.
  induction bs as [|[[id step] b] rest IH]; intros F d w Hnd Hpre Ht.
  - simpl. revert Ht. apply timing_ext. intros x. tauto.
  - simpl in Hnd. apply NoDup_cons_iff in Hnd as [Hid Hnd].
    assert (Hrest : forall x, In x (launched_ids rest) ->
                              In x (map (fun x => fst (fst x)) rest)).
    { intros x Hx. unfold launched_ids in Hx.
      apply in_map_iff in Hx as [y [<- Hy]]. apply filter_In in Hy as [Hy _].
      apply in_map_iff. now exists y. }
    simpl finishAll. unfold bind.
    destruct (launched b) eqn:Hl.
    + assert (El : forall x, In x (launched_ids ((id, step, b) :: rest))
                             <-> x = id \/ In x (launched_ids rest)).
      { intros x. unfold launched_ids. simpl filter. rewrite Hl. simpl.
        intuition. }
      pose proof (finishStep_sets W backends now sleepW expiredW task stepMap
                    id step b d w Hl) as Hs.
      pose proof (finishStep_timing W backends now sleepW expiredW task stepMap
                    id step b d w Hl) as Hr.
      cbv zeta in Hs, Hr.
      destruct (finishStep W backends now sleepW expiredW task stepMap id step b (d, w))
        as [o [d0 w0]].
      cbn [fst snd] in Hs, Hr. destruct Hs as (_ & _ & Hs).
      destruct (Hpre id (proj2 (El id) (or_introl eq_refl))) as (HF & Hc & Hf).
      pose proof (finish_timing F id o d d0 HF Hc Hf Hr Hs Ht) as Ht0.
      assert (Hpre0 : forall x, In x (launched_ids rest) ->
                (F x /\ x <> id) /\ ~ In x (completed d0) /\ ~ In x (failed d0)).
      { intros x Hx.
        destruct (Hpre x (proj2 (El x) (or_intror Hx))) as (H1 & H2 & H3).
        assert (Hne : x <> id) by (intros ->; apply Hid; now apply Hrest).
        split; [now split|].
        destruct Hs as [(v & _ & C & Fd) | (e & _ & C & Fd)];
          rewrite C, Fd; rewrite ?set_add_In; tauto. }
      specialize (IH _ d0 w0 Hnd Hpre0 Ht0).
      destruct (finishAll W backends now sleepW expiredW task stepMap rest (d0, w0))
        as [os [d2 w2]].
      unfold ret. cbn [fst snd] in *.
      revert IH. apply timing_ext. intros x. rewrite El. tauto.
    + destruct b as [out| |]; try discriminate.
      change (let (o, s') := finishStep W backends now sleepW expiredW task stepMap
                               id step (Finished out) (d, w) in
              (let (a, s'0) := finishAll W backends now sleepW expiredW task
                                 stepMap rest s' in ret (o :: a) s'0))
        with (let (a, s'0) := finishAll W backends now sleepW expiredW task
                                stepMap rest (d, w) in ret (out :: a) s'0).
      specialize (IH F d w Hnd Hpre Ht).
      destruct (finishAll W backends now sleepW expiredW task stepMap rest (d, w))
        as [os [d2 w2]].
      unfold ret. cbn [fst snd] in *. exact IH.
Qed.

(** A tick that does not fail, from records without a step in flight,
    leaves such records. *)
Lemma dag_tick_timing (runnable : list (string * Step)) (d : DagState) (w : W) :
  NoDup (map fst runnable) ->
  (forall x, In x (map fst runnable) -> ~ In x (completed d) /\ ~ In x (failed d)) ->
  let out := dag_tick W backends now sleepW expiredW task stepMap runnable (d, w) in
  fst out = None ->
  timing (fun _ => False) d -> timing (fun _ => False) (fst (snd out)).
Proof.
  intros Hnd Hpre. cbv zeta. unfold dag_tick, bind.
  set (d0 := if (1 <? length runnable)%nat
             then d_push_group (map fst runnable) d else d).
  assert (E0 : (if (1 <? length runnable)%nat
                then upd W (d_push_group (map fst runnable))
                else ret tt) (d, w) = (tt, (d0, w))).
  { unfold d0. destruct (1 <? length runnable)%nat; reflexivity. }
  rewrite E0.
  assert (Hd0 : completed d0 = completed d /\ failed d0 = failed d
                /\ stepStatuses d0 = stepStatuses d).
  { unfold d0. destruct (1 <? length runnable)%nat; repeat split. }
  destruct Hd0 as (Hc0 & Hf0 & Hs0).
  pose proof (beginAll_sets W now sleepW expiredW task stepMap runnable d0 w) as Hb.
  pose proof (beginAll_timing runnable (fun _ => False) d0 w Hnd) as Hbt.
  cbv zeta in Hb, Hbt.
  destruct (beginAll W now task stepMap runnable (d0, w)) as [bs [d1 w1]].
  pose proof (finishAll_sets W backends now sleepW expiredW task stepMap bs d1 w1)
    as Hf.
  pose proof (finishAll_timing bs (fun x => False \/ In x (launched_ids bs)) d1 w1)
    as Hft.
  cbv zeta in Hf.
  destruct (finishAll W backends now sleepW expiredW task stepMap bs (d1, w1))
    as [os [d2 w2]].
  unfold ret. cbn [fst snd] in *.
  intros Hfe Ht. specialize (Hf Hfe).
  destruct Hb as (Hids & _ & _ & _ & _ & _ & _ & Hfail1).
  destruct Hf as (_ & _ & Hno & _).
  assert (Ht0 : timing (fun _ => False) d0).
  { intros k s Hin. rewrite Hs0 in Hin. rewrite Hc0, Hf0. exact (Ht k s Hin). }
  destruct Hbt as [Ht1 Hnc1].
  { intros x Hx. rewrite Hc0, Hf0. split; [tauto | now apply Hpre]. }
  { exact Ht0. }
  assert (Hlaunched : forall x, In x (launched_ids bs) -> In x (map fst runnable)).
  { intros x Hx. rewrite <- Hids. unfold launched_ids in Hx.
    apply in_map_iff in Hx as [y [<- Hy]]. apply filter_In in Hy as [Hy _].
    apply in_map_iff. now exists y. }
  assert (Ht2 := Hft).
  specialize (Ht2 ltac:(now rewrite Hids)).
  assert (Hpre1 : forall x, In x (launched_ids bs) ->
            (False \/ In x (launched_ids bs))
            /\ ~ In x (completed d1) /\ ~ In x (failed d1)).
  { intros x Hx. split; [now right|]. split; [now apply Hnc1|].
    rewrite (Hfail1 Hno), Hf0. now apply Hpre, Hlaunched. }
  specialize (Ht2 Hpre1 Ht1).
  revert Ht2. apply timing_ext. intros x. tauto.
Qed.
End TickTiming.

(* ================================================================= *)
(** ** What holds between the ticks of a run *)

Lemma filter_keys_distinct {V : Type} (keep : string * V -> bool)
  (m : list (string * V)) :
  NoDup (map fst m) -> NoDup (map fst (filter keep m)).
Proof.
  intros Hnd. induction m as [|[k v] m IH]; simpl; [constructor|].
  simpl in Hnd. apply NoDup_cons_iff in Hnd as [Hfresh Hnd].
  destruct (keep (k, v)); simpl; [|now apply IH].
  apply NoDup_cons; [|now apply IH].
  intros Hin. apply Hfresh. apply in_map_iff in Hin as [[k' v'] [E Hy]].
  apply filter_In in Hy as [Hy _]. simpl in E. subst k'.
  apply in_map_iff. now exists (k, v').
Qed.

Section LoopRecords.
Variable W : Type.
Variable backends : Registry W.
Variable now : W -> Z.
Variable sleepW : Z -> W -> W.
Variable expiredW : Z -> W -> W -> bool.
Variable task : Task.
Variable stepMap : list (string * Step).
Variable steps0 : list Step.
Variable stepIndexToId : list string.

Hypothesis stepMap_keys : NoDup (map fst stepMap).

Let loop := dag_loop W backends now sleepW expiredW task stepMap steps0 stepIndexToId.

Lemma runnable_fresh (d : DagState) :
  NoDup (map fst (getRunnableSteps stepMap d))
  /\ (forall x, In x (map fst (getRunnableSteps stepMap d)) -> ~ In x (completed d))
  /\ (forall id step, In (id, step) stepMap ->
        In id (map fst (getRunnableSteps stepMap d)) ->
        forall dep, In dep (dependencies step) -> In dep (completed d)).
Proof.
  unfold getRunnableSteps. split; [now apply filter_keys_distinct|]. split.
  - intros x Hx. apply in_map_iff in Hx as [[id step] [<- Hy]].
    apply filter_In in Hy as [_ Hy]. apply canRun_iff in Hy. tauto.
  - intros id step Hin Hx dep Hdep.
    apply in_map_iff in Hx as [[id' step'] [E Hy]]. simpl in E. subst id'.
    apply filter_In in Hy as [Hin' Hy]. simpl in Hy.
    assert ((id, step') = (id, step)).
    { apply (NoDup_map_same fst stepMap); auto. }
    injection H as ->. apply canRun_iff in Hy.
    destruct Hy as (_ & _ & _ & Hdeps). now apply Hdeps.
Qed.

(** A tick that does not fail keeps what holds between the ticks. *)
Lemma dag_tick_invariant (d : DagState) (w : W) (r : string * Step)
  (rs : list (string * Step)) :
  run_invariant stepMap d ->
  getRunnableSteps stepMap d = r :: rs ->
  let out := dag_tick W backends now sleepW expiredW task stepMap (r :: rs) (d, w) in
  fst out = None ->
  run_invariant stepMap (fst (snd out)).
Proof.
  intros (Htim & Hkey & Hlab & Hfin & Hord & Hgs & Hgn & Hgi) Hrun. cbv zeta.
  intros Hok.
  destruct (runnable_fresh d) as (Hnd & Hfresh & Hdeps). rewrite Hrun in *.
  destruct (dag_tick_records W backends now sleepW expiredW task stepMap
              (r :: rs) d w Hnd Hfresh) as (Hg & Hl & (extra & He & Hi) & Hf).
  pose proof (dag_tick_completes W backends now sleepW expiredW task stepMap
                (r :: rs) d w Hok) as Hall.
  pose proof (dag_tick_keyed W backends now sleepW expiredW task stepMap
                (r :: rs) d w Hkey) as Hkey'.
  assert (Htim' : timing (fun _ => False)
                    (fst (snd (dag_tick W backends now sleepW expiredW task stepMap
                                 (r :: rs) (d, w))))).
  { apply (dag_tick_timing W backends now sleepW expiredW task stepMap
             (r :: rs) d w Hnd); [|exact Hok | exact Htim].
    intros x Hx. split; [now apply Hfresh|].
    rewrite <- Hrun in Hx. unfold getRunnableSteps in Hx.
    apply in_map_iff in Hx as [[id step] [<- Hy]].
    apply filter_In in Hy as [_ Hy]. apply canRun_iff in Hy. tauto. }
  set (d' := fst (snd (dag_tick W backends now sleepW expiredW task stepMap
                         (r :: rs) (d, w)))) in *.
  split; [exact Htim'|].
  split; [exact Hkey'|].
  split; [congruence|]. split; [now apply Hf|]. split.
  - intros id step dep Hin Hid Hdep.
    destruct (in_dec string_dec id (completed d)) as [Hc | Hc].
    + destruct (Hord id step dep Hin Hc Hdep) as (l1 & l2 & E & Hl1).
      exists l1, (l2 ++ extra)%list. split; [|exact Hl1].
      rewrite He, E, <- app_assoc. reflexivity.
    + rewrite He in Hid. apply in_app_iff in Hid as [Hid | Hid]; [contradiction|].
      destruct (in_split _ _ Hid) as (e1 & e2 & E).
      exists (completed d ++ e1)%list, e2.
      split; [rewrite He, E, <- app_assoc; reflexivity|].
      apply in_app_iff. left. apply (Hdeps id step Hin); [|exact Hdep].
      now apply Hi.
  - assert (Hmono : incl (completed d) (completed d')).
    { intros x Hx. rewrite He. apply in_app_iff. now left. }
    unfold groups_sound. rewrite Hg.
    destruct (1 <? length (r :: rs))%nat eqn:Hlen.
    + split; [|split].
      * apply Forall_app. split; [exact Hgs|].
        constructor; [|constructor]. rewrite length_map.
        apply Nat.ltb_lt in Hlen. lia.
      * rewrite concat_app. simpl. rewrite app_nil_r.
        apply NoDup_app; [exact Hgn | exact Hnd|].
        intros a Ha Hb. apply (Hfresh a Hb). now apply Hgi.
      * rewrite concat_app. simpl. rewrite app_nil_r.
        intros x Hx. apply in_app_iff in Hx as [Hx | Hx].
        -- now apply Hmono, Hgi.
        -- now apply Hall.
    + split; [exact Hgs|]. split; [exact Hgn|].
      intros x Hx. now apply Hmono, Hgi.
Qed.

(** When the loop ends normally, from a state between two ticks, it
    leaves such a state, with as many completed steps as there are
    declared ones. *)
Lemma dag_loop_invariant (fuel : nat) :
  forall d w,
    between_ticks stepMap d -> run_invariant stepMap d ->
    let out := loop fuel (d, w) in
    fst out = Some (Ok tt) ->
    between_ticks stepMap (fst (snd out))
    /\ run_invariant stepMap (fst (snd out))
    /\ (length steps0 <= length (completed (fst (snd out))))%nat.
Proof.
  induction fuel as [|f IH]; intros d w Hbt Hinv; cbv zeta.
  - simpl. discriminate.
  - unfold loop. simpl dag_loop. fold loop. unfold bind, look. cbn [fst snd].
    pose proof Hbt as (Hrun & Hfail & Hnd & Hincl).
    destruct (length (completed d) + length (failed d) <? length steps0)%nat eqn:Hlt.
    2:{ intros _. unfold ret. cbn [fst snd].
        apply Nat.ltb_ge in Hlt. rewrite Hfail in Hlt. simpl in Hlt.
        split; [exact Hbt|]. split; [exact Hinv | lia]. }
    destruct (getRunnableSteps stepMap d) as [|r rs] eqn:Hrunnable.
    + rewrite Hrun. unfold ret. cbn [fst snd]. discriminate.
    + pose proof (dag_tick_between W backends now sleepW expiredW task stepMap
                    d w r rs Hbt Hrunnable) as Htick.
      pose proof (dag_tick_invariant d w r rs Hinv Hrunnable) as Hti.
      cbv zeta in Htick, Hti.
      destruct (dag_tick W backends now sleepW expiredW task stepMap (r :: rs) (d, w))
        as [err [d1 w1]].
      cbn [fst snd] in Htick, Hti.
      destruct err as [e|]; [unfold ret; cbn [fst snd]; discriminate|].
      destruct (Htick eq_refl) as (Hbt1 & _ & _).
      specialize (Hti eq_refl).
      unfold upd. cbn [fst snd].
      apply IH; [exact Hbt1 | exact Hti].
Qed.
End LoopRecords.

Lemma map_set_fresh {A : Type} (m : list (string * A)) (k : string) (a : A) :
  ~ In k (map fst m) -> map_set m k a = (m ++ [(k, a)])%list.
Proof.
  intros Hnot. induction m as [|[k' b] rest IH]; simpl; [reflexivity|].
  destruct (String.eqb_spec k' k) as [->|Hk].
  - elim Hnot. now left.
  - rewrite IH; [reflexivity|]. intros H. apply Hnot. now right.
Qed.

(** With distinct ids the step map lists the steps in their declared
    order, each under its id. *)
Lemma buildStepMap_distinct (steps0 : list Step) :
  forall index stepMap,
    NoDup (map fst stepMap ++ buildIndexToId steps0 index) ->
    buildStepMap steps0 index stepMap
    = (stepMap ++ combine (buildIndexToId steps0 index) steps0)%list.
Proof.
  induction steps0 as [|step rest IH]; intros index stepMap Hnd; simpl.
  - now rewrite app_nil_r.
  - simpl in Hnd.
    assert (Hfresh : ~ In (stepIdOf step index) (map fst stepMap)).
    { apply NoDup_remove_2 in Hnd. intros H. apply Hnd.
      apply in_app_iff. now left. }
    rewrite (map_set_fresh _ _ _ Hfresh). rewrite IH.
    + rewrite <- app_assoc. reflexivity.
    + rewrite map_app, <- app_assoc. exact Hnd.
Qed.

Lemma combine_fst {A B : Type} (l : list A) (l' : list B) :
  length l = length l' -> map fst (combine l l') = l /\ map snd (combine l l') = l'.
Proof.
  revert l'. induction l as [|a l IH]; intros [|b l'] H; simpl in *;
    try discriminate; [split; reflexivity|].
  destruct (IH l') as [H1 H2]; [lia|]. now rewrite H1, H2.
Qed.

Lemma run_invariant_init (stepMap : list (string * Step)) :
  run_invariant stepMap (d_init stepMap).
Proof.
  split.
  { intros k s Hin. unfold d_init in Hin. simpl in Hin.
    apply in_map_iff in Hin as [e [E _]]. injection E as _ <-.
    split; [intros []|]. split; [intros []|]. intros _ _ _. repeat split. }
  split; [reflexivity|].
  split; [reflexivity|]. split; [intros k s _ []|]. split; [intros id step dep _ []|].
  split; [constructor|]. split; [constructor | intros x []].
Qed.

Section RunRecords.
Variable W : Type.
Variable backends : Registry W.
Variable now : W -> Z.
Variable sleepW : Z -> W -> W.
Variable expiredW : Z -> W -> W -> bool.

(** A run of the DAG runner that returns a result: the state its loop
    leaves, and the result built from it. *)
Lemma dag_run_final (task : Task) (d0 : DagState) (w : W) (p : PipelineResult) :
  fst (processPipelineDAG W backends now sleepW expiredW task (d0, w)) = Some (Ok p) ->
  exists d1,
    between_ticks (stepMapOf task) d1
    /\ run_invariant (stepMapOf task) d1
    /\ (length (stepsOf task) <= length (completed d1))%nat
    /\ steps p = map (obj_get (results d1)) (idsOf task)
    /\ stepResults p = results d1
    /\ stepStatus p = map snd (stepStatuses d1)
    /\ parallelGroups p = groups d1
    /\ finalResult p = last (steps p) VUndef.
Proof.
  intros Hok.
  unfold processPipelineDAG, dag_run in Hok.
  fold (stepsOf task) in Hok. fold (stepMapOf task) in Hok.
  fold (idsOf task) in Hok.
  unfold bind at 1 in Hok. unfold getNow at 1 in Hok.
  unfold bind at 1 in Hok. unfold upd at 1 in Hok.
  cbn [fst snd] in Hok. unfold bind at 1 in Hok. cbv beta in Hok.
  pose proof (dag_loop_invariant W backends now sleepW expiredW task (stepMapOf task)
                (stepsOf task) (idsOf task)
                (proj1 (buildStepMap_keys (stepsOf task) 0 [] (NoDup_nil _)))
                (Datatypes.S (length (stepsOf task)))
                (d_init (stepMapOf task)) w (between_ticks_init _)
                (run_invariant_init _)) as Hl.
  cbv zeta in Hl.
  destruct (dag_loop W backends now sleepW expiredW task (stepMapOf task)
              (stepsOf task) (idsOf task) (Datatypes.S (length (stepsOf task)))
              (d_init (stepMapOf task), w)) as [r [d1 w1]].
  cbn [fst snd] in Hl, Hok.
  destruct r as [[[]|e]|]; try discriminate.
  destruct (Hl eq_refl) as (Hbt & Hinv & Hn).
  cbv beta iota zeta delta [bind look getNow d_emit upd ret fst snd] in Hok.
  injection Hok as <-. exists d1.
  cbn [steps stepResults stepStatus parallelGroups finalResult].
  split; [exact Hbt|]. split; [exact Hinv|]. split; [exact Hn|].
  repeat split.
Qed.

(** In a run that returns a result the declared ids are distinct, the
    step map lists the steps under them, and every one is completed. *)
Lemma dag_success_ids (task : Task) (d1 : DagState) :
  between_ticks (stepMapOf task) d1 ->
  (length (stepsOf task) <= length (completed d1))%nat ->
  NoDup (idsOf task)
  /\ stepMapOf task = combine (idsOf task) (stepsOf task)
  /\ (forall x, In x (idsOf task) <-> In x (completed d1)).
Proof.
  intros (_ & _ & Hnd & Hincl) Hn.
  destruct (buildStepMap_keys (stepsOf task) 0 [] (NoDup_nil _)) as [Hk Hin].
  fold (stepMapOf task) in Hk, Hin. fold (idsOf task) in Hin.
  pose proof (NoDup_incl_length Hnd Hincl) as Hle. rewrite length_map in Hle.
  assert (Hids : NoDup (idsOf task)).
  { apply (NoDup_incl_NoDup Hk).
    - rewrite length_map. unfold idsOf. rewrite buildIndexToId_length. lia.
    - intros k Hx. apply Hin in Hx as [[] | Hx]. exact Hx. }
  split; [exact Hids|]. split.
  - unfold stepMapOf, idsOf. now rewrite buildStepMap_distinct.
  - intros x. split.
    + intros Hx.
      assert (Hlen : (length (map fst (stepMapOf task)) <= length (completed d1))%nat).
      { rewrite length_map.
        pose proof (proj1 (buildStepMap_size (stepsOf task))) as Hs.
        fold (stepMapOf task) in Hs. lia. }
      apply (NoDup_length_incl Hnd Hlen Hincl). apply Hin. now right.
    + intros Hx. apply Hincl in Hx. apply Hin in Hx as [[] | Hx]. exact Hx.
Qed.
End RunRecords.

(* ================================================================= *)
(** ** The result of a run of the DAG runner *)

Section DagResults.
Variable W : Type.
Variable backends : Registry W.
Variable now : W -> Z.
Variable sleepW : Z -> W -> W.
Variable expiredW : Z -> W -> W -> bool.

Lemma labels_init (stepMap : list (string * Step)) :
  labels (d_init stepMap) = map (fun e => (fst e, fst e, s_task (snd e))) stepMap.
Proof. unfold labels, d_init. simpl. rewrite map_map. reflexivity. Qed.

(** The records of a state that the loop leaves when it ends normally:
    one per step, in declared order, with the step's id and task type,
    each completed or skipped. *)
Lemma dag_final_records (task : Task) (d1 : DagState) :
  between_ticks (stepMapOf task) d1 ->
  run_invariant (stepMapOf task) d1 ->
  (length (stepsOf task) <= length (completed d1))%nat ->
  map st_id (map snd (stepStatuses d1)) = idsOf task
  /\ map st_task (map snd (stepStatuses d1)) = map s_task (stepsOf task)
  /\ Forall finished (map snd (stepStatuses d1))
  /\ (forall k s, In (k, s) (stepStatuses d1) -> In k (completed d1)).
Proof.
  intros Hbt (_ & _ & Hlab & Hfin & _) Hn.
  destruct (dag_success_ids task d1 Hbt Hn) as (Hnd & Hmap & Hall).
  rewrite labels_init in Hlab. unfold labels in Hlab.
  assert (Hlen : length (idsOf task) = length (stepsOf task))
    by apply buildIndexToId_length.
  destruct (combine_fst (idsOf task) (stepsOf task) Hlen) as [Hc1 Hc2].
  assert (Hkeys : forall k s, In (k, s) (stepStatuses d1) -> In k (completed d1)).
  { intros k s Hin. apply Hall.
    apply (f_equal (map (fun t => fst (fst t)))) in Hlab.
    rewrite !map_map in Hlab. simpl in Hlab.
    rewrite <- Hc1, <- Hmap.
    change (map fst (stepMapOf task)) with (map (fun x => fst x) (stepMapOf task)).
    rewrite <- Hlab. apply in_map_iff. now exists (k, s). }
  split; [|split; [|split; [|exact Hkeys]]].
  - rewrite map_map.
    apply (f_equal (map (fun t => snd (fst t)))) in Hlab.
    rewrite !map_map in Hlab. simpl in Hlab. rewrite Hlab.
    rewrite Hmap. exact Hc1.
  - rewrite map_map.
    apply (f_equal (map snd)) in Hlab.
    rewrite !map_map in Hlab. simpl in Hlab. rewrite Hlab.
    rewrite <- (map_map snd s_task), Hmap, Hc2. reflexivity.
  - apply Forall_forall. intros s Hin.
    apply in_map_iff in Hin as [[k s'] [E Hin]]. simpl in E. subst s'.
    apply (Hfin k s Hin). exact (Hkeys k s Hin).
Qed.

(** A run of the DAG runner that returns a result had steps with distinct
    ids.  The result lists the steps' results in declared order, each the
    value stored under the step's id, the last one being the final result;
    it has one record per step, in declared order, with the step's id and
    task type, and every record is completed or skipped. *)
Theorem dag_result_shape (task : Task) (d0 : DagState) (w : W) (p : PipelineResult)
  (Hok : fst (processPipelineDAG W backends now sleepW expiredW task (d0, w))
         = Some (Ok p)) :
  NoDup (idsOf task)
  /\ length (steps p) = length (stepsOf task)
  /\ steps p = map (obj_get (stepResults p)) (idsOf task)
  /\ finalResult p = last (steps p) VUndef
  /\ map st_id (stepStatus p) = idsOf task
  /\ map st_task (stepStatus p) = map s_task (stepsOf task)
  /\ Forall finished (stepStatus p).
Proof.
  destruct (dag_run_final W backends now sleepW expiredW task d0 w p Hok)
    as (d1 & Hbt & Hinv & Hn & Hs & Hr & Hst & _ & Hf).
  destruct (dag_success_ids task d1 Hbt Hn) as (Hnd & _ & _).
  destruct (dag_final_records task d1 Hbt Hinv Hn) as (Hi & Ht & Hfin & _).
  split; [exact Hnd|].
  split; [rewrite Hs, length_map; apply buildIndexToId_length|].
  split; [rewrite Hs, Hr; reflexivity|].
  split; [exact Hf|].
  rewrite Hst. split; [exact Hi|]. split; [exact Ht | exact Hfin].
Qed.

(** The times in the records of a DAG run that returns a result.  A
    completed record has no error message and has its start time, its
    completion time and, as duration, the time from the one to the other.
    A skipped record either carries the message of a failure, with the
    three time fields likewise, or carries no message and none of the three
    time fields: the step was skipped by its [runWhen]. *)
Theorem dag_record_times (task : Task) (d0 : DagState) (w : W) (p : PipelineResult)
  (Hok : fst (processPipelineDAG W backends now sleepW expiredW task (d0, w))
         = Some (Ok p)) :
  Forall closed (stepStatus p).
Proof.
  destruct (dag_run_final W backends now sleepW expiredW task d0 w p Hok)
    as (d1 & Hbt & Hinv & Hn & _ & _ & Hst & _).
  destruct (dag_final_records task d1 Hbt Hinv Hn) as (_ & _ & _ & Hkeys).
  destruct Hinv as (Htim & _).
  rewrite Hst. apply Forall_forall. intros s Hin.
  apply in_map_iff in Hin as [[k s'] [E Hin]]. simpl in E. subst s'.
  apply (Htim k s Hin). exact (Hkeys k s Hin).
Qed.


(** The parallel groups of a run of the DAG runner that returns a result
    have at least two steps each, all declared, and no step is in two
    groups or twice in one. *)
Theorem dag_parallel_groups (task : Task) (d0 : DagState) (w : W)
  (p : PipelineResult)
  (Hok : fst (processPipelineDAG W backends now sleepW expiredW task (d0, w))
         = Some (Ok p)) :
  Forall (fun g => (2 <= length g)%nat) (parallelGroups p)
  /\ NoDup (concat (parallelGroups p))
  /\ incl (concat (parallelGroups p)) (idsOf task).
Proof.
  destruct (dag_run_final W backends now sleepW expiredW task d0 w p Hok)
    as (d1 & Hbt & (_ & _ & _ & _ & _ & Hg1 & Hg2 & Hg3) & Hn & _ & _ & _ & Hg & _).
  destruct (dag_success_ids task d1 Hbt Hn) as (_ & _ & Hall).
  rewrite Hg. split; [exact Hg1|]. split; [exact Hg2|].
  intros x Hx. apply Hall. now apply Hg3.
Qed.
End DagResults.

Lemma dag_result_shape_witness :
  exists p,
    fst (processPipelineDAG Mock.World Mock.registry Mock.clock Mock.tick
           Mock.expired diamond (d_init [], Mock.w0)) = Some (Ok p)
    /\ map st_id (stepStatus p) = ["a"; "b"; "c"; "d"]
    /\ Forall finished (stepStatus p).
Proof.
  eexists. split; [vm_compute; reflexivity|].
  refine ((fun H => conj (proj1 (proj2 (proj2 (proj2 (proj2 H)))))
                      (proj2 (proj2 (proj2 (proj2 (proj2 (proj2 H)))))))
          (dag_result_shape Mock.World Mock.registry Mock.clock Mock.tick
             Mock.expired diamond (d_init []) Mock.w0 _ _)).
  vm_compute. reflexivity.
Defined.

Lemma dag_record_times_witness :
  exists p,
    fst (processPipelineDAG Mock.World Mock.registry Mock.clock Mock.tick
           Mock.expired lazyDag (d_init [], Mock.w0)) = Some (Ok p)
    /\ Forall closed (stepStatus p).
Proof.
  eexists. split; [vm_compute; reflexivity|].
  refine (dag_record_times Mock.World Mock.registry Mock.clock Mock.tick
            Mock.expired lazyDag (d_init []) Mock.w0 _ _).
  vm_compute. reflexivity.
Defined.


Lemma dag_parallel_groups_witness :
  exists p,
    fst (processPipelineDAG Mock.World Mock.registry Mock.clock Mock.tick
           Mock.expired diamond (d_init [], Mock.w0)) = Some (Ok p)
    /\ parallelGroups p = [["b"; "c"]]
    /\ NoDup (concat (parallelGroups p)).
Proof.
  eexists. split; [vm_compute; reflexivity|].
  split; [vm_compute; reflexivity|].
  refine (proj1 (proj2
    (dag_parallel_groups Mock.World Mock.registry Mock.clock Mock.tick
       Mock.expired diamond (d_init []) Mock.w0 _ _))).
  vm_compute. reflexivity.
Defined.

(* ================================================================= *)
(** ** The time spent backing off *)

Lemma totalSlept_app (a b : list RetryTrace.Event) :
  totalSlept (a ++ b) = (totalSlept a + totalSlept b)%Z.
Proof.
  induction a as [|[x y| |ms] a IH]; simpl; try exact IH; lia.
Qed.

Lemma totalSlept_rounds (retry : RetryConfig) (n : Z) (k : nat) :
  forall a, (1 <= a)%Z ->
    totalSlept (RetryTrace.failedRounds retry n a k)
    = match backoff retry with
      | Some Exponential =>
          (RetryTrace.baseDelay retry * 2 ^ (a - 1) * (2 ^ Z.of_nat k - 1))%Z
      | _ => (RetryTrace.baseDelay retry * Z.of_nat k)%Z
      end.
Proof.
  induction k as [|k IH]; intros a Ha.
  - simpl. destruct (backoff retry) as [[|]|]; lia.
  - cbn [RetryTrace.failedRounds totalSlept]. rewrite IH by lia.
    unfold RetryTrace.backoffDelay. rewrite Nat2Z.inj_succ.
    destruct (backoff retry) as [[|]|]; try lia.
    replace (a + 1 - 1)%Z with (Z.succ (a - 1)) by lia.
    rewrite !Z.pow_succ_r by lia. ring.
Qed.

(** With a retry policy of [n >= 2] attempts, a run whose first [k < n]
    attempts fail and whose next one succeeds has slept, in all, [k] times
    the base delay under "fixed" backoff (or none named) and
    [2^k - 1] times the base delay under "exponential" backoff; a run whose
    [n] attempts all fail has slept the same as after [n - 1] failures.
    The field [maxDelay] caps nothing. *)
Theorem retry_total_backoff (retry : RetryConfig) (n : Z)
  (Ha : attempts retry = Some n) (Hn : (2 <= n)%Z) :
  (forall errs v more,
     (Z.of_nat (length errs) < n)%Z ->
     totalSlept (RetryTrace.trace
                   (snd (RetryTrace.run (Some retry) (map Err errs ++ Ok v :: more))))
     = backoffTotal retry (length errs))
  /\ (forall e0 errs more,
        Z.of_nat (length (e0 :: errs)) = n ->
        totalSlept (RetryTrace.trace
                      (snd (RetryTrace.run (Some retry) (map Err (e0 :: errs) ++ more))))
        = backoffTotal retry (length errs)).
Proof.
  assert (Hrounds : forall k,
            totalSlept (RetryTrace.failedRounds retry n 1 k) = backoffTotal retry k).
  { intros k. rewrite totalSlept_rounds by lia. unfold backoffTotal.
    destruct (backoff retry) as [[|]|]; try reflexivity.
    change (1 - 1)%Z with 0%Z. rewrite Z.pow_0_r. ring. }
  split.
  - intros errs v more Hlen. unfold RetryTrace.run.
    rewrite (executeWithRetry_loop retry n _ Ha Hn).
    rewrite (retry_loop_success retry n v more errs (Z.to_nat n) 1 [] None)
      by lia.
    cbn [snd RetryTrace.trace app]. rewrite totalSlept_app, Hrounds. simpl. lia.
  - intros e0 errs more Hlen. unfold RetryTrace.run.
    rewrite (executeWithRetry_loop retry n _ Ha Hn).
    rewrite (retry_loop_exhausted retry n errs e0 (Z.to_nat n) 1 [] None more)
      by (simpl in *; lia).
    cbn [snd RetryTrace.trace app]. rewrite totalSlept_app, Hrounds. simpl. lia.
Qed.

Lemma retry_total_backoff_witness :
  totalSlept (RetryTrace.trace
                (snd (RetryTrace.run (Some retry3)
                        (map Err ["e1"; "e2"] ++ Ok VNull :: []))))
  = backoffTotal retry3 2.
Proof.
  apply (proj1 (retry_total_backoff retry3 3 eq_refl ltac:(lia)) ["e1"; "e2"] VNull []).
  simpl. lia.
Defined.

(* ================================================================= *)
(** ** Decimal numerals as keys *)

Lemma digits_value_uint (d : Decimal.uint) :
  forall acc,
    digits_value acc (list_ascii_of_string (NilEmpty.string_of_uint d))
    = Some (Nat.of_uint_acc d acc).
Proof.
  induction d; intros acc; simpl; try reflexivity;
    rewrite IHd; f_equal; f_equal; rewrite Nat.tail_mul_spec; lia.
Qed.

Lemma to_uint_normal (n : nat) : Decimal.unorm (Nat.to_uint n) = Nat.to_uint n.
Proof.
  rewrite <- (DecimalNat.Unsigned.to_of (Nat.to_uint n)), DecimalNat.Unsigned.of_to. reflexivity.
Qed.

Lemma parse_index_digits (c : ascii) (rest : list ascii) :
  Ascii.eqb c "0" = false ->
  parse_index (string_of_list_ascii (c :: rest)) = digits_value 0 (c :: rest).
Proof.
  intros Hc. unfold parse_index. rewrite list_ascii_of_string_of_list_ascii.
  destruct rest; [reflexivity|]. now rewrite Hc.
Qed.

Lemma parse_index_string_of_nat (n : nat) : parse_index (string_of_nat n) = Some n.
Proof.
  unfold string_of_nat.
  pose proof (to_uint_normal n) as Hnorm.
  pose proof (DecimalNat.Unsigned.of_to n) as Hof. unfold Nat.of_uint in Hof.
  pose proof (digits_value_uint (Nat.to_uint n) 0) as Hd. rewrite Hof in Hd.
  destruct (Nat.to_uint n) as [|d|d|d|d|d|d|d|d|d|d] eqn:E.
  1:{ elim (DecimalFacts.unorm_nonnil _ Hnorm). }
  1:{ rewrite DecimalFacts.unorm_D0 in Hnorm.
      destruct (Decimal.nzhead d) eqn:Ez.
      1:{ assert (Hu : Decimal.unorm d = Decimal.D0 Decimal.Nil) by (now apply DecimalFacts.unorm_0).
          rewrite Hu in Hnorm. injection Hnorm as <-. simpl in Hof. now subst n. }
      all: rewrite (DecimalFacts.unorm_nzhead d) in Hnorm by (rewrite Ez; discriminate);
        rewrite Ez in Hnorm; discriminate || (elim (DecimalFacts.nzhead_nonzero d d); congruence). }
  all: cbn [NilZero.string_of_uint NilEmpty.string_of_uint] in *;
    rewrite <- (string_of_list_ascii_of_string (String _ _));
    cbn [list_ascii_of_string] in *;
    rewrite parse_index_digits by reflexivity; exact Hd.
Qed.


Lemma string_of_nat_inj (a b : nat) : string_of_nat a = string_of_nat b -> a = b.
Proof.
  intros H. apply (f_equal parse_index) in H.
  rewrite !parse_index_string_of_nat in H. now injection H.
Qed.

Lemma uint_plain (d : Decimal.uint) :
  plain_key (NilEmpty.string_of_uint d) = true.
Proof.
  unfold plain_key. induction d; simpl; try reflexivity; exact IHd.
Qed.

Lemma string_of_nat_plain (n : nat) : plain_key (string_of_nat n) = true.
Proof.
  unfold string_of_nat, NilZero.string_of_uint.
  destruct (Nat.to_uint n) eqn:E; try (rewrite <- E; apply uint_plain); reflexivity.
Qed.

(* ================================================================= *)
(** ** Paths and the contexts of the two runners *)

Lemma split_dot_nonempty (s : string) : split_dot s <> [].
Proof.
  induction s as [|c s IH]; simpl; [discriminate|].
  destruct (Ascii.eqb c "."); [discriminate|].
  destruct (split_dot s); [contradiction | discriminate].
Qed.

Lemma split_dot_app (p q : string) :
  split_dot (p ++ String "." q) = (split_dot p ++ split_dot q)%list.
Proof.
  induction p as [|c p IH]; simpl; [reflexivity|].
  destruct (Ascii.eqb c "."); [now rewrite IH|].
  rewrite IH. pose proof (split_dot_nonempty p) as Hp.
  destruct (split_dot p) as [|x xs]; [contradiction | reflexivity].
Qed.

Lemma split_dot_plain (key : string) : plain_key key = true -> split_dot key = [key].
Proof.
  unfold plain_key. induction key as [|c key IH]; simpl; [reflexivity|].
  intros H. apply andb_true_iff in H as [Hc H].
  apply andb_true_iff in Hc as [Hc _]. apply negb_true_iff in Hc.
  rewrite Hc, (IH H). reflexivity.
Qed.

Lemma drop_spaces_clean (l : list ascii) :
  forallb (fun c => negb (is_space c)) l = true -> drop_spaces l = l.
Proof.
  destruct l as [|c l]; simpl; [reflexivity|].
  intros H. apply andb_true_iff in H as [Hc _]. apply negb_true_iff in Hc.
  now rewrite Hc.
Qed.

Lemma forallb_rev {A : Type} (f : A -> bool) (l : list A) :
  forallb f (rev l) = forallb f l.
Proof.
  induction l as [|a l IH]; simpl; [reflexivity|].
  rewrite forallb_app, IH. simpl. rewrite andb_true_r. apply andb_comm.
Qed.

(** [trim] leaves a string without white space as it is. *)
Lemma trim_clean (s : string) :
  forallb (fun c => negb (is_space c)) (list_ascii_of_string s) = true ->
  trim s = s.
Proof.
  intros H. unfold trim. rewrite (drop_spaces_clean _ H).
  rewrite drop_spaces_clean by (now rewrite forallb_rev).
  rewrite rev_involutive. apply string_of_list_ascii_of_string.
Qed.

Lemma list_ascii_app (a b : string) :
  list_ascii_of_string (a ++ b) = (list_ascii_of_string a ++ list_ascii_of_string b)%list.
Proof. induction a as [|c a IH]; simpl; [reflexivity | now rewrite IH]. Qed.

Lemma plain_no_space (key : string) :
  plain_key key = true ->
  forallb (fun c => negb (is_space c)) (list_ascii_of_string key) = true.
Proof.
  unfold plain_key. intros H. apply forallb_forall. intros c Hc.
  rewrite forallb_forall in H. specialize (H c Hc).
  now apply andb_true_iff in H as [_ H].
Qed.

Lemma string_append_assoc (a b c : string) : (a ++ b) ++ c = a ++ (b ++ c).
Proof. induction a as [|x a IH]; simpl; [reflexivity | now rewrite IH]. Qed.

(** A template that names a member of ["steps"] or ["payload"] by a plain
    key reads that member of the context. *)
Lemma resolve_member (root key : string) (context : value) :
  plain_key root = true -> plain_key key = true ->
  resolveTemplate ("{{" ++ root ++ "." ++ key ++ "}}") context
  = walk context [root; key].
Proof.
  intros Hr Hk.
  assert (Ht : is_template ("{{" ++ (root ++ "." ++ key) ++ "}}") = true).
  { apply is_template_iff. now exists (root ++ "." ++ key). }
  assert (E : "{{" ++ root ++ "." ++ key ++ "}}" = "{{" ++ (root ++ "." ++ key) ++ "}}").
  { rewrite !string_append_assoc. reflexivity. }
  rewrite E. unfold resolveTemplate. rewrite Ht, slice_of_template.
  rewrite trim_clean.
  - unfold getNestedValue.
    change (root ++ "." ++ key) with (root ++ String "." key).
    rewrite split_dot_app, (split_dot_plain root Hr), (split_dot_plain key Hk).
    reflexivity.
  - rewrite list_ascii_app, forallb_app, (plain_no_space root Hr). simpl.
    exact (plain_no_space key Hk).
Qed.

Lemma walk_app (a b : list string) :
  forall current,
    walk current (a ++ b)
    = match walk current a with Some v => walk v b | None => None end.
Proof.
  induction a as [|part rest IH]; intros current; [reflexivity|].
  assert (Hu : walk VUndef b = Some VUndef) by (destruct b; reflexivity).
  destruct current; simpl; try (symmetry; exact Hu).
  - destruct (String.eqb part "length"); [apply IH|].
    destruct (parse_index part); apply IH.
  - apply IH.
Qed.

(** Reading the path [p.q] is reading [q] in what the path [p] reads. *)
Theorem getNestedValue_compose (obj : value) (p q : string) :
  getNestedValue obj (p ++ "." ++ q)
  = match getNestedValue obj p with
    | Some v => getNestedValue v q
    | None => None
    end.
Proof.
  unfold getNestedValue.
  change (p ++ "." ++ q) with (p ++ String "." q).
  rewrite split_dot_app. apply walk_app.
Qed.

Lemma parse_index_step (i : nat) : parse_index ("step_" ++ string_of_nat i) = None.
Proof. reflexivity. Qed.

Lemma plain_step (i : nat) : plain_key ("step_" ++ string_of_nat i) = true.
Proof.
  pose proof (string_of_nat_plain i) as H. unfold plain_key in *. simpl. exact H.
Qed.

(** Templates against the contexts of the two runners, for a key without
    dot or white space.  [{{payload.key}}] reads the entry of the task's
    payload under [key], in both; [{{steps.key}}] reads the result stored
    under the id [key] in the DAG runner; in the sequential runner, whose
    context holds the results as an array, [{{steps.N}}] reads the [N]-th
    result and [{{steps.step_N}}] reads nothing. *)
Theorem context_templates (task : Task) (q : SeqState) (d : DagState) (key : string)
  (Hkey : plain_key key = true) :
  (In key (map fst (t_payload task)) ->
   resolveTemplate ("{{payload." ++ key ++ "}}") (q_context task q)
   = Some (obj_get (t_payload task) key)
   /\ resolveTemplate ("{{payload." ++ key ++ "}}") (d_context task d)
      = Some (obj_get (t_payload task) key))
  /\ (In key (map fst (results d)) ->
      resolveTemplate ("{{steps." ++ key ++ "}}") (d_context task d)
      = Some (obj_get (results d) key))
  /\ (forall i,
        resolveTemplate ("{{steps." ++ string_of_nat i ++ "}}") (q_context task q)
        = Some (nth i (q_stepResults q) VUndef))
  /\ (forall i,
        resolveTemplate ("{{steps.step_" ++ string_of_nat i ++ "}}") (q_context task q)
        = Some VUndef).
Proof.
  split; [|split; [|split]].
  - intros _.
    change ("{{payload." ++ key ++ "}}") with ("{{" ++ "payload" ++ "." ++ key ++ "}}").
    rewrite !resolve_member by (reflexivity || exact Hkey). split; reflexivity.
  - intros _.
    change ("{{steps." ++ key ++ "}}") with ("{{" ++ "steps" ++ "." ++ key ++ "}}").
    rewrite resolve_member by (reflexivity || exact Hkey). reflexivity.
  - intros i.
    change ("{{steps." ++ string_of_nat i ++ "}}")
      with ("{{" ++ "steps" ++ "." ++ string_of_nat i ++ "}}").
    rewrite resolve_member by (reflexivity || apply string_of_nat_plain).
    unfold q_context. simpl.
    destruct (String.eqb_spec (string_of_nat i) "length") as [E|_].
    { apply (f_equal parse_index) in E. rewrite parse_index_string_of_nat in E.
      discriminate. }
    rewrite parse_index_string_of_nat. reflexivity.
  - intros i.
    change ("{{steps.step_" ++ string_of_nat i ++ "}}")
      with ("{{" ++ "steps" ++ "." ++ ("step_" ++ string_of_nat i) ++ "}}").
    rewrite resolve_member by (reflexivity || apply plain_step).
    reflexivity.
Qed.

(* ================================================================= *)
(** ** The sequential runner: its record of results, and a failing step *)

Lemma step_id_inj (a b : nat) :
  "step_" ++ string_of_nat a = "step_" ++ string_of_nat b -> a = b.
Proof.
  intros H. simpl in H. injection H as H. now apply string_of_nat_inj.
Qed.

Lemma step_id_fresh (i0 n j : nat) :
  (j < i0)%nat -> ~ In ("step_" ++ string_of_nat j) (stepIdsFrom i0 n).
Proof.
  intros Hj Hin. unfold stepIdsFrom in Hin.
  apply in_map_iff in Hin as [k [E Hk]]. apply step_id_inj in E. subst k.
  apply in_seq in Hk. lia.
Qed.

Lemma step_id_fresh_below (i : nat) :
  ~ In ("step_" ++ string_of_nat i) (stepIdsFrom 0 i).
Proof.
  intros Hin. unfold stepIdsFrom in Hin.
  apply in_map_iff in Hin as [k [E Hk]]. apply step_id_inj in E. subst k.
  apply in_seq in Hk. lia.
Qed.

Lemma indexed_record_closed (rs : list value) :
  forall i0 acc,
    (forall k, In k (map fst acc) -> exists j, (j < i0)%nat
                                       /\ k = "step_" ++ string_of_nat j) ->
    indexed_record rs i0 acc
    = (acc ++ combine (stepIdsFrom i0 (length rs)) rs)%list.
Proof.
  induction rs as [|r rs IH]; intros i0 acc Hacc; simpl.
  - now rewrite app_nil_r.
  - rewrite obj_set_fresh.
    + rewrite IH.
      * rewrite <- app_assoc. reflexivity.
      * intros k Hk. rewrite map_app in Hk. apply in_app_iff in Hk as [Hk | Hk].
        -- destruct (Hacc k Hk) as (j & Hj & ->). exists j. split; [lia | reflexivity].
        -- destruct Hk as [<- | []]. exists i0. split; [lia | reflexivity].
    + intros Hin. destruct (Hacc _ Hin) as (j & Hj & E).
      apply step_id_inj in E. lia.
Qed.

Lemma obj_get_steps (rs : list value) :
  forall i0 i, (i0 <= i)%nat -> (i < i0 + length rs)%nat ->
    obj_get (combine (stepIdsFrom i0 (length rs)) rs) ("step_" ++ string_of_nat i)
    = nth (i - i0) rs VUndef.
Proof.
  induction rs as [|r rs IH]; intros i0 i Hle Hlt; simpl in Hlt; [lia|].
  change (combine (stepIdsFrom i0 (length (r :: rs))) (r :: rs))
    with (("step_" ++ string_of_nat i0, r)
            :: combine (stepIdsFrom (Datatypes.S i0) (length rs)) rs).
  cbn [obj_get].
  destruct (String.eqb_spec ("step_" ++ string_of_nat i0) ("step_" ++ string_of_nat i))
    as [E|E].
  - apply step_id_inj in E. subst i. now rewrite Nat.sub_diag.
  - assert (i0 <> i) by (intros ->; now apply E).
    rewrite IH by lia.
    replace (i - i0)%nat with (Datatypes.S (i - Datatypes.S i0)) by lia. reflexivity.
Qed.




Lemma map_eq_snoc {A B : Type} (f : A -> B) (l : list A) (L : list B) (b : B) :
  map f l = (L ++ [b])%list ->
  exists L' a, l = (L' ++ [a])%list /\ map f L' = L /\ f a = b.
Proof.
  intros H. apply map_eq_app in H as (l1 & l2 & -> & H1 & H2).
  destruct l2 as [|a [|a' l2]]; try discriminate.
  injection H2 as H2. now exists l1, a.
Qed.

Lemma current_last_erase (id : string) (l l' : list StepStatus) :
  map erase_attempt l' = map erase_attempt l ->
  current_last id l -> current_last id l'.
Proof.
  intros He (L & s & -> & HL & Hid & Hst).
  rewrite map_app in He. simpl in He.
  apply map_eq_snoc in He as (L' & s' & -> & HL' & Hs').
  exists L', s'. split; [reflexivity|]. split; [|split].
  - assert (H : Forall (fun x => settled x /\ st_id x <> id) (map erase_attempt L')).
    { rewrite HL'. rewrite Forall_map. revert HL. apply Forall_impl.
      intros a [Ha Hn]. split; [now apply settled_erase | exact Hn]. }
    rewrite Forall_map in H. revert H. apply Forall_impl.
    intros a [Ha Hn]. split; [now apply settled_erase in Ha | exact Hn].
  - apply (f_equal st_id) in Hs'. simpl in Hs'. congruence.
  - apply (f_equal startedAt) in Hs'. simpl in Hs'. congruence.
Qed.

Lemma update_current_last (id : string) (f : StepStatus -> StepStatus)
  (L : list StepStatus) (s : StepStatus) :
  Forall (fun x => settled x /\ st_id x <> id) L -> st_id s = id ->
  map (fun x => if String.eqb (st_id x) id then f x else x) (L ++ [s])
  = (L ++ [f s])%list.
Proof.
  intros HL Hid. rewrite map_app. simpl. rewrite Hid, String.eqb_refl. f_equal.
  induction HL as [|a L [_ Ha] _ IH]; simpl; [reflexivity|].
  rewrite IH. apply String.eqb_neq in Ha. now rewrite Ha.
Qed.

Section SeqFailure.
Variable W : Type.
Variable backends : Registry W.
Variable now : W -> Z.
Variable sleepW : Z -> W -> W.
Variable expiredW : Z -> W -> W -> bool.
Variable task : Task.


Lemma q_settle_fails (stepId0 e : string) (step : Step) (r : result value)
  (s : SeqState * W) :
  current_last stepId0 (q_stepStatuses (fst s)) ->
  fst (q_settle W now stepId0 step r s) = Err e ->
  fails stepId0 e step s (q_settle W now stepId0 step r s).
Proof.
  destruct s as [q w]. cbn [fst snd].
  intros (L & s0 & El & HL & Hid & Hst).
  unfold fails, q_settle.
  destruct r as [v|e']; [|destruct (is_true (optional step))];
    cbv beta iota zeta delta [bind upd getNow q_emit ret fst snd];
    cbn [q_stepStatuses q_stepResults q_push_event q_push_result q_update_status];
    try discriminate.
  intros H. injection H as ->.
  split; [|split; reflexivity].
  exists L, (set_error e (stamp_completion (now w) (set_status Failed s0))).
  split.
  - rewrite El.
    exact (update_current_last stepId0
             (fun x => set_error e (stamp_completion (now w) (set_status Failed x)))
             L s0 HL Hid).
  - split; [revert HL; apply Forall_impl; tauto|].
    split; [exact Hid|].
    unfold failed_with, stamp_completion. simpl.
    destruct (startedAt s0); [|congruence].
    repeat split; try discriminate.
Qed.

Lemma q_exec_fails (stepId0 e : string) (step : Step) (s : SeqState * W) :
  current_last stepId0 (q_stepStatuses (fst s)) ->
  fst (q_exec W backends now sleepW expiredW task stepId0 step s) = Err e ->
  fails stepId0 e step s (q_exec W backends now sleepW expiredW task stepId0 step s).
Proof.
  intros Hcur. unfold q_exec.
  unfold bind at 1. unfold upd at 1. unfold bind at 1.
  unfold q_emit at 1. unfold bind at 1. unfold getNow at 1. unfold upd at 1.
  unfold bind at 1. unfold look at 1. cbn [fst snd]. unfold bind at 1.
  unfold bind at 1. unfold upd at 1. unfold bind at 1.
  unfold q_emit at 1. unfold bind at 1. unfold getNow at 1. unfold upd at 1.
  unfold bind at 1. unfold look at 1. cbn [fst snd]. unfold bind at 1.
  match goal with
  | |- context [runStepTask W backends sleepW expiredW ?note task step ?st ?l ?s0] =>
      pose proof (runStepTask_view W backends sleepW expiredW SeqState SeqState
                    note q_core (q_core_note stepId0) task step st l s0) as Hv;
      destruct (runStepTask W backends sleepW expiredW note task step st l s0)
        as [r s1]
  end.
  cbn [fst snd] in Hv. unfold q_core in Hv. injection Hv as Hr Hst _ _.
  cbn [q_stepStatuses q_stepResults q_push_event q_update_status] in Hr, Hst.
  intros Herr.
  assert (Hcur1 : current_last stepId0 (q_stepStatuses (fst s1))).
  { apply (current_last_erase stepId0 _ _ Hst).
    destruct Hcur as (L & s0 & El & HL & Hid & Hs0).
    exists L, (set_status Running s0). split; [|split; [exact HL|split; assumption]].
    rewrite El.
    exact (update_current_last stepId0 (set_status Running) L s0 HL Hid). }
  destruct (q_settle_fails stepId0 e step r s1 Hcur1 Herr) as (Hs & Hres & Hopt).
  split; [exact Hs|]. split; [congruence | exact Hopt].
Qed.

Lemma q_iteration_fails (n : nat) (step : Step) (i : nat) (e : string)
  (s : SeqState * W) :
  Forall (fun x => settled x /\ st_id x <> "step_" ++ string_of_nat i)
    (q_stepStatuses (fst s)) ->
  fst (q_iteration W backends now sleepW expiredW task n step i s) = Err e ->
  fails ("step_" ++ string_of_nat i) e step s
    (q_iteration W backends now sleepW expiredW task n step i s).
Proof.
  intros Hall.
  pose proof (q_iteration_branches W backends now sleepW expiredW task n step i s)
    as Eq. cbv zeta in Eq. rewrite Eq. clear Eq.
  set (id := "step_" ++ string_of_nat i) in *.
  set (s1 := (q_push_status (newStatus id (s_task step) (Some (now (snd s))))
                (q_push_progress (round_pct i n) (fst s)), snd s)).
  assert (Hcur : current_last id (q_stepStatuses (fst s1))).
  { exists (q_stepStatuses (fst s)), (newStatus id (s_task step) (Some (now (snd s)))).
    split; [reflexivity|]. split; [exact Hall|]. split; [reflexivity | discriminate]. }
  assert (Hexec : fst (q_exec W backends now sleepW expiredW task id step s1) = Err e ->
                  fails id e step s
                    (q_exec W backends now sleepW expiredW task id step s1)).
  { intros H. destruct (q_exec_fails id e step s1 Hcur H) as (H1 & H2 & H3).
    split; [exact H1|]. split; [exact H2 | exact H3]. }
  assert (Hskip : forall marker ev,
             fst (q_skip W now id step marker ev s1) = Err e -> False)
    by (intros marker ev H; discriminate).
  destruct (conditional step) as [c|]; [|exact Hexec].
  destruct (String.eqb c "on-demand"); [intros H; elim (Hskip _ _ H)|].
  match goal with |- context [truthy ?x] => destruct (truthy x) end;
    [exact Hexec | intros H; elim (Hskip _ _ H)].
Qed.

(** The loop that throws stops at the first required step that fails. *)
Lemma q_loop_fails (n : nat) (e : string) (rest : list Step) :
  forall i s,
    map st_id (q_stepStatuses (fst s)) = stepIdsFrom 0 i ->
    Forall settled (q_stepStatuses (fst s)) ->
    length (q_stepResults (fst s)) = i ->
    let out := q_loop W backends now sleepW expiredW task n rest i s in
    fst out = Err e ->
    exists k step,
      nth_error rest k = Some step
      /\ is_true (optional step) = false
      /\ length (q_stepResults (fst (snd out))) = (i + k)%nat
      /\ map st_id (q_stepStatuses (fst (snd out))) = stepIdsFrom 0 (Datatypes.S (i + k))
      /\ stopped ("step_" ++ string_of_nat (i + k)) e (q_stepStatuses (fst (snd out))).
Proof.
  induction rest as [|step rest IH]; intros i s Hids Hset Hlen; cbv zeta.
  - simpl. discriminate.
  - simpl q_loop. unfold bind.
    pose proof (q_iteration_records W backends now sleepW expiredW task n step i s)
      as Hit. cbv zeta in Hit.
    assert (Hall : Forall (fun x => settled x /\ st_id x <> "step_" ++ string_of_nat i)
                     (q_stepStatuses (fst s))).
    { apply Forall_forall. intros x Hx. split.
      - rewrite Forall_forall in Hset. now apply Hset.
      - intros E. apply (step_id_fresh_below i).
        rewrite <- Hids, <- E. now apply in_map. }
    pose proof (q_iteration_fails n step i e s Hall) as Hf.
    destruct (q_iteration W backends now sleepW expiredW task n step i s)
      as [r s1].
    cbn [fst snd] in Hit, Hf. destruct Hit as (Hi & _ & Hr & Hs).
    assert (Hids1 : map st_id (q_stepStatuses (fst s1)) = stepIdsFrom 0 (Datatypes.S i)).
    { rewrite Hi, Hids. unfold stepIdsFrom. rewrite seq_S, map_app. reflexivity. }
    destruct r as [[]|e'].
    + intros Herr.
      destruct (IH (Datatypes.S i) s1 Hids1 (Hs Hset eq_refl)) as (k & st & Hk & Ho & Hl & Hm & Hst).
      { rewrite (Hr eq_refl). lia. }
      { exact Herr. }
      exists (Datatypes.S k), st.
      replace (i + Datatypes.S k)%nat with (Datatypes.S i + k)%nat by lia.
      repeat split; assumption.
    + unfold ret. cbn [fst snd]. intros Herr. injection Herr as ->.
      destruct (Hf eq_refl) as (Hst & Hres & Hopt). cbn [fst snd] in Hst, Hres.
      exists 0%nat, step. rewrite Nat.add_0_r.
      split; [reflexivity|]. split; [exact Hopt|].
      split; [congruence|]. split; [exact Hids1 | exact Hst].
Qed.

(** The sequential runner and its loop. *)
Lemma sequential_run_loop (w : W) :
  let lp := q_loop W backends now sleepW expiredW task (length (stepsOf task))
              (stepsOf task) 0 (q_init, w) in
  let out := processPipelineSequential W backends now sleepW expiredW task (q_init, w) in
  (forall e, fst out = Err e -> fst lp = Err e /\ snd out = snd lp)
  /\ (forall p, fst out = Ok p ->
        fst lp = Ok tt
        /\ steps p = q_stepResults (fst (snd lp))
        /\ stepResults p = indexed_record (q_stepResults (fst (snd lp))) 0 []).
Proof.
  cbv zeta.
  remember (processPipelineSequential W backends now sleepW expiredW task (q_init, w))
    as out eqn:Eout.
  unfold processPipelineSequential in Eout. fold (stepsOf task) in Eout.
  unfold bind at 1 in Eout. unfold getNow at 1 in Eout. unfold bind at 1 in Eout.
  cbn [fst snd] in Eout.
  destruct (q_loop W backends now sleepW expiredW task (length (stepsOf task))
              (stepsOf task) 0 (q_init, w)) as [r [q1 w1]].
  destruct r as [[]|e0].
  - cbv beta iota zeta delta [bind look getNow q_emit upd ret fst snd] in Eout.
    subst out. cbn [fst snd]. split; [discriminate|].
    intros p H. injection H as <-. repeat split.
  - unfold ret in Eout. subst out. cbn [fst snd].
    split; [|discriminate]. intros e H. injection H as ->. split; reflexivity.
Qed.

(** A sequential run that throws [e] has stopped at a required step whose
    execution failed with [e]: the steps before it have their results and
    settled records, the step itself has a failed record with the message,
    its start and completion times and its duration, and no later step has
    a record. *)
Theorem sequential_failure (w : W) (e : string)
  (Herr : fst (processPipelineSequential W backends now sleepW expiredW task
                 (q_init, w)) = Err e) :
  let q := fst (snd (processPipelineSequential W backends now sleepW expiredW task
                       (q_init, w))) in
  exists k step record,
    nth_error (stepsOf task) k = Some step
    /\ is_true (optional step) = false
    /\ length (q_stepResults q) = k
    /\ map st_id (q_stepStatuses q) = sequentialIds (Datatypes.S k)
    /\ Forall settled (firstn k (q_stepStatuses q))
    /\ nth_error (q_stepStatuses q) k = Some record
    /\ failed_with e record.
Proof.
  cbv zeta.
  destruct (sequential_run_loop w) as [Hl _]. cbv zeta in Hl.
  destruct (Hl e Herr) as [Hle Hst]. rewrite Hst.
  destruct (q_loop_fails (length (stepsOf task)) e (stepsOf task) 0 (q_init, w)
              eq_refl (Forall_nil _) eq_refl Hle)
    as (k & step & Hk & Ho & Hr & Hi & (L & record & El & HL & _ & Hf)).
  simpl in Hr, Hi.
  assert (HlenL : length L = k).
  { apply (f_equal (@length _)) in Hi. rewrite El in Hi.
    unfold stepIdsFrom in Hi.
    rewrite !length_map, length_app, length_seq in Hi. simpl in Hi. lia. }
  exists k, step, record.
  split; [exact Hk|]. split; [exact Ho|]. split; [exact Hr|].
  split; [exact Hi|]. rewrite El. split; [|split; [|exact Hf]].
  - rewrite firstn_app, HlenL, Nat.sub_diag, firstn_all2 by lia.
    simpl. now rewrite List.app_nil_r.
  - rewrite nth_error_app2, HlenL, Nat.sub_diag by lia. reflexivity.
Qed.

(** A sequential run that returns a result returns, as [stepResults],
    the record that holds the [i]-th result under ["step_" + i]. *)
Theorem sequential_step_results (w : W) (p : PipelineResult)
  (Hok : fst (processPipelineSequential W backends now sleepW expiredW task
                (q_init, w)) = Ok p) :
  stepResults p = combine (sequentialIds (length (stepsOf task))) (steps p)
  /\ (forall i, (i < length (stepsOf task))%nat ->
        obj_get (stepResults p) ("step_" ++ string_of_nat i) = nth i (steps p) VUndef).
Proof.
  destruct (sequential_run_loop w) as [_ Hl]. cbv zeta in Hl.
  destruct (Hl p Hok) as (Hle & Hs & Hr).
  destruct (q_loop_records W backends now sleepW expiredW task
              (length (stepsOf task)) (stepsOf task) 0 (q_init, w) Hle)
    as (_ & _ & Hlen & _).
  simpl in Hlen. rewrite <- Hs in Hr, Hlen.
  assert (E : stepResults p = combine (sequentialIds (length (stepsOf task))) (steps p)).
  { rewrite Hr, indexed_record_closed by (intros k []).
    rewrite Hlen. reflexivity. }
  split; [exact E|].
  intros i Hi. rewrite E, <- Hlen.
  change (sequentialIds (length (steps p))) with (stepIdsFrom 0 (length (steps p))).
  rewrite (obj_get_steps (steps p) 0 i) by lia.
  now rewrite Nat.sub_0_r.
Qed.
End SeqFailure.

Lemma context_templates_witness :
  plain_key "url" = true
  /\ resolveTemplate ("{{steps." ++ string_of_nat 0 ++ "}}") (q_context oneStep q_init)
     = Some (nth 0 (q_stepResults q_init) VUndef).
Proof.
  split; [reflexivity|].
  exact (proj1 (proj2 (proj2
           (context_templates oneStep q_init (d_init []) "url" eq_refl))) 0%nat).
Defined.

Lemma sequential_failure_witness :
  fst (processPipelineSequential Mock.World Mock.registry Mock.clock Mock.tick
         Mock.expired failingSequential (q_init, Mock.w0)) = Err "boom failed"
  /\ exists k step record,
       nth_error (stepsOf failingSequential) k = Some step
       /\ is_true (optional step) = false
       /\ length (q_stepResults
                    (fst (snd (processPipelineSequential Mock.World Mock.registry
                                 Mock.clock Mock.tick Mock.expired failingSequential
                                 (q_init, Mock.w0))))) = k
       /\ map st_id (q_stepStatuses
                       (fst (snd (processPipelineSequential Mock.World Mock.registry
                                    Mock.clock Mock.tick Mock.expired
                                    failingSequential (q_init, Mock.w0)))))
          = sequentialIds (Datatypes.S k)
       /\ Forall settled
            (firstn k (q_stepStatuses
                         (fst (snd (processPipelineSequential Mock.World
                                      Mock.registry Mock.clock Mock.tick
                                      Mock.expired failingSequential
                                      (q_init, Mock.w0))))))
       /\ nth_error (q_stepStatuses
                       (fst (snd (processPipelineSequential Mock.World Mock.registry
                                    Mock.clock Mock.tick Mock.expired
                                    failingSequential (q_init, Mock.w0))))) k
          = Some record
       /\ failed_with "boom failed" record.
Proof.
  assert (H : fst (processPipelineSequential Mock.World Mock.registry Mock.clock
                     Mock.tick Mock.expired failingSequential (q_init, Mock.w0))
              = Err "boom failed") by (vm_compute; reflexivity).
  split; [exact H|].
  exact (sequential_failure Mock.World Mock.registry Mock.clock Mock.tick
           Mock.expired failingSequential Mock.w0 "boom failed" H).
Defined.

Lemma sequential_step_results_witness :
  exists p,
    fst (processPipelineSequential Mock.World Mock.registry Mock.clock Mock.tick
           Mock.expired lazySequential (q_init, Mock.w0)) = Ok p
    /\ stepResults p = combine (sequentialIds 1) (steps p).
Proof.
  eexists. split; [vm_compute; reflexivity|].
  refine (proj1 (sequential_step_results Mock.World Mock.registry Mock.clock
                   Mock.tick Mock.expired lazySequential Mock.w0 _ _)).
  vm_compute. reflexivity.
Defined.

(* ================================================================= *)
(** ** What a selection answers, and where it throws *)

Lemma map_get_In {A : Type} (m : list (string * A)) (k : string) (a : A) :
  map_get m k = Some a -> In (k, a) m.
Proof.
  induction m as [|[k' b] rest IH]; simpl; [discriminate|].
  destruct (String.eqb_spec k' k) as [->|Hne].
  - intros H. injection H as ->. now left.
  - intros H. right. now apply IH.
Qed.

Section SelectionSafety.
Variable W : Type.

Lemma firstWithGpu_member (hs : list (Backend W)) :
  forall w b, fst (firstWithGpu W hs w) = Ok (Some b) -> In b hs.
Proof.
  induction hs as [|h rest IH]; intros w b; simpl; [discriminate|].
  destruct (getResources W h) as [query|].
  - unfold bind. destruct (query w) as [r w1]. destruct r as [resources|e].
    + destruct (existsb available (gpus resources)).
      * intros H. injection H as ->. now left.
      * intros H. right. exact (IH w1 b H).
    + discriminate.
  - intros H. right. exact (IH w b H).
Qed.

Lemma firstWithGpu_world (hs : list (Backend W)) (w : W) :
  (forall x, In x hs -> observing W x) -> snd (firstWithGpu W hs w) = w.
Proof.
  induction hs as [|h hs IH]; intros Hall; [reflexivity|].
  simpl. destruct (Hall h (or_introl eq_refl)) as [_ Hw].
  destruct (getResources W h) as [query|].
  - unfold bind. specialize (Hw query eq_refl w).
    destruct (query w) as [r w1]. simpl in Hw. subst w1.
    destruct r as [resources|e]; [|reflexivity].
    destruct (existsb available (gpus resources)); [reflexivity|].
    apply IH. intros x Hx. apply Hall. now right.
  - apply IH. intros x Hx. apply Hall. now right.
Qed.

(** The first healthy backend whose resource query throws, when no
    backend before it reports an available GPU, ends the search. *)
Lemma firstWithGpu_throws (pre post : list (Backend W)) (b : Backend W)
  (query : M W (result ResourcePool)) (e : string) (w : W) :
  (forall x, In x (pre ++ b :: post) -> observing W x) ->
  forallb (queryAnswers W w) pre = true ->
  forallb (fun x => negb (reportsGpu W w x)) pre = true ->
  getResources W b = Some query -> fst (query w) = Err e ->
  firstWithGpu W (pre ++ b :: post) w = (Err e, w).
Proof.
  intros Hobs Hq Hg Hres Herr.
  induction pre as [|h pre IH]; simpl.
  - rewrite Hres. unfold bind.
    destruct (Hobs b (or_introl eq_refl)) as [_ Hw]. specialize (Hw query Hres w).
    destruct (query w) as [r w1]. simpl in *. subst. reflexivity.
  - simpl in Hq, Hg. apply andb_prop in Hq as [Hq1 Hq]. apply andb_prop in Hg as [Hg1 Hg].
    unfold queryAnswers in Hq1. unfold reportsGpu in Hg1.
    destruct (Hobs h (or_introl eq_refl)) as [_ Hw].
    destruct (getResources W h) as [qh|].
    + unfold bind. specialize (Hw qh eq_refl w).
      destruct (qh w) as [r w1]. simpl in *. subst w1.
      destruct r as [resources|e']; [|discriminate].
      apply negb_true_iff in Hg1. rewrite Hg1.
      apply IH; [intros x Hx; apply Hobs; now right | assumption | assumption].
    + apply IH; [intros x Hx; apply Hobs; now right | assumption | assumption].
Qed.

(** With backends whose checks only observe the world, a backend that
    [selectBackend] returns is registered and its health check answered
    [true]; when the task names a backend it is the one registered under
    that name; and the selection has changed nothing. *)
Theorem selectBackend_sound (backends : Registry W) (task : Task) (w : W)
  (b : Backend W)
  (Hobs : forall x, In x (map snd backends) -> observing W x)
  (Hsel : fst (selectBackend W backends task w) = Ok b) :
  In b (map snd backends)
  /\ answersHealthy W w b = true
  /\ snd (selectBackend W backends task w) = w
  /\ (forall nm, nonempty (t_backend task) = Some nm -> nm <> "auto" ->
        getBackend W nm backends = Some b).
Proof.
  assert (Hauto : fst (selectAuto W backends task w) = Ok b ->
                  In b (map snd backends) /\ answersHealthy W w b = true
                  /\ snd (selectAuto W backends task w) = w).
  { unfold selectAuto, bind.
    rewrite (collectHealthy_filter W (map snd backends) w Hobs).
    fold (healthyBackends W backends w).
    assert (Hin : forall x, In x (healthyBackends W backends w) ->
                    In x (map snd backends) /\ answersHealthy W w x = true).
    { intros x Hx. unfold healthyBackends in Hx. now apply filter_In in Hx. }
    destruct (healthyBackends W backends w) as [|first rest] eqn:Eh; [discriminate|].
    destruct (wantsGpu task).
    - pose proof (firstWithGpu_member (first :: rest) w) as Hm.
      assert (Hworld : snd (firstWithGpu W (first :: rest) w) = w).
      { apply firstWithGpu_world. intros x Hx. apply Hobs. now apply Hin. }
      destruct (firstWithGpu W (first :: rest) w) as [g w1].
      simpl in Hworld. subst w1.
      destruct g as [[x|]|e]; simpl; try discriminate.
      + intros H. injection H as ->.
        destruct (Hin b (Hm b eq_refl)) as [H1 H2]. auto.
      + intros H. injection H as ->.
        destruct (Hin b (or_introl eq_refl)) as [H1 H2]. auto.
    - simpl. intros H. injection H as ->.
      destruct (Hin b (or_introl eq_refl)) as [H1 H2]. auto. }
  unfold selectBackend in *.
  destruct (nonempty (t_backend task)) as [nm|] eqn:En.
  2:{ destruct (Hauto Hsel) as (H1 & H2 & H3). repeat split; auto. discriminate. }
  destruct (String.eqb_spec nm "auto") as [->|Hne].
  { destruct (Hauto Hsel) as (H1 & H2 & H3). repeat split; auto.
    intros nm' E Hn. injection E as <-. now elim Hn. }
  unfold getBackend.
  destruct (map_get backends nm) as [x|] eqn:Eg; [|discriminate].
  unfold bind in *.
  assert (Hx : In x (map snd backends)).
  { apply map_get_In in Eg. apply in_map_iff. now exists (nm, x). }
  destruct (Hobs x Hx) as [Hw _]. specialize (Hw w).
  destruct (isHealthy W x w) as [h w1] eqn:Eh. simpl in Hw. subst w1.
  destruct h as [[|]|e]; try discriminate. simpl in Hsel. injection Hsel as ->.
  split; [exact Hx|]. split; [unfold answersHealthy; now rewrite Eh|].
  split; [reflexivity|].
  intros nm' E _. injection E as <-. exact Eg.
Qed.

(** Where [selectBackend] passes an exception on: the health check of a
    named backend, and the resource query of a healthy backend that is
    reached before any backend has reported an available GPU. *)
Theorem selectBackend_throws (backends : Registry W) (task : Task) (w : W)
  (e : string)
  (Hobs : forall x, In x (map snd backends) -> observing W x) :
  (forall nm b,
     nonempty (t_backend task) = Some nm -> nm <> "auto" ->
     getBackend W nm backends = Some b ->
     fst (isHealthy W b w) = Err e ->
     selectBackend W backends task w = (Err e, w))
  /\ (forall pre b post query,
        (nonempty (t_backend task) = None \/ nonempty (t_backend task) = Some "auto") ->
        wantsGpu task = true ->
        healthyBackends W backends w = (pre ++ b :: post)%list ->
        forallb (queryAnswers W w) pre = true ->
        forallb (fun x => negb (reportsGpu W w x)) pre = true ->
        getResources W b = Some query -> fst (query w) = Err e ->
        selectBackend W backends task w = (Err e, w)).
Proof.
  split.
  - intros nm b En Hne Hg Hh. unfold selectBackend. rewrite En.
    replace (String.eqb nm "auto") with false
      by (symmetry; now apply String.eqb_neq).
    unfold getBackend in Hg. rewrite Hg. unfold bind.
    assert (Hx : In b (map snd backends)).
    { apply map_get_In in Hg. apply in_map_iff. now exists (nm, b). }
    destruct (Hobs b Hx) as [Hw _]. specialize (Hw w).
    destruct (isHealthy W b w) as [h w1]. simpl in Hw, Hh. subst. reflexivity.
  - intros pre b post query Hauto Hgpu Hh Hq Hg Hres Herr.
    assert (E : selectBackend W backends task w = selectAuto W backends task w).
    { unfold selectBackend. destruct Hauto as [-> | ->]; reflexivity. }
    rewrite E. unfold selectAuto, bind.
    rewrite (collectHealthy_filter W (map snd backends) w Hobs).
    fold (healthyBackends W backends w). rewrite Hh.
    assert (Hall : forall x, In x (pre ++ b :: post) -> observing W x).
    { intros x Hx. apply Hobs. rewrite <- Hh in Hx. unfold healthyBackends in Hx.
      now apply filter_In in Hx. }
    pose proof (firstWithGpu_throws pre post b query e w Hall Hq Hg Hres Herr) as Ht.
    destruct (pre ++ b :: post)%list as [|first rest] eqn:El;
      [destruct pre; discriminate|].
    rewrite Hgpu, Ht. reflexivity.
Qed.
End SelectionSafety.

Lemma selectBackend_sound_witness :
  (forall x, In x (map snd registry4) -> observing Mock.World x)
  /\ fst (selectBackend Mock.World registry4 gpuTask Mock.w0)
     = Ok (Mock.backend "gpu" (Ok true) (Some (Ok (pool true))))
  /\ In (Mock.backend "gpu" (Ok true) (Some (Ok (pool true)))) (map snd registry4).
Proof.
  split; [exact registry4_observing|]. split; [reflexivity|].
  exact (proj1 (selectBackend_sound Mock.World registry4 gpuTask Mock.w0
                  (Mock.backend "gpu" (Ok true) (Some (Ok (pool true))))
                  registry4_observing eq_refl)).
Defined.

Lemma selectBackend_throws_witness :
  (forall x, In x (map snd registry4) -> observing Mock.World x)
  /\ selectBackend Mock.World registry4 downTask Mock.w0
     = (Err "unreachable", Mock.w0).
Proof.
  split; [exact registry4_observing|].
  exact (proj1 (selectBackend_throws Mock.World registry4 downTask Mock.w0
                  "unreachable" registry4_observing)
           "down" (Mock.backend "down" (Err "unreachable") None)
           eq_refl ltac:(discriminate) eq_refl eq_refl).
Defined.

(* ================================================================= *)
(** ** What [processTask] returns *)

Section TaskOutcomes.
Variable W : Type.
Variable backends : Registry W.
Variable now : W -> Z.
Variable sleepW : Z -> W -> W.
Variable expiredW : Z -> W -> W -> bool.


End TaskOutcomes.


(* ================================================================= *)
(** ** The events of a run *)

Lemma more_refl (l : list PipelineEvent) : more_step_events l l.
Proof. exists []. rewrite app_nil_r. split; [reflexivity | constructor]. Qed.

Lemma more_trans (l l1 l2 : list PipelineEvent) :
  more_step_events l l1 -> more_step_events l1 l2 -> more_step_events l l2.
Proof.
  intros (a & -> & Ha) (b & -> & Hb). exists (a ++ b)%list.
  split; [now rewrite app_assoc | now apply Forall_app].
Qed.

Lemma more_one (l : list PipelineEvent) (e : PipelineEvent) :
  step_event e -> more_step_events l (l ++ [e]).
Proof. intros He. exists [e]. split; [reflexivity | now constructor]. Qed.

Section DagEvents.
Variable W : Type.
Variable backends : Registry W.
Variable now : W -> Z.
Variable sleepW : Z -> W -> W.
Variable expiredW : Z -> W -> W -> bool.
Variable task : Task.
Variable stepMap : list (string * Step).

Lemma settle_ok_events (stepId0 : string) (v evdata : value) (s : DagState * W) :
  more_step_events (d_events (fst s))
    (d_events (fst (snd (settle_ok W now stepMap stepId0 v evdata s)))).
Proof. apply more_one. discriminate. Qed.

Lemma settle_err_events (stepId0 : string) (step : Step) (e : string)
  (s : DagState * W) :
  more_step_events (d_events (fst s))
    (d_events (fst (snd (settle_err W now stepMap stepId0 step e s)))).
Proof.
  unfold settle_err, bind, upd. cbn [fst snd].
  destruct (is_true (optional step)); apply more_one; discriminate.
Qed.

Lemma d_skip_events (stepId0 : string) (marker evdata : value) (s : DagState * W) :
  more_step_events (d_events (fst s))
    (d_events (fst (snd (d_skip W now stepMap stepId0 marker evdata s)))).
Proof. apply more_one. discriminate. Qed.

Lemma beginStep_events (stepId0 : string) (step : Step) (s : DagState * W) :
  more_step_events (d_events (fst s))
    (d_events (fst (snd (beginStep W now task stepMap stepId0 step s)))).
Proof.
  assert (Hwork : forall s0,
            more_step_events (d_events (fst s0))
              (d_events (fst (snd (beginWork W now task stepMap stepId0 step s0))))).
  { intros s0. unfold beginWork, bind, look, ret. cbn [fst snd].
    destruct (nonempty (forEach step)) as [fe|]; [|apply more_refl].
    destruct (must (resolveTemplate fe (d_context task (fst s0))))
      as [| |b|n|str|items|fields] eqn:E.
    6:{ destruct items as [|item items]; [|apply more_refl].
        pose proof (settle_ok_events stepId0 (VArr [])
                      (VObj [("itemCount", VNum 0)]) s0) as H.
        destruct (settle_ok W now stepMap stepId0 (VArr [])
                    (VObj [("itemCount", VNum 0)]) s0) as [r s1].
        exact H. }
    all: match goal with
         | |- context [settle_err _ _ _ ?i ?st ?e ?ss] =>
             pose proof (settle_err_events i st e ss) as H;
             destruct (settle_err W now stepMap i st e ss) as [r s1];
             exact H
         end. }
  assert (Hrun : forall s0,
            more_step_events (d_events (fst s0))
              (d_events (fst (snd (beginRun W now task stepMap stepId0 step s0))))).
  { intros s0. unfold beginRun, bind.
    assert (H1 : more_step_events (d_events (fst s0))
                   (d_events (fst (snd (markRunning W now stepMap stepId0 s0)))))
      by (apply more_one; discriminate).
    destruct (markRunning W now stepMap stepId0 s0) as [[] s1].
    exact (more_trans _ _ _ H1 (Hwork s1)). }
  unfold beginStep, bind, upd, look. cbn [fst snd].
  destruct (conditional step) as [c|]; [|apply (Hrun (d_running_add stepId0 (fst s), snd s))].
  destruct (String.eqb c "on-demand");
    [apply (d_skip_events stepId0 _ _ (d_running_add stepId0 (fst s), snd s))|].
  cbn [fst snd].
  match goal with |- context [truthy ?x] => destruct (truthy x) end;
    [apply (Hrun (d_running_add stepId0 (fst s), snd s))
    | apply (d_skip_events stepId0 _ _ (d_running_add stepId0 (fst s), snd s))].
Qed.

Lemma finishStep_events (stepId0 : string) (step : Step) (b : begun)
  (s : DagState * W) :
  more_step_events (d_events (fst s))
    (d_events (fst (snd (finishStep W backends now sleepW expiredW task stepMap
                           stepId0 step b s)))).
Proof.
  destruct (launched b) eqn:Hl.
  2:{ destruct b; try discriminate. apply more_refl. }
  assert (E : finishStep W backends now sleepW expiredW task stepMap stepId0 step b s
              = let (r, s1) := attemptStep W backends sleepW expiredW task stepId0 step b s in
                (match r with
                 | Ok v => settle_ok W now stepMap stepId0 v (completionData b v)
                 | Err e => settle_err W now stepMap stepId0 step e
                 end) s1).
  { destruct b; [discriminate | reflexivity | reflexivity]. }
  rewrite E. clear E.
  pose proof (attemptStep_core W backends sleepW expiredW task stepId0 step b s)
    as Hcore.
  destruct (attemptStep W backends sleepW expiredW task stepId0 step b s)
    as [r s1].
  cbn [fst snd] in Hcore. apply (f_equal d_events) in Hcore. simpl in Hcore.
  rewrite <- Hcore.
  destruct r as [v|e]; [apply settle_ok_events | apply settle_err_events].
Qed.

Lemma dag_tick_events (runnable : list (string * Step)) (s : DagState * W) :
  more_step_events (d_events (fst s))
    (d_events (fst (snd (dag_tick W backends now sleepW expiredW task stepMap
                           runnable s)))).
Proof.
  unfold dag_tick, bind.
  set (s0 := (if (1 <? length runnable)%nat
              then d_push_group (map fst runnable) (fst s) else fst s, snd s)).
  assert (E0 : (if (1 <? length runnable)%nat
                then upd W (d_push_group (map fst runnable))
                else ret tt) s = (tt, s0)).
  { unfold s0. destruct s as [d w]. destruct (1 <? length runnable)%nat; reflexivity. }
  rewrite E0.
  assert (H0 : d_events (fst s0) = d_events (fst s))
    by (unfold s0; simpl; destruct (1 <? length runnable)%nat; reflexivity).
  rewrite <- H0. clearbody s0. clear E0 H0.
  assert (Hb : forall l s1,
            more_step_events (d_events (fst s1))
              (d_events (fst (snd (beginAll W now task stepMap l s1))))).
  { induction l as [|[id step] rest IH]; intros s1; [apply more_refl|].
    simpl beginAll. unfold bind.
    pose proof (beginStep_events id step s1) as H2.
    destruct (beginStep W now task stepMap id step s1) as [b s2].
    specialize (IH s2).
    destruct (beginAll W now task stepMap rest s2) as [bs s3].
    exact (more_trans _ _ _ H2 IH). }
  assert (Hf : forall l s1,
            more_step_events (d_events (fst s1))
              (d_events (fst (snd (finishAll W backends now sleepW expiredW task
                                     stepMap l s1))))).
  { induction l as [|[[id step] b] rest IH]; intros s1; [apply more_refl|].
    simpl finishAll. unfold bind.
    pose proof (finishStep_events id step b s1) as H2.
    destruct (finishStep W backends now sleepW expiredW task stepMap id step b s1)
      as [o s2].
    specialize (IH s2).
    destruct (finishAll W backends now sleepW expiredW task stepMap rest s2)
      as [os s3].
    exact (more_trans _ _ _ H2 IH). }
  specialize (Hb runnable s0).
  destruct (beginAll W now task stepMap runnable s0) as [bs s1].
  specialize (Hf bs s1).
  destruct (finishAll W backends now sleepW expiredW task stepMap bs s1)
    as [os s2].
  exact (more_trans _ _ _ Hb Hf).
Qed.

Lemma dag_loop_events (steps0 : list Step) (ids : list string) (fuel : nat) :
  forall s,
    more_step_events (d_events (fst s))
      (d_events (fst (snd (dag_loop W backends now sleepW expiredW task stepMap
                             steps0 ids fuel s)))).
Proof.
  induction fuel as [|f IH]; intros s; [apply more_refl|].
  simpl dag_loop. unfold bind, look. cbn [fst snd].
  destruct (length (completed (fst s)) + length (failed (fst s)) <? length steps0)%nat;
    [|apply more_refl].
  destruct (getRunnableSteps stepMap (fst s)) as [|r rs].
  - destruct (running (fst s)); [apply more_refl|].
    unfold liftW, modify. cbn [fst snd]. apply (IH (fst s, sleepW 10 (snd s))).
  - pose proof (dag_tick_events (r :: rs) s) as Ht.
    destruct (dag_tick W backends now sleepW expiredW task stepMap (r :: rs) s)
      as [err s1].
    cbn [fst snd] in Ht.
    destruct err as [e|]; [exact Ht|].
    unfold upd. cbn [fst snd].
    exact (more_trans _ _ _ Ht
             (IH (d_push_progress (round_pct (length (completed (fst s1)))
                                     (length steps0)) (fst s1), snd s1))).
Qed.
End DagEvents.

Section SeqEvents.
Variable W : Type.
Variable backends : Registry W.
Variable now : W -> Z.
Variable sleepW : Z -> W -> W.
Variable expiredW : Z -> W -> W -> bool.
Variable task : Task.

Lemma q_settle_events (stepId0 : string) (step : Step) (r : result value)
  (s : SeqState * W) :
  more_step_events (q_events (fst s))
    (q_events (fst (snd (q_settle W now stepId0 step r s)))).
Proof.
  unfold q_settle. destruct r as [v|e]; [|destruct (is_true (optional step))];
    apply more_one; discriminate.
Qed.

Lemma q_exec_events (stepId0 : string) (step : Step) (s : SeqState * W) :
  more_step_events (q_events (fst s))
    (q_events (fst (snd (q_exec W backends now sleepW expiredW task stepId0 step s)))).
Proof.
  unfold q_exec.
  unfold bind at 1. unfold upd at 1. unfold bind at 1.
  unfold q_emit at 1. unfold bind at 1. unfold getNow at 1. unfold upd at 1.
  unfold bind at 1. unfold look at 1. cbn [fst snd]. unfold bind at 1.
  match goal with
  | |- context [runStepTask W backends sleepW expiredW ?note task step ?st ?l ?s0] =>
      pose proof (runStepTask_view W backends sleepW expiredW SeqState SeqState
                    note q_core (q_core_note stepId0) task step st l s0) as Hv;
      destruct (runStepTask W backends sleepW expiredW note task step st l s0)
        as [r s1]
  end.
  cbn [fst snd] in Hv. apply (f_equal q_events) in Hv. simpl in Hv.
  apply (more_trans _ (q_events (fst s1))); [|apply q_settle_events].
  rewrite Hv. apply more_one. discriminate.
Qed.

Lemma q_loop_events (n : nat) (rest : list Step) :
  forall i s,
    more_step_events (q_events (fst s))
      (q_events (fst (snd (q_loop W backends now sleepW expiredW task n rest i s)))).
Proof.
  induction rest as [|step rest IH]; intros i s; [apply more_refl|].
  simpl q_loop. unfold bind.
  assert (Hit : more_step_events (q_events (fst s))
                  (q_events (fst (snd (q_iteration W backends now sleepW expiredW
                                         task n step i s))))).
  { pose proof (q_iteration_branches W backends now sleepW expiredW task n step i s)
      as Eq. cbv zeta in Eq. rewrite Eq. clear Eq.
    set (id := "step_" ++ string_of_nat i).
    set (s1 := (q_push_status (newStatus id (s_task step) (Some (now (snd s))))
                  (q_push_progress (round_pct i n) (fst s)), snd s)).
    change (q_events (fst s)) with (q_events (fst s1)).
    assert (Hskip : forall marker ev,
               more_step_events (q_events (fst s1))
                 (q_events (fst (snd (q_skip W now id step marker ev s1)))))
      by (intros; apply more_one; discriminate).
    destruct (conditional step) as [c|]; [|apply q_exec_events].
    destruct (String.eqb c "on-demand"); [apply Hskip|].
    match goal with |- context [truthy ?x] => destruct (truthy x) end;
      [apply q_exec_events | apply Hskip]. }
  destruct (q_iteration W backends now sleepW expiredW task n step i s) as [r s1].
  cbn [fst snd] in Hit. destruct r as [[]|e]; [|exact Hit].
  exact (more_trans _ _ _ Hit (IH (Datatypes.S i) s1)).
Qed.
End SeqEvents.

Section TaskEvents.
Variable W : Type.
Variable backends : Registry W.
Variable now : W -> Z.
Variable sleepW : Z -> W -> W.
Variable expiredW : Z -> W -> W -> bool.

Lemma dag_run_events (task : Task) (d0 : DagState) (w : W) :
  let out := processPipelineDAG W backends now sleepW expiredW task (d0, w) in
  run_events task (d_events (fst (snd out))) (fst out).
Proof.
  cbv zeta.
  remember (processPipelineDAG W backends now sleepW expiredW task (d0, w))
    as out eqn:Eout.
  unfold processPipelineDAG, dag_run in Eout.
  fold (stepsOf task) in Eout. fold (stepMapOf task) in Eout.
  fold (idsOf task) in Eout.
  unfold bind at 1 in Eout. unfold getNow at 1 in Eout.
  unfold bind at 1 in Eout. unfold upd at 1 in Eout.
  cbn [fst snd] in Eout. unfold bind at 1 in Eout. cbv beta in Eout.
  pose proof (dag_loop_events W backends now sleepW expiredW task (stepMapOf task)
                (stepsOf task) (idsOf task) (Datatypes.S (length (stepsOf task)))
                (d_init (stepMapOf task), w)) as Hl.
  destruct (dag_loop W backends now sleepW expiredW task (stepMapOf task)
              (stepsOf task) (idsOf task) (Datatypes.S (length (stepsOf task)))
              (d_init (stepMapOf task), w)) as [r [d1 w1]].
  cbn [fst snd] in Hl. destruct Hl as (es & Hes & Hall). simpl in Hes.
  destruct r as [[[]|e]|].
  - cbv beta iota zeta delta [bind look getNow d_emit upd ret fst snd] in Eout.
    subst out. cbn [fst snd d_events d_push_event run_events totalDuration nonempty].
    eexists es, _. rewrite Hes. split; [reflexivity|]. split; [exact Hall|].
    repeat split.
  - unfold ret in Eout. subst out. cbn [fst snd run_events]. now rewrite Hes.
  - unfold ret in Eout. subst out. cbn [fst snd run_events]. now rewrite Hes.
Qed.

Lemma sequential_run_events (task : Task) (w : W) :
  let out := processPipelineSequential W backends now sleepW expiredW task (q_init, w) in
  run_events task (q_events (fst (snd out)))
    (Some (fst out)).
Proof.
  cbv zeta.
  remember (processPipelineSequential W backends now sleepW expiredW task (q_init, w))
    as out eqn:Eout.
  unfold processPipelineSequential in Eout. fold (stepsOf task) in Eout.
  unfold bind at 1 in Eout. unfold getNow at 1 in Eout. unfold bind at 1 in Eout.
  cbn [fst snd] in Eout.
  pose proof (q_loop_events W backends now sleepW expiredW task
                (length (stepsOf task)) (stepsOf task) 0 (q_init, w)) as Hl.
  destruct (q_loop W backends now sleepW expiredW task (length (stepsOf task))
              (stepsOf task) 0 (q_init, w)) as [r [q1 w1]].
  cbn [fst snd] in Hl. destruct Hl as (es & Hes & Hall). simpl in Hes.
  destruct r as [[]|e].
  - cbv beta iota zeta delta [bind look getNow q_emit upd ret fst snd] in Eout.
    subst out. cbn [fst snd q_events q_push_event run_events totalDuration].
    eexists es, _. rewrite Hes. split; [reflexivity|]. split; [exact Hall|].
    repeat split.
  - unfold ret in Eout. subst out. cbn [fst snd run_events]. now rewrite Hes.
Qed.

(** The events [processTask] hands to the caller.  When it returns a
    pipeline result, they are events about steps followed by exactly one
    ["pipeline:complete"] event, without step id or task, whose data are the
    result's total duration and the number of declared steps.  When it
    throws, or runs a task without steps, there is no
    ["pipeline:complete"] event. *)
Theorem pipeline_complete_event (task : Task) (w : W) :
  let out := processTask W backends now sleepW expiredW task w in
  match fst (fst out) with
  | Some (Ok (Pipeline p)) =>
      run_events task (eventsSeen (snd (fst out))) (Some (Ok p))
  | _ => Forall step_event (eventsSeen (snd (fst out)))
  end.
Proof.
  cbv zeta. unfold processTask.
  destruct (t_steps task) as [[|s rest]|] eqn:Es.
  - match goal with |- context [let '(_, _) := ?x in _] => destruct x as [r [u w']] end.
    cbn [fst snd eventsSeen]. destruct r; constructor.
  - destruct (existsb declaresGraph (s :: rest)).
    + pose proof (dag_run_events task (d_init []) w) as H. cbv zeta in H.
      destruct (processPipelineDAG W backends now sleepW expiredW task (d_init [], w))
        as [r [d w']].
      cbn [fst snd eventsSeen] in *. destruct r as [[p|e]|]; exact H.
    + pose proof (sequential_run_events task w) as H. cbv zeta in H.
      destruct (processPipelineSequential W backends now sleepW expiredW task (q_init, w))
        as [r [q w']].
      cbn [fst snd eventsSeen] in *. destruct r as [p|e]; exact H.
  - match goal with |- context [let '(_, _) := ?x in _] => destruct x as [r [u w']] end.
    cbn [fst snd eventsSeen]. destruct r; constructor.
Qed.
End TaskEvents.
